(** * pyveg: ingestion, geometry attachment, coarsening and aggregation

    A shallow embedding of [pyveg/src/data_analysis_utils.py] (and of the
    input check of [pyveg/scripts/analyse_gee_data.py]) together with the
    properties of these functions.

    Conventions of the embedding.
    - A Python exception is a value of [exn]; a function that may raise
      returns [result A = exn + A] and is sequenced with [x ← e; k].
    - A pandas DataFrame is a list of rows in table order.  Where the source
      addresses rows by index label ([.loc]) the label is stored with the row.
    - A missing cell (NaN) is an absent key of the row's finite map.
    - JSON numbers and shapely distances are floating point in the source.
      The code only stores them, compares them and, in the aggregation, takes
      sums and quotients; they are modelled by exact numbers ([Z], [Q]), so
      rounding and NaN arithmetic are outside the model. *)

From Stdlib Require Import ZArith QArith String Ascii DecimalString DecimalNat.
From Stdlib Require OrderedTypeEx.
From stdpp Require Import numbers strings gmap sorting list.

Local Open Scope string_scope.
Local Open Scope list_scope.
Local Open Scope Z_scope.

(** ** Exceptions and the error monad *)

Inductive exn :=
  | FileNotFoundError (msg : string)
  | RuntimeError (msg : string)
  | ValueError
  | AttributeError
  | TypeError
  | KeyError (key : string)
  | IndexError.

Definition result (A : Type) : Type := exn + A.

Definition raise {A} (e : exn) : result A := inl e.

#[global] Instance result_ret : MRet result := λ A x, inr x.
#[global] Instance result_bind : MBind result := λ A B f m,
  match m with inl e => inl e | inr x => f x end.
#[global] Instance result_fmap : FMap result := λ A B f m,
  match m with inl e => inl e | inr x => inr (f x) end.

(** [for x in xs: st = body(x, st)], stopping at the first exception. *)
Fixpoint for_each {A S} (body : A → S → result S) (xs : list A) (st : S)
  : result S :=
  match xs with
  | [] => mret st
  | x :: xs' => st' ← body x st; for_each body xs' st'
  end.

(** [[f(x) for x in l]], stopping at the first exception. *)
Fixpoint map_result {A B} (f : A → result B) (l : list A) : result (list B) :=
  match l with
  | [] => mret []
  | x :: l' => y ← f x; ys ← map_result f l'; mret (y :: ys)
  end.

(** Python's [str] on a non-negative integer. *)
Definition str (n : nat) : string := NilEmpty.string_of_uint (Nat.to_uint n).

(** ** Spatial coarsening: [coarse_dataframe] *)

(** The [category] column: the integer [-1] it is initialised with, or the
    string written by the loop. *)
Inductive cell :=
  | Unassigned
  | Label (s : string).

#[global] Instance cell_eq_dec : EqDecision cell.
Proof. solve_decision. Defined.

Module Coarse.
Section coarse.
Context {Geometry : Type}.
(** [pt.distance(other)] of shapely. *)
Variable distance : Geometry → Geometry → Z.

(** The columns of [data_df] the function reads or writes. *)
Record row := Row {
  date : string;
  geometry : Geometry;
  category : cell
}.

(** An entry [(i, distance, category)] of the list [distances]. *)
Definition entry : Type := nat * Z * cell.

Definition set_category (c : cell) (r : row) : row :=
  {| date := date r; geometry := geometry r; category := c |}.

(** [data_df['category'] = -1] *)
Definition init_categories (df : list row) : list row :=
  set_category Unassigned <$> df.

(** [list.sort(key=lambda x: x[1])]: a stable sort on the distance. *)
Fixpoint insert_sorted (x : entry) (l : list entry) : list entry :=
  match l with
  | [] => [x]
  | y :: l' =>
      if bool_decide (x.1.2 ≤ y.1.2) then x :: y :: l'
      else y :: insert_sorted x l'
  end.

Definition sort_by_distance (l : list entry) : list entry :=
  foldr insert_sorted [] l.

(** [np.unique]: the distinct values in ascending order. *)
Fixpoint insert_unique (x : Z) (l : list Z) : list Z :=
  match l with
  | [] => [x]
  | y :: l' =>
      if bool_decide (x < y) then x :: y :: l'
      else if bool_decide (x = y) then y :: l'
      else y :: insert_unique x l'
  end.

Definition np_unique (l : list Z) : list Z := foldr insert_unique [] l.

(** [np.max]: raises [ValueError] on an empty sequence. *)
Definition np_max (l : list Z) : result Z :=
  match l with
  | [] => raise ValueError
  | x :: l' => mret (foldl Z.max x l')
  end.

(** [data_df.loc[indexes, 'category'] = c] on a table whose index labels
    are the row positions. *)
Definition loc_set_category (indexes : list nat) (c : cell) (df : list row)
  : list row :=
  foldl (λ acc i, alter (set_category c) i acc) df indexes.

(** The list comprehension building [distances] for row [n]; note that the
    third component is the category of row [n] itself, for every [i]. *)
Definition distances_from (df : list row) (gn : Geometry) (cn : cell)
  : list entry :=
  imap (λ i r, (i, distance (geometry r) gn, cn)) df.

(** [distances = [i for i in distances if i[2] == -1]] *)
Definition keep_unassigned (l : list entry) : list entry :=
  filter (λ d, d.2 = Unassigned) l.

(** [np.max(np.unique([dist[1] for dist in distances])[:2 * side_square])] *)
Definition max_distance (l : list entry) (side_square : nat) : result Z :=
  np_max (take (2 * side_square) (np_unique ((λ d, d.1.2) <$> l))).

(** [[dist[0] for dist in distances if dist[1] <= max_dist]] *)
Definition within (l : list entry) (max_dist : Z) : list nat :=
  (λ d, d.1.1) <$> filter (λ d, d.1.2 ≤ max_dist) l.

(** The list [distances] as it stands after the sort and the filter. *)
Definition candidates (df : list row) (n : nat) : result (list entry) :=
  match df !! n with
  | None => raise IndexError
  | Some rn =>
      mret (keep_unassigned
              (sort_by_distance (distances_from df (geometry rn) (category rn))))
  end.

(** The body of the loop for row [n]; the state is the table and the
    counter [category]. *)
Definition loop_body (side_square : nat) (n : nat) (st : list row * nat)
  : result (list row * nat) :=
  let '(df, counter) := st in
  match df !! n with
  | None => raise IndexError
  | Some rn =>
      if bool_decide (category rn = Unassigned) then
        distances ← candidates df n;
        max_dist ← max_distance distances side_square;
        let indexes := within distances max_dist in
        mret (loc_set_category indexes (Label (str counter)) df, S counter)
      else mret (df, counter)
  end.

(** Lines 360 to 385: the table after the greedy loop. *)
Definition assign_categories (data_df : list row) (side_square : nat)
  : result (list row) :=
  let df := init_categories data_df in
  st ← for_each (loop_body side_square) (seq 0 (length df)) (df, 0%nat);
  mret st.1.

(** [data_df['category'].str.cat(data_df['date'], sep="_")].  The [.str]
    accessor is refused on a column holding no string (an empty column, or
    one still holding only [-1]), and the concatenation on a column that
    mixes strings with integers. *)
Definition has_label (r : row) : bool :=
  match category r with Label _ => true | Unassigned => false end.

Definition cat_date (r : row) : row :=
  match category r with
  | Label s => set_category (Label (s +:+ "_" +:+ date r)) r
  | Unassigned => r
  end.

Definition str_cat_date (df : list row) : result (list row) :=
  if negb (existsb has_label df) then raise AttributeError
  else if negb (forallb has_label df) then raise TypeError
  else mret (cat_date <$> df).

(** A row of the dissolved table: its index [(category, date)], the [date]
    column re-attached from the index, and the positions of the input rows
    it aggregates. *)
Record block := Block {
  block_category : cell;
  block_date : string;
  members : list nat
}.

Definition block_key (b : block) : cell * string :=
  (block_category b, block_date b).

Fixpoint add_member (k : cell * string) (i : nat) (bs : list block)
  : list block :=
  match bs with
  | [] => [Block k.1 k.2 [i]]
  | b :: bs' =>
      if bool_decide (block_key b = k)
      then Block (block_category b) (block_date b) (members b ++ [i]) :: bs'
      else b :: add_member k i bs'
  end.

(** [data_df.dissolve(by=['category','date'], aggfunc='mean')] followed by
    the re-assignment of [date]: one block per distinct key.  The blocks are
    listed by first occurrence of their key (pandas lists them by sorted
    key); the aggregated numeric columns and geometries are not modelled. *)
Definition dissolve (df : list row) : list block :=
  foldl (λ bs ir, add_member (category ir.2, date ir.2) ir.1 bs) []
        (imap pair df).

Definition coarse_dataframe (data_df : list row) (side_square : nat)
  : result (list block) :=
  df ← assign_categories data_df side_square;
  df ← str_cat_date df;
  mret (dissolve df).

(** The loop body as the specification words it: the entry of row [i]
    carries the category of row [i], so that rows already assigned are
    discarded from [distances] before the radius is computed. *)
Definition distances_from_spec (df : list row) (gn : Geometry) : list entry :=
  imap (λ i r, (i, distance (geometry r) gn, category r)) df.

Definition loop_body_spec (side_square : nat) (n : nat) (st : list row * nat)
  : result (list row * nat) :=
  let '(df, counter) := st in
  match df !! n with
  | None => raise IndexError
  | Some rn =>
      if bool_decide (category rn = Unassigned) then
        let distances :=
          keep_unassigned (sort_by_distance (distances_from_spec df (geometry rn))) in
        max_dist ← max_distance distances side_square;
        let indexes := within distances max_dist in
        mret (loc_set_category indexes (Label (str counter)) df, S counter)
      else mret (df, counter)
  end.

Definition assign_categories_spec (data_df : list row) (side_square : nat)
  : result (list row) :=
  let df := init_categories data_df in
  st ← for_each (loop_body_spec side_square) (seq 0 (length df)) (df, 0%nat);
  mret st.1.

End coarse.
End Coarse.

(** A concrete geometry: the points [(x, 0)] of a line, whose distance is
    [|x - y|]. *)
Definition line_distance (x y : Z) : Z := Z.abs (x - y).

Definition line_table (xs : list (string * Z)) : list (@Coarse.row Z) :=
  (λ p, Coarse.Row p.1 p.2 Unassigned) <$> xs.

(** Three points at [x = 0, 1, 2] observed on one date. *)
Definition three_points : list (@Coarse.row Z) :=
  line_table [("2020-01-01", 0); ("2020-01-01", 1); ("2020-01-01", 2)].

(** ** Tables *)

(** The content of a cell: a number, a string or a shapely point (whose
    coordinates may be NaN, written [None]). *)
Inductive value :=
  | Num (z : Z)
  | Str (s : string)
  | Point (x y : option Z).

#[global] Instance value_eq_dec : EqDecision value.
Proof. solve_decision. Defined.

(** A DataFrame: its column names and its rows in table order, each with its
    index label.  A row maps column names to cells; a column the row has no
    entry for holds NaN there. *)
Record DataFrame := {
  columns : list string;
  rows : list (nat * gmap string value)
}.

(** [df.loc[label, col] = v]: written into every row labelled [label]; when
    there is none a new row is appended.  An unknown column is added. *)
Definition set_cell (label : nat) (col : string) (v : value)
  (rs : list (nat * gmap string value)) : list (nat * gmap string value) :=
  if decide (label ∈ rs.*1)
  then (λ lr, if decide (lr.1 = label) then (lr.1, <[col := v]> lr.2) else lr) <$> rs
  else rs ++ [(label, {[col := v]})].

Definition loc_set (label : nat) (col : string) (v : value) (df : DataFrame)
  : DataFrame :=
  {| columns := if decide (col ∈ columns df) then columns df
                else columns df ++ [col];
     rows := set_cell label col v (rows df) |}.

(** [df.index[criteria].tolist()] *)
Definition matched_indices (criteria : gmap string value → Prop)
  `{!∀ r, Decision (criteria r)} (df : DataFrame) : list nat :=
  (filter (λ lr, criteria lr.2) (rows df)).*1.

(** ** Fixed-schema ingestion: [read_json_to_dataframe] *)

Module Ingest.

(** A leaf record of a vegetation collection. *)
Record space_point := SpacePoint {
  sp_date : string;
  latitude : Z;
  longitude : Z;
  offset50 : Z
}.

(** The value of one collection in the summary file, typed by the schema of
    the file: the time points of a vegetation collection map sub-location
    ids to space points, those of any other collection map metric names to
    values; a time point may be [null]. *)
Inductive coll_results :=
  | Vegetation (time_series_data : list (string * option (list (string * space_point))))
  | Weather (type : string) (time_series_data : list (string * option (list (string * value)))).

(** [coll_results['type']] *)
Definition coll_type (c : coll_results) : string :=
  match c with
  | Vegetation _ => "vegetation"
  | Weather type _ => type
  end.

(** The parsed summary file: collection name to collection, in file order. *)
Definition summary : Type := list (string * coll_results).

Definition error_message : string :=
  "Error when building DataFrame, check input json.".

(** [pd.DataFrame(columns=['date', 'lat', 'long'])] and
    [pd.DataFrame(columns=['date'])] *)
Definition empty_veg_df : DataFrame :=
  {| columns := ["date"; "lat"; "long"]; rows := [] |}.
Definition empty_weather_df : DataFrame :=
  {| columns := ["date"]; rows := [] |}.

(** [(veg_df['date'] == date) & (veg_df['lat'] == lat) & (veg_df['long'] == long)] *)
Definition match_criteria (date lat long : value) (r : gmap string value) : Prop :=
  r !! "date" = Some date ∧ r !! "lat" = Some lat ∧ r !! "long" = Some long.

#[global] Instance match_criteria_dec date lat long r :
  Decision (match_criteria date lat long r).
Proof. unfold match_criteria. apply _. Defined.

(** The body of the innermost vegetation loop (lines 63 to 94); the state is
    [veg_df] and the index [i]. *)
Definition add_space_point (collection_name : string) (sp : space_point)
  (st : DataFrame * nat) : result (DataFrame * nat) :=
  let '(veg_df, i) := st in
  let date := Str (sp_date sp) in
  let lat := Num (latitude sp) in
  let long := Num (longitude sp) in
  match matched_indices (match_criteria date lat long) veg_df with
  | [] =>
      let veg_df := loc_set i "date" (Str (sp_date sp)) veg_df in
      let veg_df := loc_set i "lat" (Num (latitude sp)) veg_df in
      let veg_df := loc_set i "long" (Num (longitude sp)) veg_df in
      let veg_df :=
        loc_set i (collection_name +:+ "_offset50") (Num (offset50 sp)) veg_df in
      mret (veg_df, S i)
  | [index] =>
      mret (loc_set index (collection_name +:+ "_offset50")
              (Num (offset50 sp)) veg_df, i)
  | _ => raise (RuntimeError error_message)
  end.

(** [for time_point in ...values(): if time_point is None: continue; for
    space_point in time_point.values(): ...] *)
Definition add_time_point (collection_name : string)
  (time_point : option (list (string * space_point)))
  (st : DataFrame * nat) : result (DataFrame * nat) :=
  match time_point with
  | None => mret st
  | Some pts => for_each (add_space_point collection_name) pts.*2 st
  end.

(** Subscripting a number ([space_point['date']]) raises [TypeError]: this is
    what the vegetation loop does on a collection that declares the type
    vegetation but holds flat metrics. *)
Definition subscript_metrics (time_point : option (list (string * value)))
  (st : DataFrame * nat) : result (DataFrame * nat) :=
  match time_point with
  | None => mret st
  | Some ms => for_each (λ _ _, raise TypeError) ms.*2 st
  end.

(** The body of the first loop over the collections. *)
Definition add_vegetation (c : string * coll_results) (st : DataFrame * nat)
  : result (DataFrame * nat) :=
  if bool_decide (coll_type c.2 ≠ "vegetation") then mret st
  else match c.2 with
       | Vegetation tsd => for_each (add_time_point c.1) tsd.*2 st
       | Weather _ tsd => for_each subscript_metrics tsd.*2 st
       end.

(** The body of the loop over the time series of a weather collection
    (lines 110 to 140). *)
Definition add_weather_point (tp : string * option (list (string * value)))
  (st : DataFrame * nat) : result (DataFrame * nat) :=
  let '(weather_df, i) := st in
  let date := tp.1 in
  match tp.2 with
  | None => mret st
  | Some values =>
      match matched_indices (λ r, r !! "date" = Some (Str date)) weather_df with
      | [] =>
          let weather_df :=
            foldl (λ df mv, loc_set i mv.1 mv.2 (loc_set i "date" (Str date) df))
                  weather_df values in
          mret (weather_df, S i)
      | [index] =>
          let weather_df :=
            foldl (λ df mv, loc_set index mv.1 mv.2 df) weather_df values in
          mret (weather_df, i)
      | _ => raise (RuntimeError error_message)
      end
  end.

(** The body of the second loop over the collections. *)
Definition add_weather (c : string * coll_results) (st : DataFrame * nat)
  : result (DataFrame * nat) :=
  if bool_decide (coll_type c.2 = "vegetation") then mret st
  else match c.2 with
       | Weather _ tsd => for_each add_weather_point tsd st
       | Vegetation _ => mret st
       end.

(** A row of [pd.merge(veg_df, weather_df, on='date', how='outer')]: the
    cells taken from the vegetation row and those taken from the weather row;
    a side that is absent holds nulls in all its columns.  (The two sides
    are kept apart, so the suffixes pandas gives to a column name that both
    tables have are not modelled.) *)
Record merged_row := Merged {
  from_veg : option (gmap string value);
  from_weather : option (gmap string value)
}.

(** The [date] cell of a merged row. *)
Definition merged_date (m : merged_row) : option value :=
  match from_veg m, from_weather m with
  | Some r, _ => r !! "date"
  | None, Some r => r !! "date"
  | None, None => None
  end.

(** The outer join on [date]: every vegetation row is paired with each
    weather row of its date, or with nulls when there is none; the weather
    rows whose date no vegetation row has follow, with nulls on the vegetation
    side.  (pandas orders the result by key; the order is not modelled.) *)
Definition weather_matches (weather_df : DataFrame) (date : option value)
  : list (nat * gmap string value) :=
  filter (λ rr, rr.2 !! "date" = date) (rows weather_df).

Definition merge_left (weather_df : DataFrame) (lr : nat * gmap string value)
  : list merged_row :=
  match weather_matches weather_df (lr.2 !! "date") with
  | [] => [Merged (Some lr.2) None]
  | ms => (λ rr, Merged (Some lr.2) (Some rr.2)) <$> ms
  end.

Definition unmatched_right (veg_df : DataFrame) (rr : nat * gmap string value)
  : Prop :=
  Forall (λ lr, lr.2 !! "date" ≠ rr.2 !! "date") (rows veg_df).

Definition pd_merge_outer (veg_df weather_df : DataFrame) : list merged_row :=
  (rows veg_df ≫= merge_left weather_df) ++
  ((λ rr, Merged None (Some rr.2)) <$> filter (unmatched_right veg_df) (rows weather_df)).

(** [Point(xy) for xy in zip(df.lat, df.long)] on the merged table. *)
Definition coordinate (r : option (gmap string value)) (col : string) : option Z :=
  match r ≫= (.!! col) with
  | Some (Num z) => Some z
  | _ => None
  end.

Definition with_geometry (m : merged_row) : merged_row * value :=
  (m, Point (coordinate (from_veg m) "lat") (coordinate (from_veg m) "long")).

(** [df.lat] and [df.long] on the merged table.  The vegetation table has
    the columns [lat] and [long]; when the weather table has a column of the
    same name [pd.merge] gives the two the suffixes [_x] and [_y], and the
    attribute is missing: [AttributeError]. *)
Definition merged_attribute (weather_df : DataFrame) (col : string)
  : result unit :=
  if bool_decide (col ∈ columns weather_df) then raise AttributeError
  else mret ().

(** The file system: the paths that exist, with the parsed content of the
    file. *)
Definition read_json_to_dataframe (fs : gmap string summary) (filename : string)
  : result (list (merged_row * value)) :=
  match fs !! filename with
  | None => raise (FileNotFoundError "")
  | Some data =>
      veg ← for_each add_vegetation data (empty_veg_df, 0%nat);
      weather ← for_each add_weather data (empty_weather_df, 0%nat);
      let df := pd_merge_outer veg.1 weather.1 in
      _ ← merged_attribute weather.1 "lat";
      _ ← merged_attribute weather.1 "long";
      mret (with_geometry <$> df)
  end.

End Ingest.

(** *** Vocabulary for the properties of the ingestion *)

Module IngestSpec.
Import Ingest.

(** A summary is well typed when only [Vegetation] collections declare the
    type vegetation. *)
Definition is_vegetation (c : coll_results) : bool :=
  match c with Vegetation _ => true | Weather _ _ => false end.

Definition well_typed (data : summary) : Prop :=
  Forall (λ c : string * coll_results,
            coll_type c.2 = "vegetation" → is_vegetation c.2 = true) data.

(** The vegetation records of a summary in the order of the loops, each with
    the name of its collection. *)
Definition time_point_records (name : string)
  (tp : option (list (string * space_point))) : list (string * space_point) :=
  match tp with
  | None => []
  | Some pts => pair name <$> pts.*2
  end.

Definition collection_records (c : string * coll_results)
  : list (string * space_point) :=
  match c.2 with
  | Vegetation tsd => tsd.*2 ≫= time_point_records c.1
  | Weather _ _ => []
  end.

Definition veg_records (data : summary) : list (string * space_point) :=
  data ≫= collection_records.

(** The uniqueness key of a record and of a row. *)
Definition sp_key (sp : space_point) : value * value * value :=
  (Str (sp_date sp), Num (latitude sp), Num (longitude sp)).

Definition row_key (r : gmap string value) : option (value * value * value) :=
  d ← r !! "date"; la ← r !! "lat"; lo ← r !! "long"; Some (d, la, lo).

(** The metric column of a collection. *)
Definition metric_column (name : string) : string := name +:+ "_offset50".

(** The [offset50] of the last record of collection [name] with key [k]. *)
Definition last_offset (name : string) (k : option (value * value * value))
  (recs : list (string * space_point)) : option Z :=
  (λ r, offset50 r.2) <$> last (filter (λ r, r.1 = name ∧ Some (sp_key r.2) = k) recs).

(** The state of the vegetation loop after the records [recs]. *)
Definition veg_inv (recs : list (string * space_point)) (st : DataFrame * nat)
  : Prop :=
  (rows st.1).*1 = seq 0 st.2 ∧
  NoDup ((λ lr, row_key lr.2) <$> rows st.1) ∧
  (∀ lr, lr ∈ rows st.1 → ∃ rec, rec ∈ recs ∧ row_key lr.2 = Some (sp_key rec.2)) ∧
  (∀ rec, rec ∈ recs → ∃ lr, lr ∈ rows st.1 ∧ row_key lr.2 = Some (sp_key rec.2)) ∧
  (∀ lr name, lr ∈ rows st.1 →
     lr.2 !! metric_column name = Num <$> last_offset name (row_key lr.2) recs).

End IngestSpec.

(** *** Vocabulary for the weather loop and the merged table *)

Module MergeSpec.
Import Ingest.

(** The time points of the collections the weather loop reads, in the order
    of the loops. *)
Definition collection_points (c : string * coll_results)
  : list (string * option (list (string * value))) :=
  match c.2 with
  | Weather type tsd => if bool_decide (type = "vegetation") then [] else tsd
  | Vegetation _ => []
  end.

Definition weather_points (data : summary)
  : list (string * option (list (string * value))) :=
  data ≫= collection_points.

(** The number of rows of a table, and of a merged table, holding [d] in the
    [date] column. *)
Definition rows_on (d : option value) (df : DataFrame) : nat :=
  length (filter (λ lr, lr.2 !! "date" = d) (rows df)).

Definition merged_on (d : option value) (out : list merged_row) : nat :=
  length (filter (λ m, merged_date m = d) out).

(** The dates of a table. *)
Definition dates_of (df : DataFrame) : list (option value) :=
  (λ lr, lr.2 !! "date") <$> rows df.

(** The merged table as the specification words it: every date of either
    table occurs in exactly one row. *)
Definition each_date_once (data : summary) : Prop :=
  ∀ veg weather,
    for_each add_vegetation data (empty_veg_df, 0%nat) = inr veg →
    for_each add_weather data (empty_weather_df, 0%nat) = inr weather →
    ∀ d, d ∈ dates_of veg.1 ++ dates_of weather.1 →
      merged_on d (pd_merge_outer veg.1 weather.1) = 1%nat.

End MergeSpec.

(** ** Paths and messages *)

(** [sub in s] on strings. *)
Fixpoint contains (sub s : string) : bool :=
  String.prefix sub s ||
  match s with
  | EmptyString => false
  | String _ s' => contains sub s'
  end.

Definition dquote : string := String (ascii_of_nat 34) EmptyString.

(** [os.path.join(a, b)] for a relative [b]. *)
Definition path_join (a b : string) : string :=
  if bool_decide (a = "") then b
  else if String.prefix "/" (String.rev a) then a +:+ b
  else a +:+ "/" +:+ b.

(** [os.path.abspath(p)] in the working directory [cwd]; the normalisation
    of [.] and [..] segments is not modelled. *)
Definition abspath (cwd p : string) : string :=
  if String.prefix "/" p then p else path_join cwd p.

(** ** Per-collection ingestion: [variable_read_json_to_dataframe] *)

Module VarIngest.

(** A JSON value; an object keeps its members in file order. *)
Inductive json :=
  | JNull
  | JBool (b : bool)
  | JNum (z : Z)
  | JStr (s : string)
  | JArr (items : list json)
  | JObj (members : list (string * json)).

(** [isinstance(v, dict)] *)
Definition is_dict (v : json) : bool :=
  match v with JObj _ => true | _ => false end.

(** [d[k] = v] on a dict. *)
Fixpoint dict_set {V} (k : string) (v : V) (d : list (string * V))
  : list (string * V) :=
  match d with
  | [] => [(k, v)]
  | (k', v') :: d' =>
      if bool_decide (k' = k) then (k', v) :: d' else (k', v') :: dict_set k v d'
  end.

(** [d.get(k)] on a dict. *)
Fixpoint dict_get {V} (k : string) (d : list (string * V)) : option V :=
  match d with
  | [] => None
  | (k', v) :: d' => if bool_decide (k' = k) then Some v else dict_get k d'
  end.

(** The body of the loop over the time series (lines 189 to 208); the state
    is [rows_list]. *)
Definition add_time_point (tp : string * json) (rows_list : list json)
  : result (list json) :=
  let date := tp.1 in
  match tp.2 with
  | JNull => mret rows_list
  | JObj [] => mret rows_list
  | JObj ((k, v) :: rest) =>
      if is_dict v
      then mret (foldl (λ rows space_point, rows ++ [space_point]) rows_list
                   ((k, v) :: rest).*2)
      else mret (rows_list ++ [JObj (dict_set "date" (JStr date) ((k, v) :: rest))])
  | JBool _ | JNum _ | JStr _ | JArr _ => raise AttributeError
  end.

(** The parsed summary file: collection name to the items of the
    collection's [time-series-data]. *)
Definition summary : Type := list (string * list (string * json)).

(** [pd.DataFrame(rows_list)]: a table with one row per element of the
    list.  A list whose first element is a dict is read as a list of dicts,
    and [keys] is called on each of its elements: [AttributeError] on an
    element that is not a dict. *)
Definition pd_DataFrame (rows_list : list json) : result (list json) :=
  match rows_list with
  | [] => mret []
  | first :: _ =>
      if is_dict first && negb (forallb is_dict rows_list)
      then raise AttributeError
      else mret rows_list
  end.

(** The body of the loop over the collections (lines 183 to 213). *)
Definition add_collection (c : string * list (string * json))
  (dfs : list (string * list json)) : result (list (string * list json)) :=
  rows_list ← for_each add_time_point c.2 [];
  df ← pd_DataFrame rows_list;
  mret (dict_set c.1 df dfs).

Definition variable_read_json_to_dataframe (fs : gmap string summary)
  (filename : string) : result (list (string * list json)) :=
  match fs !! filename with
  | None => raise (FileNotFoundError "")
  | Some data => for_each add_collection data []
  end.

(** The input check of [main] in [scripts/analyse_gee_data.py] (lines 60 to
    70), followed by the call of the reader. *)
Definition main_read (cwd : string) (fs : gmap string summary)
  (input_dir : string) : result (list (string * list json)) :=
  let json_summary_path := path_join input_dir "results_summary.json" in
  match fs !! json_summary_path with
  | None =>
      raise (FileNotFoundError
               ("Could not find file " +:+ dquote +:+
                abspath cwd json_summary_path +:+ dquote +:+ "."))
  | Some _ => variable_read_json_to_dataframe fs json_summary_path
  end.

(** The rows of one date entry as the specification words them. *)
Definition rows_as_stated (tp : string * json) : list json :=
  match tp.2 with
  | JObj (m :: ms) =>
      if forallb is_dict (m :: ms).*2 then (m :: ms).*2
      else [JObj (dict_set "date" (JStr tp.1) (m :: ms))]
  | _ => []
  end.

(** The rows of one date entry as the code decides them: by the first value
    of the entry. *)
Definition rows_of_entry (tp : string * json) : list json :=
  match tp.2 with
  | JObj ((k, v) :: ms) =>
      if is_dict v then ((k, v) :: ms).*2
      else [JObj (dict_set "date" (JStr tp.1) ((k, v) :: ms))]
  | _ => []
  end.

(** An entry the loop accepts: [null] or an object. *)
Definition is_entry (v : json) : bool :=
  match v with JNull | JObj _ => true | _ => false end.

(** An entry of which a table can be built: [null], or an object whose
    values are all mappings when the first one is. *)
Definition well_formed_entry (v : json) : bool :=
  match v with
  | JNull | JObj [] => true
  | JObj ((_, v) :: ms) => if is_dict v then forallb is_dict ms.*2 else true
  | _ => false
  end.

(** The table of a collection as the specification words it: the rows of
    its entries, whatever they hold. *)
Definition emits_as_stated (c : string * list (string * json)) : Prop :=
  add_collection c [] = inr [(c.1, c.2 ≫= rows_as_stated)].

(** A date entry whose first value is a sub-location object and whose
    second value is a number. *)
Definition mixed_entry : string * json :=
  ("2020-01-01",
   JObj [("0", JObj [("date", JStr "2020-01-01"); ("offset50", JNum 1)]);
         ("1", JNum 2)]).

(** A summary with one vegetation and one weather collection. *)
Definition small_summary : summary :=
  [("COPERNICUS/S2",
    [("2020-01-01",
      JObj [("0", JObj [("date", JStr "2020-01-01"); ("offset50", JNum 1)]);
            ("1", JObj [("date", JStr "2020-01-01"); ("offset50", JNum 3)])]);
     ("2020-02-01", JNull);
     ("2020-03-01", JObj [])]);
   ("ECMWF/ERA5/MONTHLY",
    [("2020-01-01", JObj [("total_precipitation", JNum 5)])])].

End VarIngest.

(** ** Geometry attachment: [convert_to_geopandas] *)

Module Geo.

(** [df.lat]: the cells of a column, [AttributeError] when the table has no
    such column. *)
Definition get_column (df : DataFrame) (col : string)
  : result (list (option value)) :=
  if bool_decide (col ∈ columns df) then mret ((λ lr, lr.2 !! col) <$> rows df)
  else raise AttributeError.

(** A coordinate of [Point(xy)]: a number or NaN. *)
Definition coordinate (c : option value) : result (option Z) :=
  match c with
  | None => mret None
  | Some (Num z) => mret (Some z)
  | Some _ => raise TypeError
  end.

Definition make_point (xy : option value * option value) : result value :=
  x ← coordinate xy.1; y ← coordinate xy.2; mret (Point x y).

(** [df[col] = values] for a list with one value per row. *)
Definition write_cell (col : string) (lr : nat * gmap string value) (v : value)
  : nat * gmap string value :=
  (lr.1, <[col := v]> lr.2).

Definition set_column (col : string) (values : list value) (df : DataFrame)
  : DataFrame :=
  {| columns := if bool_decide (col ∈ columns df) then columns df
                else columns df ++ [col];
     rows := zip_with (write_cell col) (rows df) values |}.

(** The function writes the column into the table it is given, binds the
    GeoDataFrame built from it to the local name [df] and ends without a
    [return]: the result is the table after the call together with the
    returned value, which is [None]. *)
Definition convert_to_geopandas (df : DataFrame)
  : result (DataFrame * option DataFrame) :=
  lat ← get_column df "lat";
  long ← get_column df "long";
  points ← map_result make_point (zip lat long);
  let df := set_column "geometry" points df in
  mret (df, None).

(** The function as the specification words it: the table given is left as
    it was, and the table returned is the one given with the geometry column
    written. *)
Definition returns_augmented_copy (df : DataFrame) : Prop :=
  ∃ after ret,
    convert_to_geopandas df = inr (after, ret) ∧
    after = df ∧
    ∃ out, ret = Some out ∧
           (rows out).*1 = (rows df).*1 ∧
           ∀ lr, lr ∈ rows out → is_Some (lr.2 !! "geometry").

Definition numeric (c : option value) : Prop :=
  match c with
  | None | Some (Num _) => True
  | Some _ => False
  end.

(** A table with one row at latitude 1 and longitude 2. *)
Definition one_point : DataFrame :=
  {| columns := ["date"; "lat"; "long"];
     rows := [(0%nat, {["date" := Str "2020-01-01"; "lat" := Num 1; "long" := Num 2]})] |}.

End Geo.

(** ** Example inputs *)

(** One vegetation collection with two sub-locations on one date, and one
    weather collection. *)
Definition two_points : Ingest.summary :=
  [("COPERNICUS/S2",
    Ingest.Vegetation
      [("2020-01-01",
        Some [("0", Ingest.SpacePoint "2020-01-01" 0 0 1);
              ("1", Ingest.SpacePoint "2020-01-01" 0 1 3)])]);
   ("ECMWF/ERA5/MONTHLY",
    Ingest.Weather "weather"
      [("2020-01-01", Some [("total_precipitation", Num 5)]);
       ("2020-02-01", Some [("total_precipitation", Num 7)])])].

(** A weather collection with a metric named [date]: its first two time
    points both end up with ["2020-03-01"] in the [date] column, so the third
    finds two matching rows. *)
Definition date_metric : Ingest.summary :=
  [("ECMWF/ERA5/MONTHLY",
    Ingest.Weather "weather"
      [("2020-01-01", Some [("date", Str "2020-03-01")]);
       ("2020-02-01", Some [("date", Str "2020-03-01")]);
       ("2020-03-01", Some [("total_precipitation", Num 7)])])].

(** A missing-file error as the specification words it: the message of the
    [FileNotFoundError] includes the absolute path of the file. *)
Definition names_missing_path {A} (cwd filename : string) (r : result A) : Prop :=
  ∃ msg, r = inl (FileNotFoundError msg) ∧
         contains (abspath cwd filename) msg = true.

(** ** Temporal aggregation: [make_time_series] *)

Module TimeSeries.

(** A cell of an aggregated table: a rational number, or the non-negative
    square root of one. *)
Inductive num :=
  | Rat (q : Q)
  | Root (q : Q).

(** The part of a collection table the aggregation reads: the names of its
    numeric columns, and for each row its [date] and its numeric cells.  The
    column names are taken to be distinct. *)
Record table := {
  num_columns : list string;
  num_rows : list (string * gmap string Q)
}.

Definition Qsum (vs : list Q) : Q := foldr Qplus (inject_Z 0) vs.

Definition Qlength (vs : list Q) : Q := inject_Z (Z.of_nat (length vs)).

(** [mean] of pandas: the mean of the values present, NaN when there are
    none. *)
Definition mean (vs : list Q) : option Q :=
  match vs with
  | [] => None
  | _ => Some (Qdiv (Qsum vs) (Qlength vs))
  end.

(** The sum of squared deviations from [m], over [k - 1]. *)
Definition sample_variance (vs : list Q) (m : Q) : Q :=
  Qdiv (Qsum ((λ v, Qmult (Qminus v m) (Qminus v m)) <$> vs))
       (Qminus (Qlength vs) (inject_Z 1)).

(** [std] of pandas: the sample standard deviation of the values present,
    NaN when there are fewer than two. *)
Definition std (vs : list Q) : option num :=
  match vs with
  | [] | [_] => None
  | _ => Some (Root (sample_variance vs (Qdiv (Qsum vs) (Qlength vs))))
  end.

(** [df.groupby('date')]: the keys of the groups (pandas lists them sorted;
    the order is not modelled) and the values a group holds in a column. *)
Definition group_dates (df : table) : list string :=
  remove_dups (num_rows df).*1.

Definition group_values (df : table) (d c : string) : list Q :=
  omap (λ r, r.2 !! c) (filter (λ r, r.1 = d) (num_rows df)).

(** [groups.mean()] and [groups.std()]: one row per group, holding the
    reduction of each numeric column. *)
Definition reduce_groups (f : list Q → option num) (df : table)
  : list (string * gmap string num) :=
  (λ d, (d, list_to_map
              (omap (λ c, pair c <$> f (group_values df d c)) (num_columns df))))
    <$> group_dates df.

(** [rename(columns={old: new})] *)
Definition rename_columns (old new : string) (cols : list string) : list string :=
  (λ c, if bool_decide (c = old) then new else c) <$> cols.

Definition rename_cells (old new : string) (r : gmap string num)
  : gmap string num :=
  match r !! old with
  | Some v => <[new := v]> (delete old r)
  | None => delete old r
  end.

(** [df[[c]]]: [KeyError] when the table has no column [c]. *)
Definition select_column (c : string) (cols : list string)
  (rs : list (string * gmap string num))
  : result (list (string * gmap string num)) :=
  if bool_decide (c ∈ cols)
  then mret ((λ r, (r.1, match r.2 !! c with
                         | Some v => {[c := v]}
                         | None => ∅
                         end)) <$> rs)
  else raise (KeyError c).

(** A row of [pd.merge(means, stds, on='date', how='inner')]: the date, the
    cells taken from [means] and those taken from [stds]. *)
Record series_row := {
  series_date : string;
  means_cells : gmap string num;
  stds_cells : gmap string num
}.

Definition pd_merge_inner (means stds : list (string * gmap string num))
  : list series_row :=
  means ≫= λ m,
    (λ s, {| series_date := m.1; means_cells := m.2; stds_cells := s.2 |})
      <$> filter (λ s, s.1 = m.1) stds.

(** The body of the [if] (lines 262 to 274). *)
Definition time_series (df : table) : result (list series_row) :=
  let means := reduce_groups (λ vs, Rat <$> mean vs) df in
  let stds := reduce_groups std df in
  let std_columns := rename_columns "offset50" "offset50_std" (num_columns df) in
  let stds := (λ r, (r.1, rename_cells "offset50" "offset50_std" r.2)) <$> stds in
  stds ← select_column "offset50_std" std_columns stds;
  mret (pd_merge_inner means stds).

(** A value of the dict returned: a table left as it was, or a time
    series. *)
Inductive frame :=
  | Unchanged (df : table)
  | Series (rs : list series_row).

(** [col_name == 'COPERNICUS/S2' or 'LANDSAT' in col_name] *)
Definition is_vegetation_name (col_name : string) : bool :=
  bool_decide (col_name = "COPERNICUS/S2") || contains "LANDSAT" col_name.

Definition make_time_series (dfs : list (string * table))
  : result (list (string * frame)) :=
  map_result
    (λ kv, if is_vegetation_name kv.1
           then rs ← time_series kv.2; mret (kv.1, Series rs)
           else mret (kv.1, Unchanged kv.2))
    dfs.

(** The aggregated table as the specification words it: the row of a date
    holds, for every numeric column, the mean of the values of that date and,
    in the column suffixed [_std], their sample standard deviation. *)
Definition std_column_per_metric (df : table) : Prop :=
  ∀ out d c,
    time_series df = inr out → c ∈ num_columns df → d ∈ (num_rows df).*1 →
    ∃ r, r ∈ out ∧ series_date r = d ∧
         means_cells r !! c = Rat <$> mean (group_values df d c) ∧
         stds_cells r !! (c +:+ "_std") = std (group_values df d c).

(** Two sub-locations on one date, with the columns [offset50] and
    [latitude]. *)
Definition two_rows : table :=
  {| num_columns := ["latitude"; "offset50"];
     num_rows :=
       [("2020-01-01", {["latitude" := inject_Z 0; "offset50" := inject_Z 1]});
        ("2020-01-01", {["latitude" := inject_Z 2; "offset50" := inject_Z 3]})] |}.

End TimeSeries.

(** *** Vocabulary for the weather table *)

Module WeatherSpec.
Import Ingest MergeSpec.

(** A time point that holds at least one metric. *)
Definition has_values (tp : string * option (list (string * value))) : bool :=
  match tp.2 with
  | Some (_ :: _) => true
  | _ => false
  end.

(** The dates of the time points that hold a metric. *)
Definition dated (pts : list (string * option (list (string * value))))
  : list string :=
  (filter (λ tp, has_values tp = true) pts).*1.

(** The metrics given for the date [d], in the order of the loops. *)
Definition metrics_on (d : string)
  (pts : list (string * option (list (string * value)))) : list (string * value) :=
  pts ≫= λ tp, if decide (tp.1 = d) then default [] tp.2 else [].

(** The last value given for the metric [m] on the date [d]. *)
Definition last_value (m d : string)
  (pts : list (string * option (list (string * value)))) : option value :=
  snd <$> last (filter (λ mv, mv.1 = m) (metrics_on d pts)).

(** No weather metric has the name of a key column of the tables. *)
Definition plain_metrics (data : summary) : Prop :=
  ∀ tp values m,
    tp ∈ weather_points data → tp.2 = Some values → m ∈ values.*1 →
    m ≠ "date" ∧ m ≠ "lat" ∧ m ≠ "long".

(** The state of the weather loop after the time points [pts]. *)
Definition weather_inv (pts : list (string * option (list (string * value))))
  (st : DataFrame * nat) : Prop :=
  NoDup (rows st.1).*1 ∧
  (∀ l, l ∈ (rows st.1).*1 → (l < st.2)%nat) ∧
  NoDup (dates_of st.1) ∧
  (∀ dv, dv ∈ dates_of st.1 ↔ ∃ d, dv = Some (Str d) ∧ d ∈ dated pts) ∧
  (∀ lr d m, lr ∈ rows st.1 → lr.2 !! "date" = Some (Str d) → m ≠ "date" →
     lr.2 !! m = last_value m d pts).

End WeatherSpec.

(** ** Figures: [create_lat_long_metric_figures] *)

Module Figures.

(** The ways the function can end with an exception: one of the exceptions
    above, or the [UnboundLocalError] of reading a local name that has not
    been assigned yet. *)
Inductive fig_exn :=
  | Raised (e : exn)
  | UnboundLocalError (name : string).

(** What the function does to the outside, in order: the lines it prints,
    the directories it makes and the files it saves. *)
Inductive event :=
  | Print (line : string)
  | Makedirs (dir : string)
  | Savefig (path : string).

(** The part of the table the function reads: the column names and, for
    every row, the string of its [date] column and its numeric cells (a cell
    the row has no entry for is NaN).  The dates are read only when the
    table has a [date] column. *)
Record table := {
  fig_columns : list string;
  fig_rows : list (string * gmap string Z)
}.

(** [np.unique] on strings: the distinct values in ascending order. *)
Fixpoint insert_unique_str (x : string) (l : list string) : list string :=
  match l with
  | [] => [x]
  | y :: l' =>
      match String.compare x y with
      | Lt => x :: y :: l'
      | Eq => y :: l'
      | Gt => y :: insert_unique_str x l'
      end
  end.

Definition np_unique_str (l : list string) : list string :=
  foldr insert_unique_str [] l.

(** [metric.replace("/", "_")] *)
Fixpoint replace_slash (s : string) : string :=
  match s with
  | EmptyString => EmptyString
  | String c s' =>
      String (if Ascii.eqb c "/"%char then "_"%char else c) (replace_slash s')
  end.

(** The local name [date_str] (unbound until a figure has been drawn),
    whether [output_dir] exists, and the events so far. *)
Record state := {
  date_str : option string;
  dir_exists : bool;
  log : list event
}.

Section figures.

(** [pd.to_datetime(str(date))] raises a [ValueError] on a string it cannot
    read as a date: [parses] tells the strings it can read, and [strftime]
    gives [pd.to_datetime(str(date)).strftime('%Y-%m-%d')] for those.  The
    calls of matplotlib on a figure and those of [os] on [output_dir] are
    taken to succeed. *)
Variable parses : string → bool.
Variable strftime : string → string.

(** [data_df[data_df['date'] == date][metric].isnull().values.any()] *)
Definition has_null (df : table) (metric date : string) : bool :=
  existsb (λ r, bool_decide (r.2 !! metric = None))
          (filter (λ r, r.1 = date) (fig_rows df)).

Definition problem_line (date_str : string) : string :=
  "Problem with date " +:+ date_str +:+ " nan entries found.".

(** [os.path.join(output_dir, metric_output_name + '_network_2D_grid_' +
    date_str + '.png')] *)
Definition filepath (output_dir metric date_str : string) : string :=
  path_join output_dir
    (replace_slash metric +:+ "_network_2D_grid_" +:+ date_str +:+ ".png").

(** The body of the loop over the dates (lines 310 to 344). *)
Definition figure_body (df : table) (metric output_dir date : string)
  (st : state) : fig_exn + state :=
  if has_null df metric date then
    match date_str st with
    | None => inl (UnboundLocalError "date_str")
    | Some s =>
        inr {| date_str := date_str st;
               dir_exists := dir_exists st;
               log := log st ++ [Print (problem_line s)] |}
    end
  else if parses date then
    let s := strftime date in
    let made := if dir_exists st then [] else [Makedirs output_dir] in
    inr {| date_str := Some s;
           dir_exists := true;
           log := log st ++ made ++ [Savefig (filepath output_dir metric s)] |}
  else inl (Raised ValueError).

(** The loop: the events up to its end or up to the exception that ends
    it. *)
Fixpoint figure_loop (df : table) (metric output_dir : string)
  (dates : list string) (st : state) : list event * option fig_exn :=
  match dates with
  | [] => (log st, None)
  | date :: dates' =>
      match figure_body df metric output_dir date st with
      | inl e => (log st, Some e)
      | inr st' => figure_loop df metric output_dir dates' st'
      end
  end.

(** The function, started where [output_dir] exists or not: the events it
    performs and the exception it ends with, if any.  [max] raises
    [ValueError] on a column without rows. *)
Definition create_lat_long_metric_figures (df : table)
  (metric output_dir : string) (output_dir_exists : bool)
  : list event * option fig_exn :=
  if bool_decide ("date" ∈ fig_columns df ∧ metric ∈ fig_columns df) then
    match fig_rows df with
    | [] => ([], Some (Raised ValueError))
    | _ :: _ =>
        figure_loop df metric output_dir (np_unique_str (fig_rows df).*1)
          {| date_str := None; dir_exists := output_dir_exists; log := [] |}
    end
  else
    ([], Some (Raised
                 (RuntimeError "Expected variables not present in input dataframe"))).

(** The dates of which a figure is drawn: those without a null entry of the
    metric, in ascending order. *)
Definition drawn_dates (df : table) (metric : string) : list string :=
  filter (λ d, has_null df metric d = false) (np_unique_str (fig_rows df).*1).

Definition saved_paths (evs : list event) : list string :=
  omap (λ e, match e with Savefig p => Some p | _ => None end) evs.

Definition made_dirs (evs : list event) : list string :=
  omap (λ e, match e with Makedirs d => Some d | _ => None end) evs.

Definition printed_lines (evs : list event) : list string :=
  omap (λ e, match e with Print l => Some l | _ => None end) evs.

End figures.

(** Three rows on two dates; the row of the earlier date has no value of
    the metric. *)
Definition null_first : table :=
  {| fig_columns := ["date"; "offset50"];
     fig_rows := [("2020-02-01", {["offset50" := 1]});
                  ("2020-01-01", ∅);
                  ("2020-02-01", {["offset50" := 3]})] |}.

(** The same dates, the row of the later date having no value. *)
Definition null_last : table :=
  {| fig_columns := ["date"; "offset50"];
     fig_rows := [("2020-02-01", ∅);
                  ("2020-01-01", {["offset50" := 1]})] |}.

End Figures.

(** ** The spatial step of [main]: [coarse_dataframe(convert_to_geopandas(df), 2)] *)

Module Spatial.
Section spatial.
Context {Geometry : Type}.
Variable distance : Geometry → Geometry → Z.

(** The rows of a GeoDataFrame as [coarse_dataframe] reads them. *)
Variable geo_rows : DataFrame → list (@Coarse.row Geometry).

(** [coarse_dataframe(data_df, side_square)] on the value of an expression:
    the first statement, [data_df['category'] = -1], raises [TypeError] on
    [None]. *)
Definition coarse_dataframe_of (data_df : option DataFrame) (side_square : nat)
  : result (list Coarse.block) :=
  match data_df with
  | None => raise TypeError
  | Some t => Coarse.coarse_dataframe distance (geo_rows t) side_square
  end.

(** [data_df_geo = convert_to_geopandas(df)] followed by
    [coarse_dataframe(data_df_geo, side_square)], as in the spatial branch of
    [main] (lines 87 and 88 of [scripts/analyse_gee_data.py]) and in
    [test_coarse_dataframe]. *)
Definition spatial_step (df : DataFrame) (side_square : nat)
  : result (list Coarse.block) :=
  out ← Geo.convert_to_geopandas df;
  coarse_dataframe_of out.2 side_square.

End spatial.
End Spatial.

(** *** Vocabulary for the returned table *)

Module ReturnedSpec.
Import Ingest IngestSpec.

(** The rows of the returned table that carry the triple [k] on their
    vegetation side. *)
Definition rows_of_triple (k : value * value * value)
  (out : list (merged_row * value)) : list (merged_row * value) :=
  filter (λ mg, from_veg mg.1 ≫= row_key = Some k) out.

(** The returned table as the specification words it: the triple of every
    vegetation record is carried by exactly one row. *)
Definition one_row_per_triple (fs : gmap string summary) (filename : string)
  (data : summary) : Prop :=
  ∀ out,
    read_json_to_dataframe fs filename = inr out →
    ∀ rec, rec ∈ veg_records data →
      length (rows_of_triple (sp_key rec.2) out) = 1%nat.

End ReturnedSpec.

(** One vegetation record on ["2020-03-01"], and a weather collection with
    a metric named [date]: its two time points both end up with
    ["2020-03-01"] in the [date] column of the weather table. *)
Definition dup_date : Ingest.summary :=
  [("COPERNICUS/S2",
    Ingest.Vegetation
      [("2020-03-01", Some [("0", Ingest.SpacePoint "2020-03-01" 0 0 1)])]);
   ("ECMWF/ERA5/MONTHLY",
    Ingest.Weather "weather"
      [("2020-01-01", Some [("date", Str "2020-03-01")]);
       ("2020-02-01", Some [("date", Str "2020-03-01")])])].

(** * Properties *)

Import Coarse.

(** ** The error monad *)

Lemma for_each_app {A S} (body : A → S → result S) (l1 l2 : list A) (st : S) :
  for_each body (l1 ++ l2) st = (st' ← for_each body l1 st; for_each body l2 st').
Proof.
  revert st. induction l1 as [|x l1 IH]; intros st; simpl; [done|].
  destruct (body x st) as [e|st']; simpl; [done|]. apply IH.
Qed.

(** ** Coarsening *)

Section coarse_facts.
Context {Geometry : Type}.
Variable distance : Geometry → Geometry → Z.
Hypothesis distance_self : ∀ p, distance p p = 0.
Hypothesis distance_nonneg : ∀ p q, 0 ≤ distance p q.

Notation row := (@row Geometry).

Lemma elem_of_insert_sorted (x y : entry) (l : list entry) :
  y ∈ insert_sorted x l ↔ y = x ∨ y ∈ l.
Proof.
  induction l as [|z l IH]; simpl.
  - set_solver.
  - case_bool_decide; [set_solver|]. rewrite elem_of_cons, IH. set_solver.
Qed.

Lemma elem_of_sort_by_distance (y : entry) (l : list entry) :
  y ∈ sort_by_distance l ↔ y ∈ l.
Proof.
  induction l as [|x l IH]; simpl; [done|].
  rewrite elem_of_insert_sorted, IH. set_solver.
Qed.

Lemma elem_of_insert_unique (x y : Z) (l : list Z) :
  y ∈ insert_unique x l ↔ y = x ∨ y ∈ l.
Proof.
  induction l as [|z l IH]; simpl.
  - set_solver.
  - repeat case_bool_decide; [set_solver|set_solver|].
    rewrite elem_of_cons, IH. set_solver.
Qed.

Lemma elem_of_np_unique (y : Z) (l : list Z) : y ∈ np_unique l ↔ y ∈ l.
Proof.
  induction l as [|x l IH]; simpl; [done|].
  rewrite elem_of_insert_unique, IH. set_solver.
Qed.

Lemma np_unique_nil (l : list Z) : np_unique l = [] → l = [].
Proof.
  destruct l as [|x l]; [done|]. intros H.
  assert (x ∈ np_unique (x :: l)) as Hx by (apply elem_of_np_unique; set_solver).
  rewrite H in Hx. by apply elem_of_nil in Hx.
Qed.

Lemma foldl_max_elem (x : Z) (l : list Z) : foldl Z.max x l ∈ x :: l.
Proof.
  revert x. induction l as [|y l IH]; intros x; simpl; [set_solver|].
  specialize (IH (Z.max x y)). apply elem_of_cons in IH as [IH|IH].
  - rewrite IH. destruct (Z.max_spec x y) as [[_ H]|[_ H]]; rewrite H.
    + apply list_elem_of_further, list_elem_of_here.
    + apply list_elem_of_here.
  - by do 2 apply list_elem_of_further.
Qed.

Lemma np_max_elem (l : list Z) (m : Z) : np_max l = inr m → m ∈ l.
Proof.
  destruct l as [|x l]; simpl; [done|]. intros [= <-]. apply foldl_max_elem.
Qed.

Lemma np_max_is_inr (l : list Z) : l ≠ [] → ∃ m, np_max l = inr m.
Proof. destruct l; [done|]. simpl. eauto. Qed.

Lemma elem_of_distances_from (df : list row) (gn : Geometry) (cn : cell) (e : entry) :
  e ∈ distances_from distance df gn cn ↔
  ∃ i r, df !! i = Some r ∧ e = (i, distance (geometry r) gn, cn).
Proof.
  unfold distances_from. rewrite elem_of_lookup_imap. naive_solver.
Qed.

Lemma filter_all {A} (P : A → Prop) `{!∀ x, Decision (P x)} (l : list A) :
  Forall P l → filter P l = l.
Proof.
  induction 1 as [|x l Hx _ IH]; [done|]. by rewrite filter_cons_True, IH.
Qed.

Lemma keep_unassigned_id (df : list row) (gn : Geometry) :
  keep_unassigned (sort_by_distance (distances_from distance df gn Unassigned))
  = sort_by_distance (distances_from distance df gn Unassigned).
Proof.
  apply filter_all, Forall_forall. intros e He.
  apply elem_of_sort_by_distance, elem_of_distances_from in He.
  destruct He as (i & r & _ & ->). done.
Qed.

(** The list [distances] of an unassigned row holds every row of the table. *)
Lemma candidates_unassigned (df : list row) (n : nat) (rn : row) :
  df !! n = Some rn → category rn = Unassigned →
  ∃ l, candidates distance df n = inr l ∧
       ∀ e, e ∈ l ↔ ∃ i r, df !! i = Some r ∧
                           e = (i, distance (geometry r) (geometry rn), Unassigned).
Proof.
  intros Hn Hc. unfold candidates. rewrite Hn, Hc, keep_unassigned_id.
  eexists; split; [done|]. intros e.
  by rewrite elem_of_sort_by_distance, elem_of_distances_from.
Qed.

Lemma max_distance_is_inr (l : list entry) (b : nat) :
  l ≠ [] → (1 ≤ b)%nat → ∃ m, max_distance l b = inr m.
Proof.
  intros Hl Hb. apply np_max_is_inr. intros H.
  assert (np_unique ((λ d : entry, d.1.2) <$> l) = []) as Hu.
  { revert H. destruct (np_unique _); [done|].
    destruct b as [|b]; [lia|]. simpl. intros [=]. }
  apply np_unique_nil, fmap_nil_inv in Hu. done.
Qed.

Lemma max_distance_elem (l : list entry) (b : nat) (m : Z) :
  max_distance l b = inr m → ∃ e, e ∈ l ∧ e.1.2 = m.
Proof.
  intros H. apply np_max_elem in H.
  apply elem_of_take in H as (i & H & _).
  apply list_elem_of_lookup_2, elem_of_np_unique, list_elem_of_fmap in H.
  destruct H as (e & -> & He). eauto.
Qed.

Lemma elem_of_within (l : list entry) (m : Z) (i : nat) :
  i ∈ within l m ↔ ∃ e, e ∈ l ∧ e.1.1 = i ∧ e.1.2 ≤ m.
Proof.
  unfold within. rewrite list_elem_of_fmap. setoid_rewrite list_elem_of_filter.
  naive_solver.
Qed.

Lemma length_loc_set_category (idx : list nat) (c : cell) (df : list row) :
  length (loc_set_category idx c df) = length df.
Proof.
  revert df. induction idx as [|i idx IH]; intros df; simpl; [done|].
  unfold loc_set_category in *. simpl. by rewrite IH, length_alter.
Qed.

Lemma lookup_loc_set_category (idx : list nat) (c : cell) (df : list row) (i : nat) :
  loc_set_category idx c df !! i =
  if decide (i ∈ idx) then set_category c <$> df !! i else df !! i.
Proof.
  revert df. induction idx as [|j idx IH]; intros df.
  - rewrite decide_False by apply not_elem_of_nil. done.
  - unfold loc_set_category in *. cbn [foldl]. rewrite IH.
    destruct (decide (i = j)) as [->|Hne].
    + rewrite list_lookup_alter_eq.
      rewrite (decide_True (P := j ∈ j :: idx)) by apply list_elem_of_here.
      case_decide; [|done]. by destruct (df !! j).
    + rewrite list_lookup_alter_ne by done.
      destruct (decide (i ∈ idx)) as [Hi|Hi].
      * by rewrite decide_True by (by apply list_elem_of_further).
      * by rewrite decide_False by (by intros [?|?]%elem_of_cons).
Qed.

(** One iteration of the loop, when the radius can be computed: the table
    keeps its length, dates and geometries, labelled rows stay labelled and
    row [n] is labelled afterwards. *)
Lemma loop_body_step (b n : nat) (df : list row) (k : nat) :
  (1 ≤ b)%nat → (n < length df)%nat →
  ∃ df' k', loop_body distance b n (df, k) = inr (df', k') ∧
    length df' = length df ∧
    (∀ i r, df !! i = Some r →
       ∃ r', df' !! i = Some r' ∧ date r' = date r ∧ geometry r' = geometry r ∧
             (has_label r = true → has_label r' = true)) ∧
    (∃ rn, df' !! n = Some rn ∧ has_label rn = true).
Proof.
  intros Hb Hn. destruct (lookup_lt_is_Some_2 _ _ Hn) as [rn Hrn].
  unfold loop_body. rewrite Hrn. case_bool_decide as Hc.
  - destruct (candidates_unassigned df n rn Hrn Hc) as (l & -> & Hl). simpl.
    assert ((n, 0, Unassigned) ∈ l) as Hin.
    { apply Hl. exists n, rn. by rewrite distance_self. }
    destruct (max_distance_is_inr l b) as [m Hm]; [|done|].
    { intros ->. by apply elem_of_nil in Hin. }
    rewrite Hm. simpl. eexists _, _. split; [done|].
    assert (0 ≤ m) as Hpos.
    { apply max_distance_elem in Hm as (e & He & <-).
      apply Hl in He as (i & r & _ & ->). apply distance_nonneg. }
    split; [apply length_loc_set_category|]. split.
    + intros i r Hi. rewrite lookup_loc_set_category, Hi.
      case_decide; simpl; eauto 10.
    + rewrite lookup_loc_set_category, Hrn.
      rewrite decide_True; [simpl; eauto|].
      apply elem_of_within. exists (n, 0, Unassigned). simpl. auto.
  - simpl. eexists _, _. split; [done|]. split; [done|]. split; [eauto 10|].
    exists rn. split; [done|]. unfold has_label. by destruct (category rn).
Qed.

(** The loop over the first [n] rows of any table. *)
Lemma loop_prefix (b : nat) (df0 : list row) (n : nat) :
  (1 ≤ b)%nat → (n ≤ length df0)%nat →
  ∃ df k, for_each (loop_body distance b) (seq 0 n) (df0, 0%nat) = inr (df, k) ∧
    length df = length df0 ∧
    (∀ i r0, df0 !! i = Some r0 →
       ∃ r, df !! i = Some r ∧ date r = date r0 ∧ geometry r = geometry r0) ∧
    (∀ i r, (i < n)%nat → df !! i = Some r → has_label r = true).
Proof.
  intros Hb. induction n as [|n IH]; intros Hn.
  - simpl. eexists _, _. split; [done|]. split; [done|]. split; [eauto|]. lia.
  - destruct IH as (df & k & Hrun & Hlen & Hsame & Hlab); [lia|].
    rewrite seq_S, for_each_app, Hrun. change (0 + n)%nat with n.
    destruct (loop_body_step b n df k Hb) as (df' & k' & Hbody & Hlen' & Hstep & Hnew);
      [lia|].
    cbn [mbind result_bind for_each]. rewrite Hbody.
    simpl. eexists _, _. split; [done|]. split; [congruence|]. split.
    + intros i r0 Hi. destruct (Hsame i r0 Hi) as (r & Hr & Hd & Hg).
      destruct (Hstep i r Hr) as (r' & Hr' & Hd' & Hg' & _).
      exists r'. split; [done|]. split; congruence.
    + intros i r' Hi Hr'. destruct (decide (i = n)) as [->|Hne].
      * destruct Hnew as (rn & Hrn & ?). congruence.
      * assert (is_Some (df !! i)) as [r Hr].
        { apply lookup_lt_is_Some. apply lookup_lt_Some in Hr'. lia. }
        destruct (Hstep i r Hr) as (r'' & Hr'' & _ & _ & Hkeep).
        assert (r'' = r') as -> by congruence.
        apply Hkeep, (Hlab i); [lia|done].
Qed.

Lemma assign_categories_labels (data_df : list row) (b : nat) :
  (1 ≤ b)%nat →
  ∃ df, assign_categories distance data_df b = inr df ∧
    length df = length data_df ∧
    ∀ i r0, data_df !! i = Some r0 →
      ∃ r s, df !! i = Some r ∧ date r = date r0 ∧ geometry r = geometry r0 ∧
             category r = Label s.
Proof.
  intros Hb. unfold assign_categories.
  destruct (loop_prefix b (init_categories data_df)
              (length (init_categories data_df)) Hb)
    as (df & k & -> & Hlen & Hsame & Hlab); [done|].
  simpl. exists df. split; [done|].
  unfold init_categories in *. rewrite length_fmap in Hlen. split; [done|].
  intros i r0 Hi.
  destruct (Hsame i (set_category Unassigned r0)) as (r & Hr & Hd & Hg).
  { by rewrite list_lookup_fmap, Hi. }
  specialize (Hlab i r). rewrite length_fmap in Hlab.
  assert (has_label r = true) as Hl.
  { apply Hlab; [|done]. by apply lookup_lt_Some in Hi. }
  unfold has_label in Hl. destruct (category r) as [|s] eqn:Hc; [done|].
  exists r, s. done.
Qed.

(** Grouping by key. *)
Lemma dissolve_snoc (df : list row) (r : row) :
  dissolve (df ++ [r]) = add_member (category r, date r) (length df) (dissolve df).
Proof.
  unfold dissolve. rewrite imap_app, foldl_app. simpl. by rewrite Nat.add_0_r.
Qed.

Lemma add_member_members (k : cell * string) (i : nat) (bs : list (@block)) :
  concat (members <$> add_member k i bs) ≡ₚ concat (members <$> bs) ++ [i].
Proof.
  induction bs as [|b bs IH]; simpl; [done|].
  case_bool_decide; simpl.
  - rewrite <- !(assoc_L (++)). apply Permutation_app_head, Permutation_app_comm.
  - by rewrite IH, (assoc_L (++)).
Qed.

Lemma add_member_keys (k : cell * string) (i : nat) (bs : list (@block)) :
  block_key <$> add_member k i bs =
  if decide (k ∈ block_key <$> bs) then block_key <$> bs
  else (block_key <$> bs) ++ [k].
Proof.
  induction bs as [|b bs IH]; cbn [add_member].
  - rewrite decide_False by apply not_elem_of_nil. by destruct k.
  - case_bool_decide as Hk; rewrite !fmap_cons.
    + rewrite decide_True by (rewrite <- Hk; apply list_elem_of_here). done.
    + rewrite IH. destruct (decide (k ∈ block_key <$> bs)) as [Hin|Hin].
      * by rewrite decide_True by (by apply list_elem_of_further).
      * rewrite decide_False; [done|]. intros [?|?]%elem_of_cons; congruence.
Qed.

Lemma add_member_owner (k : cell * string) (i : nat) (bs : list (@block)) (b : @block) (j : nat) :
  b ∈ add_member k i bs → j ∈ members b →
  (block_key b = k ∧ j = i) ∨ ∃ b0, b0 ∈ bs ∧ block_key b0 = block_key b ∧ j ∈ members b0.
Proof.
  induction bs as [|b0 bs IH]; simpl.
  - intros ->%list_elem_of_singleton. simpl. intros ->%list_elem_of_singleton.
    left. by destruct k.
  - case_bool_decide as Hk.
    + intros [->|Hb]%elem_of_cons; simpl.
      * intros [Hj| ->%list_elem_of_singleton]%elem_of_app; [|by left].
        right. exists b0. split; [apply list_elem_of_here|done].
      * intros Hj. right. exists b. split; [by apply list_elem_of_further|done].
    + intros [->|Hb]%elem_of_cons Hj.
      * right. exists b0. split; [apply list_elem_of_here|done].
      * destruct (IH Hb Hj) as [?|(b1 & ? & ? & ?)]; [by left|].
        right. exists b1. split; [by apply list_elem_of_further|done].
Qed.

Lemma dissolve_partition (df : list row) :
  NoDup (block_key <$> dissolve df) ∧
  concat (members <$> dissolve df) ≡ₚ seq 0 (length df) ∧
  ∀ b j, b ∈ dissolve df → j ∈ members b →
    ∃ r, df !! j = Some r ∧ block_key b = (category r, date r).
Proof.
  induction df as [|r df (IH1 & IH2 & IH3)] using rev_ind.
  - split; [constructor|]. split; [done|]. intros b j Hb. by apply elem_of_nil in Hb.
  - rewrite dissolve_snoc. split; [|split].
    + rewrite add_member_keys. case_decide as Hin; [done|].
      apply NoDup_app. split; [done|]. split; [|apply NoDup_singleton].
      intros x Hx ->%list_elem_of_singleton. done.
    + rewrite add_member_members, IH2, length_app. simpl.
      by rewrite Nat.add_1_r, seq_S.
    + intros b j Hb Hj.
      destruct (add_member_owner _ _ _ _ _ Hb Hj) as [[Hk ->]|(b0 & Hb0 & Hk & Hj0)].
      * exists r. split; [|done]. by rewrite lookup_app_r, Nat.sub_diag.
      * destruct (IH3 b0 j Hb0 Hj0) as (r0 & Hr0 & Hk0). exists r0.
        split; [|congruence]. by apply lookup_app_l_Some.
Qed.

Lemma length_concat_members (bs : list (@block)) :
  length (concat (members <$> bs)) = sum_list_with (length ∘ members) bs.
Proof.
  induction bs as [|b bs IH]; simpl; [done|]. rewrite length_app. f_equal. exact IH.
Qed.

Lemma str_cat_date_labelled (df : list row) :
  df ≠ [] → (∀ r, r ∈ df → has_label r = true) →
  str_cat_date df = inr (cat_date <$> df).
Proof.
  intros Hne Hall. unfold str_cat_date.
  assert (forallb has_label df = true) as ->.
  { apply forallb_forall. intros r Hr. by apply Hall, list_elem_of_In. }
  assert (existsb has_label df = true) as ->; [|done].
  destruct df as [|r df]; [done|]. simpl.
  rewrite (Hall r) by apply list_elem_of_here. done.
Qed.

(** C1: for every table and every [side_square >= 1] the loop of
    [coarse_dataframe] ends with every row holding a category label (each row
    has one category cell, none is left at [-1]); the blocks of the dissolved
    table have distinct keys, every row position occurs in exactly one of
    them, and their member counts add up to the number of input rows.  On a
    table with at least one row these blocks are what [coarse_dataframe]
    returns. *)
Theorem coarse_dataframe_partition (data_df : list row) (side_square : nat) :
  (1 ≤ side_square)%nat →
  ∃ df, assign_categories distance data_df side_square = inr df ∧
    length df = length data_df ∧
    (∀ i, (i < length data_df)%nat →
       ∃ r s, df !! i = Some r ∧ category r = Label s) ∧
    let blocks := dissolve (cat_date <$> df) in
    (data_df ≠ [] →
       coarse_dataframe distance data_df side_square = inr blocks) ∧
    NoDup (block_key <$> blocks) ∧
    concat (members <$> blocks) ≡ₚ seq 0 (length data_df) ∧
    sum_list_with (length ∘ members) blocks = length data_df.
Proof.
  intros Hb.
  destruct (assign_categories_labels data_df side_square Hb) as (df & Hrun & Hlen & Hlab).
  exists df. split; [done|]. split; [done|].
  assert (∀ i, (i < length data_df)%nat →
            ∃ r s, df !! i = Some r ∧ category r = Label s) as Hall.
  { intros i Hi. destruct (lookup_lt_is_Some_2 _ _ Hi) as [r0 Hr0].
    destruct (Hlab i r0 Hr0) as (r & s & ? & _ & _ & ?). eauto. }
  split; [done|]. simpl.
  destruct (dissolve_partition (cat_date <$> df)) as (Hnd & Hperm & _).
  rewrite length_fmap, Hlen in Hperm.
  split; [|split; [done|split; [done|]]].
  - intros Hne. unfold coarse_dataframe. rewrite Hrun. simpl.
    rewrite str_cat_date_labelled; [done| |].
    + intros ->. destruct data_df; done.
    + intros r [i Hr]%list_elem_of_lookup.
      destruct (Hall i) as (r' & s & Hr' & Hc).
      { rewrite <- Hlen. by apply lookup_lt_Some in Hr. }
      assert (r' = r) as -> by congruence. unfold has_label. by rewrite Hc.
  - rewrite <- length_concat_members, Hperm. apply length_seq.
Qed.

(** C10: whenever the loop of [coarse_dataframe] reaches a row [n] that is
    still unassigned, the filtered list [distances] contains the entry of row
    [n] itself, at distance 0, so it is not empty; with [side_square >= 1]
    the maximum over the first [2 * side_square] distinct distances is then
    defined, and the loop as a whole raises nothing.  With [side_square = 0]
    and at least one row the slice is empty and [np.max] raises
    [ValueError]. *)
Theorem max_distance_defined (data_df : list row) (side_square : nat) :
  data_df ≠ [] →
  ((1 ≤ side_square)%nat →
     (∀ df n rn, df !! n = Some rn → category rn = Unassigned →
        ∃ l m, candidates distance df n = inr l ∧
               (n, 0, Unassigned) ∈ l ∧ l ≠ [] ∧
               max_distance l side_square = inr m) ∧
     ∃ df, assign_categories distance data_df side_square = inr df) ∧
  (side_square = 0%nat →
     assign_categories distance data_df side_square = inl ValueError ∧
     coarse_dataframe distance data_df side_square = inl ValueError).
Proof.
  intros Hne. split.
  - intros Hb. split.
    + intros df n rn Hn Hc.
      destruct (candidates_unassigned df n rn Hn Hc) as (l & Hl & Hin).
      assert ((n, 0, Unassigned) ∈ l) as Hself.
      { apply Hin. exists n, rn. by rewrite distance_self. }
      assert (l ≠ []) as Hnil.
      { intros ->. by apply elem_of_nil in Hself. }
      destruct (max_distance_is_inr l side_square Hnil Hb) as [m Hm].
      exists l, m. done.
    + destruct (assign_categories_labels data_df side_square Hb) as (df & ? & _).
      eauto.
  - intros ->. destruct data_df as [|r0 rest]; [done|].
    assert (assign_categories distance (r0 :: rest) 0 = inl ValueError) as H.
    { unfold assign_categories. simpl.
      unfold candidates. simpl. done. }
    split; [done|]. unfold coarse_dataframe. by rewrite H.
Qed.

End coarse_facts.

Lemma line_distance_self (p : Z) : line_distance p p = 0.
Proof. unfold line_distance. lia. Qed.

Lemma line_distance_nonneg (p q : Z) : 0 ≤ line_distance p q.
Proof. unfold line_distance. lia. Qed.

Lemma coarse_dataframe_partition_witness :
  ∃ df, assign_categories line_distance three_points 1 = inr df ∧
    length df = length three_points ∧
    (∀ i, (i < length three_points)%nat →
       ∃ r s, df !! i = Some r ∧ category r = Label s) ∧
    let blocks := dissolve (cat_date <$> df) in
    (three_points ≠ [] →
       coarse_dataframe line_distance three_points 1 = inr blocks) ∧
    NoDup (block_key <$> blocks) ∧
    concat (members <$> blocks) ≡ₚ seq 0 (length three_points) ∧
    sum_list_with (length ∘ members) blocks = length three_points.
Proof.
  apply (coarse_dataframe_partition line_distance line_distance_self
           line_distance_nonneg three_points 1).
  lia.
Defined.

Lemma max_distance_defined_witness :
  ((1 ≤ 1)%nat →
     (∀ df n rn, df !! n = Some rn → category rn = Unassigned →
        ∃ l m, candidates line_distance df n = inr l ∧
               (n, 0, Unassigned) ∈ l ∧ l ≠ [] ∧
               max_distance l 1 = inr m) ∧
     ∃ df, assign_categories line_distance three_points 1 = inr df) ∧
  (1%nat = 0%nat →
     assign_categories line_distance three_points 1 = inl ValueError ∧
     coarse_dataframe line_distance three_points 1 = inl ValueError).
Proof.
  apply (max_distance_defined line_distance line_distance_self
           line_distance_nonneg three_points 1).
  discriminate.
Defined.

(** C3: on the points [x = 0, 1, 2] with [side_square = 1] the loop first
    labels rows 0 and 1 with ["0"]; at row 2 the list [distances] still holds
    the assigned rows, so row 1 (at distance 1) is relabelled ["1"].  With
    assigned rows discarded, as the comment in the source and the
    specification say, row 1 keeps ["0"] and only row 2 is labelled ["1"]. *)
Theorem coarse_relabels_assigned_row :
  (fmap category <$> assign_categories line_distance three_points 1)
    = inr [Label "0"; Label "1"; Label "1"] ∧
  (fmap category <$> assign_categories_spec line_distance three_points 1)
    = inr [Label "0"; Label "0"; Label "1"].
Proof. split; vm_compute; reflexivity. Qed.

(** ** Fixed-schema ingestion *)

Import Ingest IngestSpec.

Lemma for_each_ext {A S} (f g : A → S → result S) (xs : list A) (st : S) :
  (∀ x st, f x st = g x st) → for_each f xs st = for_each g xs st.
Proof.
  intros Hfg. revert st. induction xs as [|x xs IH]; intros st; simpl; [done|].
  rewrite Hfg. destruct (g x st); simpl; auto.
Qed.

Lemma for_each_fmap {A B S} (g : B → S → result S) (f : A → B) (xs : list A) (st : S) :
  for_each g (f <$> xs) st = for_each (λ x, g (f x)) xs st.
Proof.
  revert st. induction xs as [|x xs IH]; intros st; simpl; [done|].
  destruct (g (f x) st); simpl; auto.
Qed.

Lemma for_each_bind {A B S} (g : B → S → result S) (f : A → list B)
  (xs : list A) (st : S) :
  for_each g (xs ≫= f) st = for_each (λ x st, for_each g (f x) st) xs st.
Proof.
  revert st. induction xs as [|x xs IH]; intros st; simpl; [done|].
  rewrite for_each_app. destruct (for_each g (f x) st); simpl; auto.
Qed.

Lemma for_each_inl {A S} (body : A → S → result S) (xs : list A) (st : S) (e : exn) :
  for_each body xs st = inl e ↔
  ∃ l1 x l2 st', xs = l1 ++ x :: l2 ∧ for_each body l1 st = inr st' ∧
                 body x st' = inl e.
Proof.
  revert st. induction xs as [|x xs IH]; intros st; simpl.
  - split; [done|]. intros (l1 & y & l2 & st' & Hnil & _). by destruct l1.
  - destruct (body x st) as [e'|st1] eqn:Hx; simpl.
    + split.
      * intros [= ->]. by exists [], x, xs, st.
      * intros (l1 & y & l2 & st' & Hl & Hrun & Hy).
        destruct l1 as [|z l1]; simpl in Hl, Hrun.
        -- injection Hl as <- <-. injection Hrun as <-. congruence.
        -- injection Hl as <- ->. rewrite Hx in Hrun. done.
    + rewrite IH. split.
      * intros (l1 & y & l2 & st' & -> & Hrun & Hy).
        exists (x :: l1), y, l2, st'. simpl. by rewrite Hx.
      * intros (l1 & y & l2 & st' & Hl & Hrun & Hy).
        destruct l1 as [|z l1]; simpl in Hl, Hrun.
        -- injection Hl as <- <-. injection Hrun as <-. congruence.
        -- injection Hl as <- ->. rewrite Hx in Hrun. simpl in Hrun. eauto 10.
Qed.

(** Column names. *)
Lemma length_append (a b : string) :
  String.length (a +:+ b) = (String.length a + String.length b)%nat.
Proof. induction a as [|c a IH]; simpl; [done|]. by rewrite IH. Qed.

Lemma append_inj_l (a b s : string) : a +:+ s = b +:+ s → a = b.
Proof.
  revert b. induction a as [|c a IH]; intros b H.
  - destruct b as [|c' b]; [done|]. apply (f_equal String.length) in H.
    rewrite !length_append in H. simpl in H. lia.
  - destruct b as [|c' b].
    + apply (f_equal String.length) in H.
      rewrite !length_append in H. simpl in H. lia.
    + change (String c (a +:+ s) = String c' (b +:+ s)) in H.
      injection H as -> H. f_equal. by apply IH.
Qed.

Lemma metric_column_inj (a b : string) : metric_column a = metric_column b → a = b.
Proof. apply append_inj_l. Qed.

Lemma metric_column_not_key (name : string) :
  metric_column name ≠ "date" ∧ metric_column name ≠ "lat" ∧
  metric_column name ≠ "long".
Proof.
  unfold metric_column.
  repeat split; intros H; apply (f_equal String.length) in H;
    rewrite length_append in H; simpl in H; lia.
Qed.

Lemma row_key_insert_metric (name : string) (v : value) (r : gmap string value) :
  row_key (<[metric_column name := v]> r) = row_key r.
Proof.
  destruct (metric_column_not_key name) as (? & ? & ?).
  unfold row_key. by rewrite !lookup_insert_ne.
Qed.

Lemma match_criteria_key (d la lo : value) (r : gmap string value) :
  match_criteria d la lo r ↔ row_key r = Some (d, la, lo).
Proof.
  unfold match_criteria, row_key.
  destruct (r !! "date"), (r !! "lat"), (r !! "long"); simpl; naive_solver.
Qed.

(** Writing cells. *)
Lemma set_cell_fresh (l : nat) (c : string) (v : value) (rs : list (nat * gmap string value)) :
  l ∉ rs.*1 → set_cell l c v rs = rs ++ [(l, {[c := v]})].
Proof. intros H. unfold set_cell. by rewrite decide_False. Qed.

Lemma set_cell_present (l : nat) (c : string) (v : value) (rs : list (nat * gmap string value)) :
  l ∈ rs.*1 →
  set_cell l c v rs
  = (λ lr, if decide (lr.1 = l) then (lr.1, <[c := v]> lr.2) else lr) <$> rs.
Proof. intros H. unfold set_cell. by rewrite decide_True. Qed.

Lemma set_cell_last (l : nat) (c : string) (v : value)
  (rs : list (nat * gmap string value)) (r : gmap string value) :
  l ∉ rs.*1 → set_cell l c v (rs ++ [(l, r)]) = rs ++ [(l, <[c := v]> r)].
Proof.
  intros H. rewrite set_cell_present.
  - rewrite fmap_app. simpl. rewrite decide_True by done. f_equal.
    rewrite <- (list_fmap_id rs) at 2. apply list_fmap_ext.
    intros i [l' r'] Hi. simpl. rewrite decide_False; [done|].
    intros ->. apply H. apply list_elem_of_fmap. exists (l, r').
    split; [done|]. by eapply list_elem_of_lookup_2.
  - rewrite fmap_app. apply elem_of_app. right. simpl. apply list_elem_of_here.
Qed.

Lemma NoDup_fmap_filter {A B} (f : A → B) (P : A → Prop)
  `{!∀ x, Decision (P x)} (l : list A) :
  NoDup (f <$> l) → NoDup (f <$> filter P l).
Proof.
  induction l as [|x l IH]; [done|]. rewrite fmap_cons, NoDup_cons.
  intros [Hx Hl]. rewrite filter_cons. case_decide.
  - rewrite fmap_cons, NoDup_cons. split; [|by apply IH].
    intros (y & Hy & [_ Hin]%list_elem_of_filter)%list_elem_of_fmap.
    apply Hx, list_elem_of_fmap. eauto.
  - by apply IH.
Qed.

Lemma NoDup_fmap_eq {A B} (f : A → B) (l : list A) (x y : A) :
  NoDup (f <$> l) → x ∈ l → y ∈ l → f x = f y → x = y.
Proof.
  induction l as [|z l IH]; [by intros _ ?%elem_of_nil|].
  rewrite fmap_cons, NoDup_cons. intros [Hz Hl] Hx Hy Hf.
  apply elem_of_cons in Hx as [->|Hx]; apply elem_of_cons in Hy as [->|Hy]; auto.
  - destruct Hz. rewrite Hf. by apply list_elem_of_fmap_2.
  - destruct Hz. rewrite <- Hf. by apply list_elem_of_fmap_2.
Qed.

Lemma last_offset_snoc (name n : string) (sp : space_point)
  (k : option (value * value * value)) (recs : list (string * space_point)) :
  last_offset n k (recs ++ [(name, sp)]) =
  if decide (name = n ∧ Some (sp_key sp) = k) then Some (offset50 sp)
  else last_offset n k recs.
Proof.
  unfold last_offset. rewrite filter_app, filter_cons, filter_nil. simpl.
  case_decide.
  - by rewrite last_snoc.
  - by rewrite (right_id_L [] (++)).
Qed.

Lemma filter_none {A} (P : A → Prop) `{!∀ x, Decision (P x)} (l : list A) :
  (∀ x, x ∈ l → ¬ P x) → filter P l = [].
Proof.
  induction l as [|x l IH]; intros Hall; [done|].
  rewrite filter_cons_False by (apply Hall, list_elem_of_here).
  apply IH. intros y Hy. by apply Hall, list_elem_of_further.
Qed.

Lemma last_offset_absent (n : string) (k : value * value * value)
  (recs : list (string * space_point)) :
  (∀ rec, rec ∈ recs → sp_key rec.2 ≠ k) → last_offset n (Some k) recs = None.
Proof.
  intros H. unfold last_offset. rewrite filter_none; [done|].
  intros rec Hrec [_ [= Hk]]. by eapply H.
Qed.

Lemma new_row_key (name : string) (sp : space_point) :
  row_key (<[metric_column name := Num (offset50 sp)]>
             (<["long" := Num (longitude sp)]>
                (<["lat" := Num (latitude sp)]> {["date" := Str (sp_date sp)]})))
  = Some (sp_key sp).
Proof. rewrite row_key_insert_metric. unfold row_key, sp_key. by simplify_map_eq. Qed.

Lemma new_row_metric (name n : string) (sp : space_point) :
  (<[metric_column name := Num (offset50 sp)]>
     (<["long" := Num (longitude sp)]>
        (<["lat" := Num (latitude sp)]> ({["date" := Str (sp_date sp)]} : gmap string value))))
    !! metric_column n
  = if decide (name = n) then Some (Num (offset50 sp)) else None.
Proof.
  destruct (metric_column_not_key n) as (? & ? & ?).
  case_decide as Hn.
  - subst. by rewrite lookup_insert_eq.
  - rewrite lookup_insert_ne by (intros ?%metric_column_inj; done).
    rewrite !lookup_insert_ne by done. by rewrite lookup_singleton_ne.
Qed.

(** One record preserves the state invariant of the vegetation loop, and
    raises nothing. *)
Lemma add_space_point_inv (name : string) (sp : space_point)
  (recs : list (string * space_point)) (st : DataFrame * nat) :
  veg_inv recs st →
  ∃ st', add_space_point name sp st = inr st' ∧ veg_inv (recs ++ [(name, sp)]) st'.
Proof.
  destruct st as [df i]. intros (Hlab & Hnd & Hrows & Hrecs & Hcols). simpl in *.
  unfold add_space_point, matched_indices.
  destruct (filter _ (rows df)) as [|[idx r0] [|lr2 rest]] eqn:Hf; simpl.
  - (* a new triple *)
    assert (∀ lr, lr ∈ rows df → row_key lr.2 ≠ Some (sp_key sp)) as Hno.
    { intros lr Hlr Hk. eapply filter_nil_not_elem_of; [exact Hf| |exact Hlr].
      simpl. by apply match_criteria_key. }
    assert (i ∉ (rows df).*1) as Hi.
    { rewrite Hlab, elem_of_seq. lia. }
    eexists. split; [done|]. unfold veg_inv, loc_set. cbn [fst snd rows].
    change (name +:+ "_offset50") with (metric_column name).
    rewrite (set_cell_fresh i "date") by done.
    rewrite !set_cell_last by done.
    split; [|split; [|split; [|split]]].
    + rewrite fmap_app, Hlab, seq_S. done.
    + rewrite fmap_app. apply NoDup_app. split; [done|]. split; [|apply NoDup_singleton].
      intros k (lr & -> & Hlr)%list_elem_of_fmap ?%list_elem_of_singleton.
      simpl in *. rewrite new_row_key in *. by eapply Hno.
    + intros lr [Hlr| ->%list_elem_of_singleton]%elem_of_app.
      * destruct (Hrows lr Hlr) as (rec & ? & ?). exists rec.
        split; [|done]. apply elem_of_app. by left.
      * exists (name, sp). split; [|apply new_row_key].
        apply elem_of_app. right. apply list_elem_of_here.
    + intros rec [Hrec| ->%list_elem_of_singleton]%elem_of_app.
      * destruct (Hrecs rec Hrec) as (lr & ? & ?). exists lr.
        split; [|done]. apply elem_of_app. by left.
      * eexists (i, _). split; [|apply new_row_key].
        apply elem_of_app. right. apply list_elem_of_here.
    + intros lr n [Hlr| ->%list_elem_of_singleton]%elem_of_app.
      * rewrite last_offset_snoc, decide_False; [by apply Hcols|].
        intros [_ Hk]. by eapply Hno.
      * simpl. rewrite new_row_metric, new_row_key, last_offset_snoc.
        case_decide as Hn.
        -- by rewrite decide_True.
        -- rewrite decide_False by (intros [? _]; done).
           rewrite last_offset_absent; [done|].
           intros rec Hrec Hk. destruct (Hrecs rec Hrec) as (lr & Hlr & Hlk).
           eapply Hno; [exact Hlr|]. by rewrite Hlk, Hk.
  - (* the triple of an existing row *)
    assert ((idx, r0) ∈ rows df ∧ row_key r0 = Some (sp_key sp)) as [Hin Hk0].
    { assert ((idx, r0) ∈ filter (λ lr : nat * gmap string value,
         match_criteria (Str (sp_date sp)) (Num (latitude sp)) (Num (longitude sp)) lr.2)
         (rows df)) as Hx by (rewrite Hf; apply list_elem_of_here).
      apply list_elem_of_filter in Hx as [Hx ?]. split; [done|].
      by apply match_criteria_key in Hx. }
    assert (∀ lr, lr ∈ rows df → row_key lr.2 = Some (sp_key sp) → lr = (idx, r0)) as Huniq.
    { intros lr Hlr Hk.
      assert (lr ∈ filter (λ lr : nat * gmap string value,
         match_criteria (Str (sp_date sp)) (Num (latitude sp)) (Num (longitude sp)) lr.2)
         (rows df)) as Hx.
      { apply list_elem_of_filter. split; [|done]. by apply match_criteria_key. }
      rewrite Hf in Hx. by apply list_elem_of_singleton in Hx. }
    assert (∀ lr, lr ∈ rows df → lr.1 = idx → lr = (idx, r0)) as Hlabel.
    { intros lr Hlr Hl. apply (NoDup_fmap_eq fst (rows df)); [|done..].
      rewrite Hlab. apply NoDup_seq. }
    eexists. split; [done|]. unfold veg_inv, loc_set. cbn [fst snd rows].
    change (name +:+ "_offset50") with (metric_column name).
    rewrite set_cell_present by (apply list_elem_of_fmap; by exists (idx, r0)).
    set (g := λ lr : nat * gmap string value,
           if decide (lr.1 = idx)
           then (lr.1, <[metric_column name := Num (offset50 sp)]> lr.2) else lr).
    assert (∀ lr, row_key (g lr).2 = row_key lr.2) as Hgk.
    { intros lr. unfold g. case_decide; [apply row_key_insert_metric|done]. }
    split; [|split; [|split; [|split]]].
    + rewrite <- Hlab, <- list_fmap_compose. apply list_fmap_ext.
      intros j lr _. unfold g. simpl. by case_decide.
    + rewrite <- list_fmap_compose.
      erewrite list_fmap_ext; [exact Hnd|]. intros j lr _. apply Hgk.
    + intros lr' (lr & -> & Hlr)%list_elem_of_fmap. rewrite Hgk.
      destruct (Hrows lr Hlr) as (rec & ? & ?). exists rec.
      split; [|done]. apply elem_of_app. by left.
    + intros rec [Hrec| ->%list_elem_of_singleton]%elem_of_app.
      * destruct (Hrecs rec Hrec) as (lr & ? & ?). exists (g lr).
        split; [by apply list_elem_of_fmap_2|]. by rewrite Hgk.
      * exists (g (idx, r0)). split; [by apply list_elem_of_fmap_2|].
        by rewrite Hgk.
    + intros lr' n (lr & -> & Hlr)%list_elem_of_fmap. rewrite Hgk.
      rewrite last_offset_snoc. unfold g. case_decide as Hl.
      * rewrite (Hlabel lr Hlr Hl). simpl. rewrite Hk0.
        destruct (decide (name = n)) as [->|Hn].
        -- rewrite lookup_insert_eq. by rewrite decide_True.
        -- rewrite lookup_insert_ne by (intros ?%metric_column_inj; done).
           rewrite decide_False by (intros [? _]; done).
           rewrite <- Hk0. by apply (Hcols (idx, r0)).
      * rewrite decide_False; [by apply Hcols|].
        intros [_ Hk]. apply Hl. by rewrite (Huniq lr Hlr).
  - (* two rows with one triple: excluded by the invariant *)
    exfalso.
    assert (∀ lr, lr ∈ (idx, r0) :: lr2 :: rest → row_key lr.2 = Some (sp_key sp)) as Hk.
    { intros lr Hlr. rewrite <- Hf in Hlr.
      apply list_elem_of_filter in Hlr as [Hlr _]. by apply match_criteria_key in Hlr. }
    apply (NoDup_fmap_filter (λ lr : nat * gmap string value, row_key lr.2)
      (λ lr : nat * gmap string value,
         match_criteria (Str (sp_date sp)) (Num (latitude sp)) (Num (longitude sp)) lr.2))
      in Hnd.
    rewrite Hf, !fmap_cons, NoDup_cons in Hnd. destruct Hnd as [Hnd _].
    apply Hnd. rewrite (Hk (idx, r0)), <- (Hk lr2).
    + apply list_elem_of_here.
    + apply list_elem_of_further, list_elem_of_here.
    + apply list_elem_of_here.
Qed.

Lemma veg_inv_empty : veg_inv [] (empty_veg_df, 0%nat).
Proof.
  unfold veg_inv. simpl. split; [done|]. split; [constructor|].
  split; [|split].
  - by intros lr ?%elem_of_nil.
  - by intros rec ?%elem_of_nil.
  - by intros lr name ?%elem_of_nil.
Qed.

Lemma for_each_add_space_point (recs0 recs : list (string * space_point))
  (st : DataFrame * nat) :
  veg_inv recs0 st →
  ∃ st', for_each (λ r, add_space_point r.1 r.2) recs st = inr st' ∧
         veg_inv (recs0 ++ recs) st'.
Proof.
  revert recs0 st. induction recs as [|[name sp] recs IH]; intros recs0 st Hinv.
  - exists st. by rewrite (right_id_L [] (++)).
  - destruct (add_space_point_inv name sp recs0 st Hinv) as (st1 & Hst1 & Hinv1).
    destruct (IH _ _ Hinv1) as (st' & Hst' & Hinv').
    exists st'. simpl. rewrite Hst1. simpl. split; [done|].
    by rewrite <- (assoc_L (++)) in Hinv'.
Qed.

Lemma add_time_point_flat (name : string)
  (tp : option (list (string * space_point))) (st : DataFrame * nat) :
  add_time_point name tp st
  = for_each (λ r, add_space_point r.1 r.2) (time_point_records name tp) st.
Proof.
  destruct tp as [pts|]; [|reflexivity].
  unfold add_time_point, time_point_records.
  rewrite (for_each_fmap _ (pair name)). reflexivity.
Qed.

Lemma add_vegetation_flat (data : summary) (st : DataFrame * nat) :
  well_typed data →
  for_each add_vegetation data st
  = for_each (λ r, add_space_point r.1 r.2) (veg_records data) st.
Proof.
  intros Hwt. unfold veg_records. rewrite for_each_bind.
  revert st. induction Hwt as [|[name c] data Hc _ IH]; intros st; [done|].
  simpl in Hc. cbn [for_each].
  assert (add_vegetation (name, c) st
          = for_each (λ r, add_space_point r.1 r.2) (collection_records (name, c)) st)
    as ->.
  { unfold add_vegetation, collection_records. simpl.
    destruct c as [tsd|type tsd]; simpl.
    - rewrite for_each_bind. apply for_each_ext. intros tp st'.
      apply add_time_point_flat.
    - simpl in Hc. rewrite bool_decide_eq_true_2; [done|].
      intros ->. by specialize (Hc eq_refl). }
  destruct (for_each _ (collection_records (name, c)) st); simpl; [done|]. apply IH.
Qed.

Lemma filter_key_length {A B} `{EqDecision B} (f : A → B) (l : list A) (k : B) :
  NoDup (f <$> l) → k ∈ f <$> l → length (filter (λ y, f y = k) l) = 1%nat.
Proof.
  induction l as [|x l IH]; [by intros _ ?%elem_of_nil|].
  rewrite fmap_cons, NoDup_cons. intros [Hx Hl] Hk.
  rewrite filter_cons. case_decide as Hfx.
  - rewrite filter_none; [done|]. intros y Hy Hfy. apply Hx.
    rewrite Hfx, <- Hfy. by apply list_elem_of_fmap_2.
  - apply IH; [done|]. apply elem_of_cons in Hk as [Hk|Hk]; [congruence|done].
Qed.

(** The table of the vegetation loop: on a well-typed summary the loop
    raises nothing and leaves a table in which every record's
    [(date, lat, long)] triple is the key of exactly one row, every row
    carries the triple of some record, the number of rows is the number of
    distinct triples, and the metric column of each collection holds, in the
    row of a triple, the [offset50] of the last record of that collection with
    that triple (NaN when the collection has none). *)
Lemma vegetation_table (data : summary) :
  well_typed data →
  ∃ veg_df i,
    for_each add_vegetation data (empty_veg_df, 0%nat) = inr (veg_df, i) ∧
    (∀ rec, rec ∈ veg_records data →
       length (filter (λ lr, row_key lr.2 = Some (sp_key rec.2)) (rows veg_df)) = 1%nat) ∧
    (∀ lr, lr ∈ rows veg_df →
       ∃ rec, rec ∈ veg_records data ∧ row_key lr.2 = Some (sp_key rec.2)) ∧
    length (rows veg_df) = length (remove_dups (sp_key <$> (veg_records data).*2)) ∧
    (∀ lr name, lr ∈ rows veg_df →
       lr.2 !! (name +:+ "_offset50")
       = Num <$> last_offset name (row_key lr.2) (veg_records data)).
Proof.
  intros Hwt. rewrite add_vegetation_flat by done.
  destruct (for_each_add_space_point [] (veg_records data) _ veg_inv_empty)
    as ([veg_df i] & -> & Hlab & Hnd & Hrows & Hrecs & Hcols).
  simpl in *. exists veg_df, i. split; [done|].
  split; [|split; [done|split; [|done]]].
  - intros rec Hrec.
    apply (filter_key_length (λ lr : nat * gmap string value, row_key lr.2)); [done|].
    destruct (Hrecs rec Hrec) as (lr & Hlr & <-).
    by apply (list_elem_of_fmap_2 (λ lr : nat * gmap string value, row_key lr.2)).
  - rewrite <- (length_fmap (λ lr : nat * gmap string value, row_key lr.2)).
    rewrite <- (length_fmap Some (remove_dups _)).
    apply Permutation_length, NoDup_Permutation; [done| |].
    + apply (NoDup_fmap_2 Some), NoDup_remove_dups.
    + intros k. rewrite !list_elem_of_fmap. split.
      * intros (lr & -> & Hlr). destruct (Hrows lr Hlr) as (rec & Hrec & ->).
        eexists. split; [done|]. apply elem_of_remove_dups.
        do 2 apply list_elem_of_fmap_2. done.
      * intros (k' & -> & Hk'). rewrite elem_of_remove_dups in Hk'.
        apply list_elem_of_fmap in Hk' as (sp & -> & Hsp).
        apply list_elem_of_fmap in Hsp as (rec & -> & Hrec).
        destruct (Hrecs rec Hrec) as (lr & Hlr & Hk). eauto.
Qed.

(** ** The uniqueness error *)

Import MergeSpec.

Lemma add_space_point_inl (name : string) (sp : space_point)
  (st : DataFrame * nat) (e : exn) :
  add_space_point name sp st = inl e ↔
  e = RuntimeError error_message ∧
  (2 ≤ length (matched_indices
                 (match_criteria (Str (sp_date sp)) (Num (latitude sp))
                    (Num (longitude sp))) st.1))%nat.
Proof.
  destruct st as [df i]. unfold add_space_point. simpl.
  destruct (matched_indices _ df) as [|idx [|idx' rest]]; simpl.
  - split; [done|]. intros [_ ?]. lia.
  - split; [done|]. intros [_ ?]. lia.
  - split; [intros [= <-]; split; [done|lia]|]. by intros [-> _].
Qed.

Lemma add_weather_point_inl (date : string)
  (values : option (list (string * value))) (st : DataFrame * nat) (e : exn) :
  add_weather_point (date, values) st = inl e ↔
  e = RuntimeError error_message ∧ is_Some values ∧
  (2 ≤ length (matched_indices (λ r, r !! "date" = Some (Str date)) st.1))%nat.
Proof.
  destruct st as [df i]. unfold add_weather_point. simpl.
  destruct values as [values|]; simpl.
  - destruct (matched_indices _ df) as [|idx [|idx' rest]]; simpl.
    + split; [done|]. intros (_ & _ & ?). lia.
    + split; [done|]. intros (_ & _ & ?). lia.
    + split; [intros [= <-]; repeat split; [eauto|lia]|]. by intros (-> & _).
  - split; [done|]. intros (_ & [? [=]] & _).
Qed.

Lemma add_weather_flat (data : summary) (st : DataFrame * nat) :
  for_each add_weather data st = for_each add_weather_point (weather_points data) st.
Proof.
  unfold weather_points. rewrite for_each_bind. apply for_each_ext.
  intros [name c] st'. unfold add_weather, collection_points. simpl.
  destruct c as [tsd|type tsd]; simpl; [done|]. by case_bool_decide.
Qed.

Lemma vegetation_loop_returns (data : summary) :
  well_typed data →
  ∃ veg, for_each add_vegetation data (empty_veg_df, 0%nat) = inr veg.
Proof.
  intros Hwt. rewrite add_vegetation_flat by done.
  destruct (for_each_add_space_point [] (veg_records data) _ veg_inv_empty)
    as (veg & -> & _). eauto.
Qed.

Lemma merged_attribute_inl (weather_df : DataFrame) (col : string) (e : exn) :
  merged_attribute weather_df col = inl e → e = AttributeError.
Proof. unfold merged_attribute. case_bool_decide; [by intros [= <-]|done]. Qed.

(** C6: a record of the vegetation loop raises exactly when more than one
    row of [veg_df] matches its [(date, lat, long)] triple, a time point of
    the weather loop exactly when it holds data and more than one row of
    [weather_df] matches its date, and the exception is the [RuntimeError];
    [read_json_to_dataframe] on a well-typed summary ends with a
    [RuntimeError] exactly when the weather loop meets such a time point,
    and then returns no table: the exception ends the ingestion. *)
Theorem runtime_error_iff (fs : gmap string summary) (filename : string)
  (data : summary) :
  fs !! filename = Some data → well_typed data →
  (∀ name sp st e,
     add_space_point name sp st = inl e ↔
     e = RuntimeError error_message ∧
     (2 ≤ length (matched_indices
                    (match_criteria (Str (sp_date sp)) (Num (latitude sp))
                       (Num (longitude sp))) st.1))%nat) ∧
  (∀ date values st e,
     add_weather_point (date, values) st = inl e ↔
     e = RuntimeError error_message ∧ is_Some values ∧
     (2 ≤ length (matched_indices (λ r, r !! "date" = Some (Str date)) st.1))%nat) ∧
  (∀ msg,
     read_json_to_dataframe fs filename = inl (RuntimeError msg) ↔
     msg = error_message ∧
     ∃ before tp after st,
       weather_points data = before ++ tp :: after ∧
       for_each add_weather_point before (empty_weather_df, 0%nat) = inr st ∧
       is_Some tp.2 ∧
       (2 ≤ length (matched_indices (λ r, r !! "date" = Some (Str tp.1)) st.1))%nat).
Proof.
  intros Hfile Hwt.
  split; [apply add_space_point_inl|]. split; [apply add_weather_point_inl|].
  intros msg. unfold read_json_to_dataframe, summary in *. rewrite Hfile.
  destruct (vegetation_loop_returns data Hwt) as [veg ->]. cbn [mbind result_bind].
  rewrite add_weather_flat.
  destruct (for_each add_weather_point (weather_points data) _) as [e'|w] eqn:Hw;
    cbn [mbind result_bind].
  - apply for_each_inl in Hw as (before & [date values] & after & st & Hsplit & Hrun & Hstep).
    apply add_weather_point_inl in Hstep as (-> & Hsome & Hlen).
    split.
    + intros [= <-]. split; [done|]. by exists before, (date, values), after, st.
    + by intros [-> _].
  - split.
    + destruct (merged_attribute w.1 "lat") as [e1|[]] eqn:Hlat;
        cbn [mbind result_bind].
      { apply merged_attribute_inl in Hlat as ->. done. }
      destruct (merged_attribute w.1 "long") as [e2|[]] eqn:Hlong;
        cbn [mbind result_bind]; [|done].
      apply merged_attribute_inl in Hlong as ->. done.
    + intros (_ & before & [date values] & after & st & Hsplit & Hrun & Hsome & Hlen).
      assert (for_each add_weather_point (weather_points data)
                (empty_weather_df, 0%nat) = inl (RuntimeError error_message)) as Habs.
      { apply for_each_inl. exists before, (date, values), after, st.
        split; [done|]. split; [done|]. by apply add_weather_point_inl. }
      congruence.
Qed.

(** ** The merged table *)

Lemma length_filter_fmap {A B} (f : A → B) (P : B → Prop)
  `{!∀ y, Decision (P y)} (l : list A) :
  length (filter P (f <$> l)) = length (filter (λ x, P (f x)) l).
Proof.
  induction l as [|x l IH]; [done|]. rewrite fmap_cons, !filter_cons.
  case_decide; simpl; by rewrite IH.
Qed.

Lemma length_filter_zero {A} (P : A → Prop) `{!∀ x, Decision (P x)} (l : list A) :
  length (filter P l) = 0%nat ↔ ∀ x, x ∈ l → ¬ P x.
Proof.
  split.
  - intros Hlen x Hx HP. apply length_zero_iff_nil in Hlen.
    by eapply filter_nil_not_elem_of.
  - intros Hall. by rewrite filter_none.
Qed.

Lemma filter_filter_implied {A} (P Q : A → Prop) `{!∀ x, Decision (P x)}
  `{!∀ x, Decision (Q x)} (l : list A) :
  (∀ x, x ∈ l → P x → Q x) → filter P (filter Q l) = filter P l.
Proof.
  induction l as [|x l IH]; intros Himp; [done|].
  assert (filter P (filter Q l) = filter P l) as IH'.
  { apply IH. intros y Hy. by apply Himp, list_elem_of_further. }
  rewrite (filter_cons Q), (filter_cons P x l).
  destruct (decide (P x)) as [HP|HP].
  - rewrite decide_True by (apply Himp; [apply list_elem_of_here|done]).
    by rewrite filter_cons_True, IH'.
  - case_decide; [by rewrite filter_cons_False|done].
Qed.

Lemma merged_on_app (d : option value) (a b : list merged_row) :
  merged_on d (a ++ b) = (merged_on d a + merged_on d b)%nat.
Proof. unfold merged_on. by rewrite filter_app, length_app. Qed.

Lemma merge_left_elem (weather_df : DataFrame) (lr : nat * gmap string value)
  (m : merged_row) :
  m ∈ merge_left weather_df lr →
  from_veg m = Some lr.2 ∧ merged_date m = lr.2 !! "date" ∧
  (rows_on (lr.2 !! "date") weather_df = 0%nat → from_weather m = None).
Proof.
  unfold merge_left, rows_on, weather_matches.
  destruct (filter _ (rows weather_df)) as [|rr ms] eqn:Hf.
  - by intros ->%list_elem_of_singleton.
  - intros (rr' & -> & _)%list_elem_of_fmap. simpl. repeat split. done.
Qed.

Lemma length_merge_left (weather_df : DataFrame) (lr : nat * gmap string value) :
  length (merge_left weather_df lr)
  = Nat.max 1 (rows_on (lr.2 !! "date") weather_df).
Proof.
  unfold merge_left, rows_on, weather_matches.
  destruct (filter _ (rows weather_df)) as [|rr ms]; [done|].
  rewrite length_fmap. simpl. lia.
Qed.

Lemma merged_on_merge_left (d : option value) (weather_df : DataFrame)
  (lr : nat * gmap string value) :
  merged_on d (merge_left weather_df lr)
  = if decide (lr.2 !! "date" = d) then Nat.max 1 (rows_on d weather_df) else 0%nat.
Proof.
  unfold merged_on. case_decide as Hd.
  - rewrite filter_all; [by rewrite length_merge_left, Hd|].
    apply Forall_forall. intros m Hm.
    apply merge_left_elem in Hm as (_ & -> & _). done.
  - rewrite filter_none; [done|]. intros m Hm.
    apply merge_left_elem in Hm as (_ & -> & _). done.
Qed.

Lemma merged_on_left (d : option value) (weather_df : DataFrame)
  (l : list (nat * gmap string value)) :
  merged_on d (l ≫= merge_left weather_df)
  = (length (filter (λ lr, lr.2 !! "date" = d) l)
     * Nat.max 1 (rows_on d weather_df))%nat.
Proof.
  induction l as [|lr l IH]; [done|].
  rewrite bind_cons, merged_on_app, merged_on_merge_left, IH, filter_cons.
  case_decide; simpl; lia.
Qed.

Lemma merged_on_right (d : option value) (veg_df weather_df : DataFrame) :
  merged_on d ((λ rr, Merged None (Some rr.2))
                 <$> filter (unmatched_right veg_df) (rows weather_df))
  = if decide (rows_on d veg_df = 0%nat) then rows_on d weather_df else 0%nat.
Proof.
  unfold merged_on. rewrite length_filter_fmap. unfold merged_date. simpl.
  case_decide as Hl.
  - unfold rows_on in *. rewrite filter_filter_implied; [done|].
    intros rr _ Hd. apply Forall_forall. intros lr Hlr. rewrite Hd.
    by eapply (proj1 (length_filter_zero _ _) Hl).
  - rewrite filter_none; [done|]. intros rr [Hun _]%list_elem_of_filter Hd.
    apply Hl. apply length_filter_zero. intros lr Hlr Hld.
    unfold unmatched_right in Hun. rewrite Forall_forall in Hun.
    apply (Hun lr Hlr). congruence.
Qed.

Lemma merged_on_outer (d : option value) (veg_df weather_df : DataFrame) :
  merged_on d (pd_merge_outer veg_df weather_df)
  = if decide (rows_on d veg_df = 0%nat) then rows_on d weather_df
    else (rows_on d veg_df * Nat.max 1 (rows_on d weather_df))%nat.
Proof.
  unfold pd_merge_outer. rewrite merged_on_app, merged_on_left, merged_on_right.
  fold (rows_on d veg_df). case_decide as Hl; [rewrite Hl|]; lia.
Qed.

Lemma merged_sides (d : option value) (veg_df weather_df : DataFrame) (m : merged_row) :
  m ∈ pd_merge_outer veg_df weather_df → merged_date m = d →
  (rows_on d weather_df = 0%nat → from_weather m = None) ∧
  (rows_on d veg_df = 0%nat → from_veg m = None).
Proof.
  unfold pd_merge_outer. intros [Hm|Hm]%elem_of_app Hd.
  - apply list_elem_of_bind in Hm as (lr & Hm & Hlr).
    apply merge_left_elem in Hm as (Hv & Hdate & Hw).
    split.
    + intros H0. apply Hw. congruence.
    + intros H0. exfalso. unfold rows_on in H0.
      eapply (proj1 (length_filter_zero _ _) H0); [exact Hlr|].
      simpl. congruence.
  - apply list_elem_of_fmap in Hm as (rr & -> & [_ Hrr]%list_elem_of_filter).
    simpl in *. split; [|done]. intros H0. exfalso. unfold rows_on in H0.
    by eapply (proj1 (length_filter_zero _ _) H0).
Qed.

Lemma read_json_returned (fs : gmap string summary) (filename : string)
  (out : list (merged_row * value)) :
  read_json_to_dataframe fs filename = inr out →
  ∃ data veg weather,
    fs !! filename = Some data ∧
    for_each add_vegetation data (empty_veg_df, 0%nat) = inr veg ∧
    for_each add_weather data (empty_weather_df, 0%nat) = inr weather ∧
    "lat" ∉ columns weather.1 ∧ "long" ∉ columns weather.1 ∧
    out = with_geometry <$> pd_merge_outer veg.1 weather.1.
Proof.
  intros Hrun. unfold read_json_to_dataframe, summary in *.
  destruct (fs !! filename) as [data|] eqn:Hfile; [|discriminate Hrun].
  destruct (for_each add_vegetation data _) as [|veg] eqn:Hveg;
    [discriminate Hrun|].
  destruct (for_each add_weather data _) as [|weather] eqn:Hweather;
    [discriminate Hrun|].
  cbn [mbind result_bind] in Hrun. unfold merged_attribute in Hrun.
  destruct (bool_decide ("lat" ∈ columns weather.1)) eqn:Hlat;
    [discriminate Hrun|].
  cbn [mbind result_bind mret result_ret] in Hrun.
  destruct (bool_decide ("long" ∈ columns weather.1)) eqn:Hlong;
    [discriminate Hrun|].
  cbn [mbind result_bind mret result_ret] in Hrun. injection Hrun as <-.
  apply bool_decide_eq_false in Hlat, Hlong.
  by exists data, veg, weather.
Qed.

Lemma read_json_returns (fs : gmap string summary) (filename : string)
  (data : summary) (veg weather : DataFrame * nat) :
  fs !! filename = Some data →
  for_each add_vegetation data (empty_veg_df, 0%nat) = inr veg →
  for_each add_weather data (empty_weather_df, 0%nat) = inr weather →
  "lat" ∉ columns weather.1 → "long" ∉ columns weather.1 →
  read_json_to_dataframe fs filename
  = inr (with_geometry <$> pd_merge_outer veg.1 weather.1).
Proof.
  intros Hfile Hveg Hweather Hlat Hlong.
  unfold read_json_to_dataframe, summary in *. rewrite Hfile, Hveg.
  cbn [mbind result_bind]. rewrite Hweather. cbn [mbind result_bind].
  unfold merged_attribute. by rewrite !bool_decide_eq_false_2.
Qed.

(** C5, as the code has it: the table [read_json_to_dataframe] returns is
    the outer join on [date] of the vegetation and the weather table.  A date
    of either table occurs in it once for each pair of a vegetation row and a
    weather row of that date, and once for each row of the one table when the
    other has no row of that date (so at least once, and as often as there
    are vegetation rows of the date when the weather table has one row of
    it); a row of a date that only one table has holds nulls on the other
    side. *)
Theorem merged_table_dates (fs : gmap string summary) (filename : string)
  (out : list (merged_row * value)) :
  read_json_to_dataframe fs filename = inr out →
  ∃ data veg weather,
    fs !! filename = Some data ∧
    for_each add_vegetation data (empty_veg_df, 0%nat) = inr veg ∧
    for_each add_weather data (empty_weather_df, 0%nat) = inr weather ∧
    out.*1 = pd_merge_outer veg.1 weather.1 ∧
    ∀ d,
      merged_on d out.*1
      = (if decide (rows_on d veg.1 = 0%nat) then rows_on d weather.1
         else (rows_on d veg.1 * Nat.max 1 (rows_on d weather.1))%nat) ∧
      (d ∈ dates_of veg.1 ++ dates_of weather.1 → (1 ≤ merged_on d out.*1)%nat) ∧
      (∀ m, m ∈ out.*1 → merged_date m = d →
         (rows_on d weather.1 = 0%nat → from_weather m = None) ∧
         (rows_on d veg.1 = 0%nat → from_veg m = None)).
Proof.
  intros Hrun.
  apply read_json_returned in Hrun
    as (data & veg & weather & Hfile & Hveg & Hweather & _ & _ & ->).
  exists data, veg, weather. split; [done|]. split; [done|]. split; [done|].
  assert ((with_geometry <$> pd_merge_outer veg.1 weather.1).*1
          = pd_merge_outer veg.1 weather.1) as ->.
  { rewrite <- list_fmap_compose. apply list_fmap_id. }
  split; [done|]. intros d. rewrite merged_on_outer. split; [done|].
  split; [|intros m; apply merged_sides].
  intros Hd. apply elem_of_app in Hd as [Hd|Hd];
    apply list_elem_of_fmap in Hd as (lr & -> & Hlr).
  - assert (rows_on (lr.2 !! "date") veg.1 ≠ 0%nat) as Hne.
    { intros H0. by eapply (proj1 (length_filter_zero _ _) H0). }
    rewrite decide_False by done. nia.
  - case_decide; [|nia].
    assert (rows_on (lr.2 !! "date") weather.1 ≠ 0%nat) as Hne; [|lia].
    intros H0. by eapply (proj1 (length_filter_zero _ _) H0).
Qed.

Lemma two_points_well_typed : well_typed two_points.
Proof. repeat constructor; simpl; done. Qed.

Lemma each_date_once_fails : ¬ each_date_once two_points.
Proof.
  intros H.
  specialize (H _ _ eq_refl eq_refl (Some (Str "2020-01-01"))).
  assert (2 = 1)%nat as Habs; [|discriminate Habs].
  etransitivity; [|apply H].
  - vm_compute. reflexivity.
  - vm_compute. apply list_elem_of_here.
Qed.

(** The uniqueness error can be met: a metric named [date] overwrites the
    date of its row. *)
Example date_metric_raises :
  read_json_to_dataframe {["results_summary.json" := date_metric]}
    "results_summary.json"
  = inl (RuntimeError error_message).
Proof. vm_compute. reflexivity. Qed.

Lemma runtime_error_iff_witness :
  (∀ name sp st e,
     add_space_point name sp st = inl e ↔
     e = RuntimeError error_message ∧
     (2 ≤ length (matched_indices
                    (match_criteria (Str (sp_date sp)) (Num (latitude sp))
                       (Num (longitude sp))) st.1))%nat) ∧
  (∀ date values st e,
     add_weather_point (date, values) st = inl e ↔
     e = RuntimeError error_message ∧ is_Some values ∧
     (2 ≤ length (matched_indices (λ r, r !! "date" = Some (Str date)) st.1))%nat) ∧
  (∀ msg,
     read_json_to_dataframe {["results_summary.json" := date_metric]}
       "results_summary.json" = inl (RuntimeError msg) ↔
     msg = error_message ∧
     ∃ before tp after st,
       weather_points date_metric = before ++ tp :: after ∧
       for_each add_weather_point before (empty_weather_df, 0%nat) = inr st ∧
       is_Some tp.2 ∧
       (2 ≤ length (matched_indices (λ r, r !! "date" = Some (Str tp.1)) st.1))%nat).
Proof.
  apply (runtime_error_iff {["results_summary.json" := date_metric]}
           "results_summary.json" date_metric).
  - vm_compute. reflexivity.
  - repeat constructor; simpl; done.
Defined.

Lemma merged_table_dates_witness :
  ∃ out,
    read_json_to_dataframe {["results_summary.json" := two_points]}
      "results_summary.json" = inr out ∧
    ∃ data veg weather,
      ({["results_summary.json" := two_points]} : gmap string summary)
        !! "results_summary.json" = Some data ∧
      for_each add_vegetation data (empty_veg_df, 0%nat) = inr veg ∧
      for_each add_weather data (empty_weather_df, 0%nat) = inr weather ∧
      out.*1 = pd_merge_outer veg.1 weather.1 ∧
      ∀ d,
        merged_on d out.*1
        = (if decide (rows_on d veg.1 = 0%nat) then rows_on d weather.1
           else (rows_on d veg.1 * Nat.max 1 (rows_on d weather.1))%nat) ∧
        (d ∈ dates_of veg.1 ++ dates_of weather.1 → (1 ≤ merged_on d out.*1)%nat) ∧
        (∀ m, m ∈ out.*1 → merged_date m = d →
           (rows_on d weather.1 = 0%nat → from_weather m = None) ∧
           (rows_on d veg.1 = 0%nat → from_veg m = None)).
Proof.
  eexists. split.
  - vm_compute. reflexivity.
  - apply (merged_table_dates {["results_summary.json" := two_points]}
             "results_summary.json").
    vm_compute. reflexivity.
Defined.

(** ** Missing files *)

Import VarIngest.

Lemma prefix_append (x t : string) : String.prefix x (x +:+ t) = true.
Proof.
  induction x as [|c x IH]; simpl; [by destruct t|].
  destruct (ascii_dec c c); [exact IH|congruence].
Qed.

Lemma contains_prefix (x s : string) :
  String.prefix x s = true → contains x s = true.
Proof. intros H. destruct s; cbn [contains]; by rewrite H. Qed.

Lemma contains_append_l (x t : string) : contains x (x +:+ t) = true.
Proof. apply contains_prefix, prefix_append. Qed.

Lemma contains_append_r (x p s : string) :
  contains x s = true → contains x (p +:+ s) = true.
Proof.
  intros H. induction p as [|c p IH]; [done|].
  change (String c p +:+ s) with (String c (p +:+ s)). cbn [contains].
  rewrite IH. apply orb_true_r.
Qed.

(** C7, as the code has it: on a path at which no file exists both readers
    raise [FileNotFoundError] before anything else, and the exception carries
    no message.  The message with the absolute path is that of the input
    check of [main], which is made before the reader is called. *)
Theorem missing_file_error (fs : gmap string Ingest.summary)
  (vfs : gmap string VarIngest.summary) (cwd filename input_dir : string) :
  (fs !! filename = None →
     read_json_to_dataframe fs filename = inl (FileNotFoundError "")) ∧
  (vfs !! filename = None →
     variable_read_json_to_dataframe vfs filename = inl (FileNotFoundError "")) ∧
  (vfs !! path_join input_dir "results_summary.json" = None →
     names_missing_path cwd (path_join input_dir "results_summary.json")
       (main_read cwd vfs input_dir)).
Proof.
  split; [|split].
  - intros H. unfold read_json_to_dataframe, Ingest.summary in *. by rewrite H.
  - intros H. unfold variable_read_json_to_dataframe, VarIngest.summary in *.
    by rewrite H.
  - intros H. unfold main_read, VarIngest.summary in *. rewrite H.
    eexists. split; [done|].
    apply contains_append_r, contains_append_r, contains_append_l.
Qed.

Lemma missing_file_error_witness :
  ((∅ : gmap string Ingest.summary) !! "/data/results_summary.json" = None →
     read_json_to_dataframe ∅ "/data/results_summary.json"
     = inl (FileNotFoundError "")) ∧
  ((∅ : gmap string VarIngest.summary) !! "/data/results_summary.json" = None →
     variable_read_json_to_dataframe ∅ "/data/results_summary.json"
     = inl (FileNotFoundError "")) ∧
  ((∅ : gmap string VarIngest.summary) !! path_join "/data" "results_summary.json" = None →
     names_missing_path "/home/user" (path_join "/data" "results_summary.json")
       (main_read "/home/user" ∅ "/data")).
Proof.
  apply (missing_file_error ∅ ∅ "/home/user" "/data/results_summary.json" "/data").
Defined.

Lemma message_without_path :
  ¬ (names_missing_path "/home/user" "/data/results_summary.json"
       (read_json_to_dataframe ∅ "/data/results_summary.json") ∧
     names_missing_path "/home/user" "/data/results_summary.json"
       (variable_read_json_to_dataframe ∅ "/data/results_summary.json")).
Proof.
  intros [(msg & Hraise & Hmsg) _]. vm_compute in Hraise.
  injection Hraise as <-. vm_compute in Hmsg. discriminate Hmsg.
Qed.

(** ** Per-collection ingestion *)

Lemma foldl_snoc_app {A} (acc l : list A) :
  foldl (λ rows x, rows ++ [x]) acc l = acc ++ l.
Proof.
  revert acc. induction l as [|x l IH]; intros acc; simpl.
  - by rewrite (right_id_L [] (++)).
  - by rewrite IH, <- (assoc_L (++)).
Qed.

Lemma dict_get_set_eq {V} (k : string) (v : V) (d : list (string * V)) :
  dict_get k (dict_set k v d) = Some v.
Proof.
  induction d as [|[k' v'] d IH]; simpl.
  - by rewrite bool_decide_eq_true_2.
  - case_bool_decide as Hk; simpl.
    + by rewrite bool_decide_eq_true_2.
    + by rewrite bool_decide_eq_false_2.
Qed.

Lemma dict_get_set_ne {V} (k k' : string) (v : V) (d : list (string * V)) :
  k' ≠ k → dict_get k' (dict_set k v d) = dict_get k' d.
Proof.
  intros Hne. induction d as [|[k0 v0] d IH]; simpl.
  - by rewrite bool_decide_eq_false_2.
  - case_bool_decide as Hk; simpl.
    + subst. by rewrite !bool_decide_eq_false_2.
    + by rewrite IH.
Qed.

Lemma add_time_point_rows (tp : string * json) (rows_list : list json) :
  is_entry tp.2 = true →
  add_time_point tp rows_list = inr (rows_list ++ rows_of_entry tp).
Proof.
  destruct tp as [date [| | | | |[|[k v] ms]]]; simpl; try done; intros _.
  - unfold add_time_point, rows_of_entry. simpl.
    by rewrite (right_id_L [] (++)).
  - unfold add_time_point, rows_of_entry. simpl.
    by rewrite (right_id_L [] (++)).
  - unfold add_time_point, rows_of_entry. simpl.
    destruct (is_dict v); simpl; [|done].
    by rewrite (foldl_snoc_app (rows_list ++ [v])), <- (assoc_L (++)).
Qed.

Lemma for_each_add_time_point (tsd : list (string * json)) (rows_list : list json) :
  Forall (λ tp, is_entry tp.2 = true) tsd →
  for_each add_time_point tsd rows_list = inr (rows_list ++ (tsd ≫= rows_of_entry)).
Proof.
  intros H. revert rows_list.
  induction H as [|tp tsd Htp _ IH]; intros rows_list; simpl.
  - by rewrite (right_id_L [] (++)).
  - rewrite add_time_point_rows by done. simpl.
    by rewrite IH, <- (assoc_L (++)).
Qed.

Lemma rows_of_entry_dicts (tp : string * json) :
  is_entry tp.2 = true →
  forallb is_dict (rows_of_entry tp) = well_formed_entry tp.2.
Proof.
  destruct tp as [date [| | | | |[|[k v] ms]]]; try done.
  intros _. unfold rows_of_entry, well_formed_entry. cbn [fst snd].
  destruct (is_dict v) eqn:Hv; [|done].
  rewrite fmap_cons. cbn [forallb snd]. by rewrite Hv.
Qed.

Lemma forallb_bind {A B} (p : B → bool) (f : A → list B) (l : list A) :
  forallb p (l ≫= f) = forallb (λ x, forallb p (f x)) l.
Proof.
  induction l as [|x l IH]; [done|].
  rewrite bind_cons, forallb_app, IH. done.
Qed.

Lemma forallb_Forall {A} (p : A → bool) (l : list A) :
  forallb p l = true ↔ Forall (λ x, p x = true) l.
Proof.
  induction l as [|x l IH]; simpl.
  - split; [constructor|done].
  - rewrite andb_true_iff, Forall_cons, IH. done.
Qed.

Lemma forallb_Exists {A} (p : A → bool) (l : list A) :
  forallb p l = false ↔ Exists (λ x, p x = false) l.
Proof.
  induction l as [|x l IH]; simpl.
  - split; [done|by intros ?%Exists_nil].
  - rewrite andb_false_iff, Exists_cons, IH. done.
Qed.

Lemma rows_head_dict (tsd : list (string * json)) :
  Forall (λ tp, is_entry tp.2 = true) tsd →
  match tsd ≫= rows_of_entry with
  | first :: _ => is_dict first = true
  | [] => True
  end.
Proof.
  induction 1 as [|[date tp] tsd Htp _ IH]; [done|].
  rewrite bind_cons.
  destruct tp as [| | | | |[|[k v] ms]]; try done.
  unfold rows_of_entry at 1. cbn [fst snd].
  destruct (is_dict v) eqn:Hv; [|done]. by rewrite fmap_cons.
Qed.

Lemma pd_DataFrame_rows (tsd : list (string * json)) :
  Forall (λ tp, is_entry tp.2 = true) tsd →
  pd_DataFrame (tsd ≫= rows_of_entry)
  = if forallb (λ tp, well_formed_entry tp.2) tsd
    then inr (tsd ≫= rows_of_entry) else inl AttributeError.
Proof.
  intros Hall.
  assert (forallb is_dict (tsd ≫= rows_of_entry)
          = forallb (λ tp, well_formed_entry tp.2) tsd) as Hdicts.
  { rewrite forallb_bind. induction Hall as [|tp tsd Htp _ IH]; [done|].
    cbn [forallb]. by rewrite rows_of_entry_dicts, IH. }
  pose proof (rows_head_dict tsd Hall) as Hhead.
  unfold pd_DataFrame. destruct (tsd ≫= rows_of_entry) as [|first rows] eqn:Hrows.
  - by rewrite <- Hdicts.
  - rewrite Hhead, Hdicts. by destruct (forallb _ tsd).
Qed.

Lemma add_collection_outcome (c : string * list (string * json))
  (dfs : list (string * list json)) :
  Forall (λ tp, is_entry tp.2 = true) c.2 →
  add_collection c dfs
  = if forallb (λ tp, well_formed_entry tp.2) c.2
    then inr (dict_set c.1 (c.2 ≫= rows_of_entry) dfs) else inl AttributeError.
Proof.
  intros Hc. unfold add_collection. rewrite for_each_add_time_point by done.
  cbn [mbind result_bind app]. rewrite pd_DataFrame_rows by done.
  by destruct (forallb _ c.2).
Qed.

(** C8, as the code has it: for a collection whose date entries are [null]
    or objects, an entry that is [null] or empty gives no row, an entry
    whose first value is a mapping gives one row per value of the entry, that
    value being the row, and any other entry gives exactly one row: the entry
    itself with the [date] field set to its date and its other fields as
    they were.  The table of the collection holds these rows in order when
    every entry whose first value is a mapping has only mappings as values;
    when some such entry has a value that is not a mapping, building the
    table raises [AttributeError] and no table is returned. *)
Theorem collection_rows (c : string * list (string * json))
  (dfs : list (string * list json)) :
  Forall (λ tp, is_entry tp.2 = true) c.2 →
  (Forall (λ tp, well_formed_entry tp.2 = true) c.2 →
   add_collection c dfs = inr (dict_set c.1 (c.2 ≫= rows_of_entry) dfs)) ∧
  (Exists (λ tp, well_formed_entry tp.2 = false) c.2 →
   add_collection c dfs = inl AttributeError) ∧
  ∀ tp, tp ∈ c.2 →
    match tp.2 with
    | JNull | JObj [] => rows_of_entry tp = []
    | JObj ((k, v) :: ms) =>
        if is_dict v
        then rows_of_entry tp = ((k, v) :: ms).*2 ∧
             well_formed_entry tp.2 = forallb is_dict ms.*2
        else well_formed_entry tp.2 = true ∧
             ∃ row, rows_of_entry tp = [JObj row] ∧
                    dict_get "date" row = Some (JStr tp.1) ∧
                    ∀ k', k' ≠ "date" → dict_get k' row = dict_get k' ((k, v) :: ms)
    | _ => True
    end.
Proof.
  intros Hc. rewrite add_collection_outcome by done. split; [|split].
  - intros Hwf. by rewrite (proj2 (forallb_Forall _ _) Hwf).
  - intros Hex. by rewrite (proj2 (forallb_Exists _ _) Hex).
  - intros [date tp] _. destruct tp as [| | | | |[|[k v] ms]]; try done.
    unfold rows_of_entry, well_formed_entry. cbn [fst snd].
    destruct (is_dict v); [done|]. split; [done|].
    eexists. split; [done|]. split.
    + apply (dict_get_set_eq "date").
    + intros k' Hk'. by apply (dict_get_set_ne "date").
Qed.

Lemma collection_rows_witness :
  let c := ("COPERNICUS/S2",
            [("2020-01-01", JObj [("0", JObj [("offset50", JNum 1)])]);
             ("2020-02-01", JNull)]) in
  (Forall (λ tp, well_formed_entry tp.2 = true) c.2 →
   add_collection c [] = inr (dict_set c.1 (c.2 ≫= rows_of_entry) [])) ∧
  (Exists (λ tp, well_formed_entry tp.2 = false) c.2 →
   add_collection c [] = inl AttributeError) ∧
  ∀ tp, tp ∈ c.2 →
    match tp.2 with
    | JNull | JObj [] => rows_of_entry tp = []
    | JObj ((k, v) :: ms) =>
        if is_dict v
        then rows_of_entry tp = ((k, v) :: ms).*2 ∧
             well_formed_entry tp.2 = forallb is_dict ms.*2
        else well_formed_entry tp.2 = true ∧
             ∃ row, rows_of_entry tp = [JObj row] ∧
                    dict_get "date" row = Some (JStr tp.1) ∧
                    ∀ k', k' ≠ "date" → dict_get k' row = dict_get k' ((k, v) :: ms)
    | _ => True
    end.
Proof.
  apply (collection_rows
           ("COPERNICUS/S2",
            [("2020-01-01", JObj [("0", JObj [("offset50", JNum 1)])]);
             ("2020-02-01", JNull)]) []).
  simpl. repeat constructor.
Defined.

(** On the mixed entry the specification has one row, the entry with its
    date; the code appends both values of the entry and fails to build the
    table. *)
Lemma mixed_entry_raises :
  add_time_point mixed_entry [] = inr (snd <$> [("0", JObj [("date", JStr "2020-01-01"); ("offset50", JNum 1)]); ("1", JNum 2)]) ∧
  add_collection ("COPERNICUS/S2", [mixed_entry]) [] = inl AttributeError.
Proof. split; vm_compute; reflexivity. Qed.

Lemma mixed_entry_rows : ¬ emits_as_stated ("COPERNICUS/S2", [mixed_entry]).
Proof. unfold emits_as_stated. vm_compute. intros H. discriminate H. Qed.

(** The tables of a small summary: the sub-location objects of the vegetation
    collection as they are, and the weather entry with its date. *)
Example small_summary_tables :
  variable_read_json_to_dataframe {["results_summary.json" := small_summary]}
    "results_summary.json"
  = inr [("COPERNICUS/S2",
          [JObj [("date", JStr "2020-01-01"); ("offset50", JNum 1)];
           JObj [("date", JStr "2020-01-01"); ("offset50", JNum 3)]]);
         ("ECMWF/ERA5/MONTHLY",
          [JObj [("total_precipitation", JNum 5); ("date", JStr "2020-01-01")]])].
Proof. vm_compute. reflexivity. Qed.

(** ** Geometry attachment *)

Import Geo.

Lemma numeric_coordinate (c : option value) :
  numeric c → ∃ x, Geo.coordinate c = inr x.
Proof. destruct c as [[]|]; simpl; by eauto. Qed.

Lemma points_of_rows (rs : list (nat * gmap string value)) :
  (∀ lr, lr ∈ rs → numeric (lr.2 !! "lat") ∧ numeric (lr.2 !! "long")) →
  ∃ pts,
    map_result make_point
      (zip ((λ lr, lr.2 !! "lat") <$> rs) ((λ lr, lr.2 !! "long") <$> rs)) = inr pts ∧
    length pts = length rs ∧
    ∀ i lr, rs !! i = Some lr →
      ∃ x y, Geo.coordinate (lr.2 !! "lat") = inr x ∧
             Geo.coordinate (lr.2 !! "long") = inr y ∧
             pts !! i = Some (Point x y).
Proof.
  induction rs as [|lr rs IH]; intros Hnum.
  - exists []. repeat split; [done..|]. by intros i lr.
  - destruct IH as (pts & Hpts & Hlen & Hlook).
    { intros lr' Hlr'. by apply Hnum, list_elem_of_further. }
    destruct (Hnum lr) as [Hlat Hlong]; [apply list_elem_of_here|].
    destruct (numeric_coordinate _ Hlat) as [x Hx].
    destruct (numeric_coordinate _ Hlong) as [y Hy].
    exists (Point x y :: pts). split; [|split].
    + rewrite !fmap_cons. cbn [zip zip_with map_result].
      assert (make_point (lr.2 !! "lat", lr.2 !! "long") = inr (Point x y)) as ->.
      { unfold make_point. cbn [fst snd]. rewrite Hx. simpl. by rewrite Hy. }
      cbn [mbind result_bind]. fold (zip ((λ lr : nat * gmap string value, lr.2 !! "lat") <$> rs)
        ((λ lr : nat * gmap string value, lr.2 !! "long") <$> rs)).
      rewrite Hpts. done.
    + simpl. by rewrite Hlen.
    + intros [|i] lr'; simpl.
      * intros [= <-]. eauto.
      * apply Hlook.
Qed.

Lemma write_geometry_labels (rs : list (nat * gmap string value)) (pts : list value) :
  length pts = length rs → (zip_with (write_cell "geometry") rs pts).*1 = rs.*1.
Proof.
  revert pts. induction rs as [|lr rs IH]; intros [|p pts] Hlen; try done.
  simpl. f_equal. apply IH. simpl in Hlen. lia.
Qed.

Lemma write_geometry_column (c : string) (rs : list (nat * gmap string value))
  (pts : list value) :
  c ≠ "geometry" → length pts = length rs →
  (λ lr, lr.2 !! c) <$> zip_with (write_cell "geometry") rs pts = (λ lr, lr.2 !! c) <$> rs.
Proof.
  intros Hc. revert pts. induction rs as [|lr rs IH]; intros [|p pts] Hlen; try done.
  simpl. rewrite lookup_insert_ne by done. f_equal. apply IH. simpl in Hlen. lia.
Qed.

Lemma write_geometry_twice (rs : list (nat * gmap string value)) (pts : list value) :
  zip_with (write_cell "geometry") (zip_with (write_cell "geometry") rs pts) pts
  = zip_with (write_cell "geometry") rs pts.
Proof.
  revert pts. induction rs as [|lr rs IH]; intros [|p pts]; try done.
  simpl. rewrite IH. unfold write_cell at 1. simpl.
  by rewrite insert_insert_eq.
Qed.

(** C9, as the code has it: on a table with [lat] and [long] columns holding
    numbers (or NaN) the function writes the [geometry] column into the table
    it is given: every row keeps its label and its other cells and gets the
    point of its coordinates, and the column list gains [geometry].  Applied
    again to the table so changed it changes nothing more. *)
Theorem convert_to_geopandas_in_place (df : DataFrame) :
  "lat" ∈ columns df → "long" ∈ columns df →
  (∀ lr, lr ∈ rows df → numeric (lr.2 !! "lat") ∧ numeric (lr.2 !! "long")) →
  ∃ df' ret,
    convert_to_geopandas df = inr (df', ret) ∧
    (rows df').*1 = (rows df).*1 ∧
    (∀ i lr, rows df !! i = Some lr →
       ∃ x y, Geo.coordinate (lr.2 !! "lat") = inr x ∧
              Geo.coordinate (lr.2 !! "long") = inr y ∧
              rows df' !! i = Some (lr.1, <["geometry" := Point x y]> lr.2)) ∧
    (∀ c, c ∈ columns df' ↔ c = "geometry" ∨ c ∈ columns df) ∧
    convert_to_geopandas df' = inr (df', ret).
Proof.
  intros Hlat Hlong Hnum.
  destruct (points_of_rows (rows df) Hnum) as (pts & Hpts & Hlen & Hlook).
  assert (convert_to_geopandas df = inr (set_column "geometry" pts df, None)) as Hrun.
  { unfold convert_to_geopandas, get_column.
    rewrite !bool_decide_eq_true_2 by done. simpl. by rewrite Hpts. }
  exists (set_column "geometry" pts df), None. split; [done|].
  unfold set_column. cbn [rows columns].
  split; [by apply write_geometry_labels|]. split; [|split].
  - intros i lr Hi. destruct (Hlook i lr Hi) as (x & y & Hx & Hy & Hp).
    exists x, y. split; [done|]. split; [done|].
    by rewrite lookup_zip_with, Hi, Hp.
  - intros c. case_bool_decide as Hg.
    + split; [by right|]. by intros [->|?].
    + rewrite elem_of_app, list_elem_of_singleton. tauto.
  - unfold convert_to_geopandas, get_column. cbn [rows columns].
    assert (∀ c, c ∈ columns df →
              c ∈ (if bool_decide ("geometry" ∈ columns df) then columns df
                   else columns df ++ ["geometry"])) as Hcol.
    { intros c Hc. case_bool_decide; [done|]. apply elem_of_app. by left. }
    rewrite (bool_decide_eq_true_2 ("lat" ∈ _)) by (by apply Hcol).
    rewrite (bool_decide_eq_true_2 ("long" ∈ _)) by (by apply Hcol).
    rewrite !write_geometry_column by done.
    cbn [mbind result_bind mret result_ret]. rewrite Hpts.
    cbn [mbind result_bind mret result_ret].
    unfold set_column. cbn [rows columns].
    rewrite write_geometry_twice. do 3 f_equal.
    case_bool_decide as Hg; [by rewrite bool_decide_eq_true_2|].
    rewrite bool_decide_eq_true_2; [done|].
    apply elem_of_app. right. apply list_elem_of_here.
Qed.

Lemma convert_to_geopandas_in_place_witness :
  ∃ df' ret,
    Geo.convert_to_geopandas Geo.one_point = inr (df', ret) ∧
    (rows df').*1 = (rows Geo.one_point).*1 ∧
    (∀ i lr, rows Geo.one_point !! i = Some lr →
       ∃ x y, Geo.coordinate (lr.2 !! "lat") = inr x ∧
              Geo.coordinate (lr.2 !! "long") = inr y ∧
              rows df' !! i = Some (lr.1, <["geometry" := Point x y]> lr.2)) ∧
    (∀ c, c ∈ columns df' ↔ c = "geometry" ∨ c ∈ columns Geo.one_point) ∧
    Geo.convert_to_geopandas df' = inr (df', ret).
Proof.
  apply (convert_to_geopandas_in_place Geo.one_point).
  - vm_compute. apply list_elem_of_further, list_elem_of_here.
  - vm_compute. do 2 apply list_elem_of_further. apply list_elem_of_here.
  - intros lr Hlr. apply list_elem_of_singleton in Hlr as ->.
    vm_compute. done.
Defined.

Lemma convert_returns_nothing : ¬ Geo.returns_augmented_copy Geo.one_point.
Proof.
  intros (after & ret & Hrun & Hafter & _). vm_compute in Hrun.
  injection Hrun as <- _. vm_compute in Hafter. discriminate Hafter.
Qed.

(** ** Temporal aggregation *)

Import TimeSeries.

Lemma lookup_reduced_row {A} (F : string → option A) (cols : list string) (c : string) :
  (list_to_map (omap (λ c, pair c <$> F c) cols) : gmap string A) !! c
  = if decide (c ∈ cols) then F c else None.
Proof.
  induction cols as [|c0 cols IH].
  - rewrite decide_False by apply not_elem_of_nil. apply lookup_empty.
  - cbn [omap list_omap]. destruct (F c0) as [v|] eqn:Hc0; simpl.
    + destruct (decide (c = c0)) as [->|Hne].
      * rewrite lookup_insert_eq.
        by rewrite decide_True by apply list_elem_of_here.
      * rewrite lookup_insert_ne by done. rewrite IH.
        destruct (decide (c ∈ cols)) as [Hin|Hin].
        -- by rewrite decide_True by (by apply list_elem_of_further).
        -- by rewrite decide_False by (by intros [?|?]%elem_of_cons).
    + rewrite IH. destruct (decide (c = c0)) as [->|Hne].
      * rewrite (decide_True (P := c0 ∈ c0 :: cols)) by apply list_elem_of_here.
        rewrite Hc0. by case_decide.
      * destruct (decide (c ∈ cols)) as [Hin|Hin].
        -- by rewrite decide_True by (by apply list_elem_of_further).
        -- by rewrite decide_False by (by intros [?|?]%elem_of_cons).
Qed.

Lemma filter_fmap_key {A B} `{EqDecision A} (h : A → B) (key : B → A)
  (ds : list A) (d : A) :
  (∀ d', key (h d') = d') → NoDup ds → d ∈ ds →
  filter (λ x, key x = d) (h <$> ds) = [h d].
Proof.
  intros Hkey. induction ds as [|d0 ds IH]; [by intros _ ?%elem_of_nil|].
  rewrite NoDup_cons. intros [Hd0 Hnd] Hd.
  rewrite fmap_cons, filter_cons, Hkey.
  destruct (decide (d0 = d)) as [->|Hne].
  - f_equal. apply filter_none.
    intros x (d' & -> & Hd')%list_elem_of_fmap. rewrite Hkey. by intros ->.
  - apply IH; [done|]. apply elem_of_cons in Hd as [?|?]; [congruence|done].
Qed.

Lemma pd_merge_inner_groups (M S : string → gmap string num) (ds : list string) :
  NoDup ds →
  pd_merge_inner ((λ d, (d, M d)) <$> ds) ((λ d, (d, S d)) <$> ds)
  = (λ d, {| series_date := d; means_cells := M d; stds_cells := S d |}) <$> ds.
Proof.
  intros Hnd. unfold pd_merge_inner.
  assert (∀ l, (∀ d, d ∈ l → d ∈ ds) →
    ((λ d, (d, M d)) <$> l) ≫= (λ m : string * gmap string num,
       (λ s : string * gmap string num,
          {| series_date := m.1; means_cells := m.2; stds_cells := s.2 |})
         <$> filter (λ s, s.1 = m.1) ((λ d, (d, S d)) <$> ds))
    = (λ d, {| series_date := d; means_cells := M d; stds_cells := S d |}) <$> l)
    as Hgen; [|by apply Hgen].
  induction l as [|d l IH]; intros Hl; [done|].
  rewrite !fmap_cons, bind_cons. simpl.
  rewrite (filter_fmap_key (λ d, (d, S d)) fst ds d); [|done|done|].
  - simpl. f_equal. apply IH. intros d' Hd'. by apply Hl, list_elem_of_further.
  - apply Hl, list_elem_of_here.
Qed.

Lemma renamed_std_cell (cells : gmap string num) (v : option num) :
  cells !! "offset50" = v → cells !! "offset50_std" = None →
  rename_cells "offset50" "offset50_std" cells !! "offset50_std" = v.
Proof.
  intros Hv Hnone. unfold rename_cells. rewrite Hv. destruct v as [v|].
  - by rewrite lookup_insert_eq.
  - by rewrite lookup_delete_ne.
Qed.

(** The rows of the aggregated table of one collection. *)
Lemma time_series_groups (df : table) (d : string) :
  "offset50" ∈ num_columns df → "offset50_std" ∉ num_columns df →
  d ∈ (num_rows df).*1 →
  ∃ out r,
    time_series df = inr out ∧
    filter (λ r, series_date r = d) out = [r] ∧
    (∀ c, c ∈ num_columns df →
       means_cells r !! c = Rat <$> mean (group_values df d c)) ∧
    (∀ c, stds_cells r !! c =
          if decide (c = "offset50_std") then std (group_values df d "offset50")
          else None) ∧
    (∀ v, std [v] = None) ∧
    (∀ v1 v2 vs,
       let all := v1 :: v2 :: vs in
       mean all = Some (Qdiv (Qsum all) (Qlength all)) ∧
       std all = Some (Root (sample_variance all (Qdiv (Qsum all) (Qlength all))))).
Proof.
  intros Hcol Hnew Hd.
  set (M := λ d, (list_to_map
        (omap (λ c, pair c <$> (Rat <$> mean (group_values df d c))) (num_columns df))
        : gmap string num)).
  set (S0 := λ d, (list_to_map
        (omap (λ c, pair c <$> std (group_values df d c)) (num_columns df))
        : gmap string num)).
  set (S := λ d, match rename_cells "offset50" "offset50_std" (S0 d) !! "offset50_std" with
                 | Some v => ({["offset50_std" := v]} : gmap string num)
                 | None => ∅
                 end).
  assert (time_series df
          = inr ((λ d, {| series_date := d; means_cells := M d; stds_cells := S d |})
                   <$> group_dates df)) as Hrun.
  { unfold time_series, select_column, reduce_groups.
    rewrite bool_decide_eq_true_2.
    - cbn [mbind result_bind mret result_ret]. rewrite <- !list_fmap_compose.
      f_equal. apply (pd_merge_inner_groups M S), NoDup_remove_dups.
    - unfold rename_columns. apply list_elem_of_fmap. exists "offset50".
      split; [done|]. done. }
  exists ((λ d, {| series_date := d; means_cells := M d; stds_cells := S d |})
            <$> group_dates df),
         {| series_date := d; means_cells := M d; stds_cells := S d |}.
  split; [done|]. split; [|split; [|split; [|split]]].
  - apply (filter_fmap_key
             (λ d, {| series_date := d; means_cells := M d; stds_cells := S d |})
             series_date); [done|apply NoDup_remove_dups|].
    by apply elem_of_remove_dups.
  - intros c Hc. simpl. unfold M. rewrite lookup_reduced_row.
    by rewrite decide_True.
  - intros c. simpl. unfold S.
    rewrite (renamed_std_cell (S0 d) (std (group_values df d "offset50"))).
    + destruct (std _) as [v|]; case_decide as Hc; subst.
      * by rewrite lookup_singleton_eq.
      * by rewrite lookup_singleton_ne.
      * done.
      * done.
    + unfold S0. rewrite lookup_reduced_row. by rewrite decide_True.
    + unfold S0. rewrite lookup_reduced_row. by rewrite decide_False.
  - done.
  - done.
Qed.

Lemma map_result_lookup {A B} (f : A → result B) (l : list A) :
  (∀ x, x ∈ l → ∃ y, f x = inr y) →
  ∃ out, map_result f l = inr out ∧
         ∀ i x, l !! i = Some x → ∃ y, f x = inr y ∧ out !! i = Some y.
Proof.
  induction l as [|x l IH]; intros Hall.
  - exists []. split; [done|]. by intros i x.
  - destruct (Hall x) as [y Hy]; [apply list_elem_of_here|].
    destruct IH as (out & Hout & Hlook).
    { intros x' Hx'. by apply Hall, list_elem_of_further. }
    exists (y :: out). split.
    + simpl. rewrite Hy. simpl. by rewrite Hout.
    + intros [|i] x'; simpl; [|by apply Hlook]. intros [= <-]. eauto.
Qed.

Lemma time_series_returns (df : table) :
  "offset50" ∈ num_columns df → ∃ out, time_series df = inr out.
Proof.
  intros Hcol. unfold time_series, select_column.
  rewrite bool_decide_eq_true_2; [by eauto|].
  unfold rename_columns. apply list_elem_of_fmap. by exists "offset50".
Qed.

(** C4, as the code has it: on a dict whose vegetation tables (those named
    [COPERNICUS/S2] or with [LANDSAT] in their name) all have an [offset50]
    column, [make_time_series] returns a dict in which every other table is
    left as it was and every vegetation table is replaced by its time series.
    For a vegetation table with no column [offset50_std] yet, the time series
    has exactly one row for every date of the table; in it each numeric
    column holds the mean of the values the rows of that date hold in the
    column, and the only column taken from the standard deviations is
    [offset50_std], the sample standard deviation of the [offset50] values of
    the date, which is NaN for a single value.  No other column has a
    companion standard deviation. *)
Theorem time_series_row (dfs : list (string * table)) (i : nat)
  (col_name : string) (df : table) (d : string) :
  Forall (λ kv, is_vegetation_name kv.1 = true → "offset50" ∈ num_columns kv.2) dfs →
  dfs !! i = Some (col_name, df) → is_vegetation_name col_name = true →
  "offset50_std" ∉ num_columns df → d ∈ (num_rows df).*1 →
  ∃ res out r,
    make_time_series dfs = inr res ∧
    res !! i = Some (col_name, Series out) ∧
    (∀ j name t, dfs !! j = Some (name, t) → is_vegetation_name name = false →
       res !! j = Some (name, Unchanged t)) ∧
    filter (λ r, series_date r = d) out = [r] ∧
    (∀ c, c ∈ num_columns df →
       means_cells r !! c = Rat <$> mean (group_values df d c)) ∧
    (∀ c, stds_cells r !! c =
          if decide (c = "offset50_std") then std (group_values df d "offset50")
          else None) ∧
    (∀ v, std [v] = None) ∧
    (∀ v1 v2 vs,
       let all := v1 :: v2 :: vs in
       mean all = Some (Qdiv (Qsum all) (Qlength all)) ∧
       std all = Some (Root (sample_variance all (Qdiv (Qsum all) (Qlength all))))).
Proof.
  intros Hall Hi Hveg Hnew Hd.
  assert ("offset50" ∈ num_columns df) as Hcol.
  { rewrite Forall_forall in Hall.
    apply (Hall (col_name, df)); [|done]. by eapply list_elem_of_lookup_2. }
  destruct (time_series_groups df d Hcol Hnew Hd) as (out & r & Hrun & Hrow).
  unfold make_time_series.
  destruct (map_result_lookup
              (λ kv : string * table,
                 if is_vegetation_name kv.1
                 then rs ← time_series kv.2; mret (kv.1, Series rs)
                 else mret (kv.1, Unchanged kv.2)) dfs) as (res & Hres & Hlook).
  { intros [name t] Hin. simpl. destruct (is_vegetation_name name) eqn:Hname; [|by eauto].
    rewrite Forall_forall in Hall.
    destruct (time_series_returns t) as [o ->]; [by apply (Hall (name, t))|].
    simpl. eauto. }
  exists res, out, r. split; [done|]. split; [|split; [|done]].
  - destruct (Hlook i _ Hi) as (y & Hy & ->). simpl in Hy.
    rewrite Hveg, Hrun in Hy. simpl in Hy. by injection Hy as <-.
  - intros j name t Hj Hname. destruct (Hlook j _ Hj) as (y & Hy & ->).
    simpl in Hy. rewrite Hname in Hy. by injection Hy as <-.
Qed.

Lemma time_series_row_witness :
  ∃ res out r,
    make_time_series [("ECMWF/ERA5/MONTHLY", two_rows); ("COPERNICUS/S2", two_rows)]
      = inr res ∧
    res !! 1%nat = Some ("COPERNICUS/S2", Series out) ∧
    (∀ j name t,
       [("ECMWF/ERA5/MONTHLY", two_rows); ("COPERNICUS/S2", two_rows)] !! j
         = Some (name, t) →
       is_vegetation_name name = false → res !! j = Some (name, Unchanged t)) ∧
    filter (λ r, series_date r = "2020-01-01") out = [r] ∧
    (∀ c, c ∈ num_columns two_rows →
       means_cells r !! c = Rat <$> mean (group_values two_rows "2020-01-01" c)) ∧
    (∀ c, stds_cells r !! c =
          if decide (c = "offset50_std")
          then std (group_values two_rows "2020-01-01" "offset50")
          else None) ∧
    (∀ v, std [v] = None) ∧
    (∀ v1 v2 vs,
       let all := v1 :: v2 :: vs in
       mean all = Some (Qdiv (Qsum all) (Qlength all)) ∧
       std all = Some (Root (sample_variance all (Qdiv (Qsum all) (Qlength all))))).
Proof.
  apply (time_series_row
           [("ECMWF/ERA5/MONTHLY", two_rows); ("COPERNICUS/S2", two_rows)]
           1 "COPERNICUS/S2" two_rows "2020-01-01").
  - repeat (apply Forall_cons; split;
              [intros _; vm_compute; apply list_elem_of_further, list_elem_of_here|]).
    apply Forall_nil_2.
  - reflexivity.
  - reflexivity.
  - vm_compute. intros H. repeat (apply elem_of_cons in H as [H|H]; [discriminate H|]).
    by apply elem_of_nil in H.
  - vm_compute. apply list_elem_of_here.
Defined.

Lemma latitude_has_no_std : ¬ std_column_per_metric two_rows.
Proof.
  intros H.
  destruct (time_series_groups two_rows "2020-01-01")
    as (out & r & Hrun & Hr & _ & Hstd & _).
  - vm_compute. apply list_elem_of_further, list_elem_of_here.
  - vm_compute. intros Hin.
    repeat (apply elem_of_cons in Hin as [Hin|Hin]; [discriminate Hin|]).
    by apply elem_of_nil in Hin.
  - vm_compute. apply list_elem_of_here.
  - destruct (H out "2020-01-01" "latitude" Hrun) as (r' & Hr' & Hd & _ & Hstd').
    + vm_compute. apply list_elem_of_here.
    + vm_compute. apply list_elem_of_here.
    + assert (r' ∈ filter (λ r, series_date r = "2020-01-01") out) as Hin.
      { by apply list_elem_of_filter. }
      rewrite Hr in Hin. apply list_elem_of_singleton in Hin as ->.
      rewrite Hstd in Hstd'. vm_compute in Hstd'. discriminate Hstd'.
Qed.

(** * Further properties *)

(** ** The greedy loop of [coarse_dataframe] *)

Lemma str_inj (j k : nat) : str j = str k → j = k.
Proof.
  unfold str. intros H. apply DecimalNat.Unsigned.to_uint_inj.
  apply (f_equal NilEmpty.uint_of_string) in H.
  rewrite !NilEmpty.usu in H. by injection H.
Qed.

(** The lists of a step, for any distance. *)
Lemma insert_sorted_elements (x y : entry) (l : list entry) :
  y ∈ insert_sorted x l ↔ y = x ∨ y ∈ l.
Proof.
  induction l as [|z l IH]; simpl.
  - by rewrite list_elem_of_singleton, elem_of_nil, (right_id False or).
  - case_bool_decide; [by rewrite elem_of_cons|].
    rewrite !elem_of_cons, IH. tauto.
Qed.

Lemma sort_by_distance_elements (y : entry) (l : list entry) :
  y ∈ sort_by_distance l ↔ y ∈ l.
Proof.
  induction l as [|x l IH]; simpl; [done|].
  by rewrite insert_sorted_elements, IH, elem_of_cons.
Qed.

Lemma insert_unique_elements (x y : Z) (l : list Z) :
  y ∈ insert_unique x l ↔ y = x ∨ y ∈ l.
Proof.
  induction l as [|z l IH]; simpl.
  - by rewrite list_elem_of_singleton, elem_of_nil, (right_id False or).
  - repeat case_bool_decide.
    + by rewrite elem_of_cons.
    + subst. rewrite !elem_of_cons. tauto.
    + rewrite !elem_of_cons, IH. tauto.
Qed.

Lemma np_unique_elements (y : Z) (l : list Z) : y ∈ np_unique l ↔ y ∈ l.
Proof.
  induction l as [|x l IH]; simpl; [done|].
  by rewrite insert_unique_elements, IH, elem_of_cons.
Qed.

Lemma candidates_all_rows {Geometry} (distance : Geometry → Geometry → Z)
  (df : list (@row Geometry)) (n : nat) (rn : @row Geometry) :
  df !! n = Some rn → category rn = Unassigned →
  ∃ l, candidates distance df n = inr l ∧
       ∀ e, e ∈ l ↔ ∃ i r, df !! i = Some r ∧
                           e = (i, distance (geometry r) (geometry rn), Unassigned).
Proof.
  intros Hn Hc. unfold candidates. rewrite Hn, Hc.
  eexists; split; [done|]. intros e. unfold keep_unassigned.
  rewrite list_elem_of_filter, sort_by_distance_elements, elem_of_distances_from.
  split; [tauto|]. intros (i & r & Hr & ->). split; [done|]. eauto.
Qed.

Lemma insert_unique_sorted (x : Z) (l : list Z) :
  StronglySorted Z.lt l → StronglySorted Z.lt (insert_unique x l).
Proof.
  induction 1 as [|y l Hl IH Hy]; simpl.
  - repeat constructor.
  - repeat case_bool_decide.
    + constructor; [by constructor|]. constructor; [done|].
      eapply Forall_impl; [exact Hy|]. intros z Hz. simpl in Hz. lia.
    + by constructor.
    + constructor; [done|]. apply Forall_forall. intros z Hz.
      apply insert_unique_elements in Hz as [->|Hz]; [lia|].
      rewrite Forall_forall in Hy. by apply Hy.
Qed.

Lemma np_unique_sorted (l : list Z) : StronglySorted Z.lt (np_unique l).
Proof.
  induction l as [|x l IH]; simpl; [constructor|]. by apply insert_unique_sorted.
Qed.

Lemma sorted_lt_NoDup (l : list Z) : StronglySorted Z.lt l → NoDup l.
Proof.
  induction 1 as [|y l Hl IH Hy]; constructor; [|done].
  intros Hin. rewrite Forall_forall in Hy. specialize (Hy y Hin). lia.
Qed.

Lemma np_unique_same_elements (l1 l2 : list Z) :
  (∀ x, x ∈ l1 ↔ x ∈ l2) → np_unique l1 = np_unique l2.
Proof.
  intros Hsame.
  apply (StronglySorted_unique_strong Z.lt); try apply np_unique_sorted.
  - intros x1 x2 _ _ ? ?. lia.
  - apply NoDup_Permutation; try apply sorted_lt_NoDup, np_unique_sorted.
    intros x. by rewrite !np_unique_elements.
Qed.

Lemma length_insert_unique (x : Z) (l : list Z) :
  (length (insert_unique x l) ≤ S (length l))%nat.
Proof.
  induction l as [|y l IH]; simpl; [done|].
  repeat case_bool_decide; simpl; lia.
Qed.

Lemma length_np_unique (l : list Z) : (length (np_unique l) ≤ length l)%nat.
Proof.
  induction l as [|x l IH]; simpl; [done|].
  pose proof (length_insert_unique x (np_unique l)). lia.
Qed.

Lemma foldl_max_start (a : Z) (l : list Z) : a ≤ foldl Z.max a l.
Proof.
  revert a. induction l as [|y l IH]; intros a; simpl; [lia|].
  specialize (IH (Z.max a y)). lia.
Qed.

Lemma foldl_max_ge (a : Z) (l : list Z) (x : Z) :
  x ∈ a :: l → x ≤ foldl Z.max a l.
Proof.
  revert a. induction l as [|y l IH]; intros a Hx; simpl.
  - apply list_elem_of_singleton in Hx as ->. lia.
  - pose proof (foldl_max_start (Z.max a y) l) as Hmax.
    apply elem_of_cons in Hx as [->|Hx]; [lia|].
    apply elem_of_cons in Hx as [->|Hx]; [lia|].
    apply IH. by apply list_elem_of_further.
Qed.

Lemma np_max_ge (l : list Z) (m x : Z) : np_max l = inr m → x ∈ l → x ≤ m.
Proof.
  destruct l as [|a l]; [done|]. intros [= <-]. apply foldl_max_ge.
Qed.

Section coarse_loop.
Context {Geometry : Type}.
Variable distance : Geometry → Geometry → Z.

(** What a step writes when the radius is [m]. *)
Lemma radius_of_candidates (df : list (@row Geometry)) (n : nat) (rn : @row Geometry)
  (side_square : nat) :
  df !! n = Some rn → category rn = Unassigned →
  ∃ l, candidates distance df n = inr l ∧
       max_distance l side_square
       = np_max (take (2 * side_square)
                   (np_unique ((λ r, distance (geometry r) (geometry rn)) <$> df))) ∧
       ∀ m i r, df !! i = Some r →
         (i ∈ within l m ↔ distance (geometry r) (geometry rn) ≤ m).
Proof.
  intros Hn Hc. destruct (candidates_all_rows distance df n rn Hn Hc) as (l & Hl & Hin).
  exists l. split; [done|]. split.
  - unfold max_distance. f_equal. f_equal. apply np_unique_same_elements.
    intros x. rewrite !list_elem_of_fmap. split.
    + intros (e & -> & He). apply Hin in He as (i & r & Hr & ->).
      exists r. split; [done|]. by eapply list_elem_of_lookup_2.
    + intros (r & -> & Hr). apply list_elem_of_lookup in Hr as [i Hi].
      exists (i, distance (geometry r) (geometry rn), Unassigned).
      split; [done|]. apply Hin. eauto.
  - intros m i r Hi. rewrite elem_of_within. split.
    + intros (e & He & <- & Hle). apply Hin in He as (i' & r' & Hr' & ->).
      simpl in *. by simplify_eq.
    + intros Hle. exists (i, distance (geometry r) (geometry rn), Unassigned).
      split; [apply Hin; eauto|done].
Qed.

Lemma loop_body_unassigned (side_square n counter : nat)
  (df : list (@row Geometry)) (rn : @row Geometry) (m : Z) :
  df !! n = Some rn → category rn = Unassigned →
  np_max (take (2 * side_square)
            (np_unique ((λ r, distance (geometry r) (geometry rn)) <$> df))) = inr m →
  loop_body distance side_square n (df, counter)
  = inr ((λ r, if bool_decide (distance (geometry r) (geometry rn) ≤ m)
               then set_category (Label (str counter)) r else r) <$> df,
         S counter).
Proof.
  intros Hn Hc Hm.
  destruct (radius_of_candidates df n rn side_square Hn Hc) as (l & Hl & Hmax & Hin).
  unfold loop_body. rewrite Hn, bool_decide_eq_true_2 by done.
  rewrite Hl. cbn [mbind result_bind]. rewrite Hmax, Hm. cbn [mbind result_bind].
  unfold mret, result_ret. do 2 f_equal.
  apply list_eq. intros i. rewrite lookup_loc_set_category, list_lookup_fmap.
  destruct (df !! i) as [r|] eqn:Hi; [|by case_decide].
  simpl. specialize (Hin m i r Hi).
  case_decide as Hw; case_bool_decide as Hd; try done; tauto.
Qed.

(** X1: one iteration of the loop.  At a row that already has a category
    nothing changes.  At a row [n] still at [-1], with [m] the largest of the
    first [2 * side_square] distinct distances from row [n] to the rows of the
    whole table, every row within distance [m] of row [n] is given the string
    of the counter, whether or not it had a category before, every other row
    is left as it is, and the counter is incremented. *)
Theorem loop_body_relabels (side_square n counter : nat)
  (df : list (@row Geometry)) (rn : @row Geometry) :
  df !! n = Some rn →
  (category rn ≠ Unassigned →
     loop_body distance side_square n (df, counter) = inr (df, counter)) ∧
  (category rn = Unassigned →
     ∀ m, np_max (take (2 * side_square)
                    (np_unique ((λ r, distance (geometry r) (geometry rn)) <$> df)))
          = inr m →
          loop_body distance side_square n (df, counter)
          = inr ((λ r, if bool_decide (distance (geometry r) (geometry rn) ≤ m)
                       then set_category (Label (str counter)) r else r) <$> df,
                 S counter)).
Proof.
  intros Hn. split.
  - intros Hc. unfold loop_body. by rewrite Hn, bool_decide_eq_false_2.
  - intros Hc m Hm. by apply loop_body_unassigned.
Qed.

(** A step keeps the length of the table and writes no column but
    [category]; the labels it leaves are the old ones or the string of the
    counter. *)
Lemma loop_body_outcome (side_square n counter counter' : nat)
  (df df' : list (@row Geometry)) :
  loop_body distance side_square n (df, counter) = inr (df', counter') →
  (counter' = counter ∨ counter' = S counter) ∧
  ∃ idx, df' = loc_set_category idx (Label (str counter)) df ∧
         (counter' = counter → idx = []).
Proof.
  unfold loop_body. destruct (df !! n) as [rn|]; [|done].
  case_bool_decide.
  - destruct (candidates distance df n) as [|l]; [done|]. cbn [mbind result_bind].
    destruct (max_distance l side_square) as [|m]; [done|]. cbn [mbind result_bind].
    intros [= <- <-]. split; [by right|]. eexists. split; [done|]. lia.
  - intros [= <- <-]. split; [by left|]. by exists [].
Qed.

Lemma loc_set_category_fmap {B} (f : @row Geometry → B) (idx : list nat)
  (c : cell) (df : list (@row Geometry)) :
  (∀ r, f (set_category c r) = f r) →
  f <$> loc_set_category idx c df = f <$> df.
Proof.
  intros Hf. apply list_eq. intros i.
  rewrite !list_lookup_fmap, lookup_loc_set_category.
  case_decide; [|done]. destruct (df !! i); simpl; by rewrite ?Hf.
Qed.

Lemma elem_of_loc_set_category (idx : list nat) (c : cell)
  (df : list (@row Geometry)) (r : @row Geometry) :
  r ∈ loc_set_category idx c df →
  ∃ r0, r0 ∈ df ∧ (r = r0 ∨ r = set_category c r0).
Proof.
  intros [i Hi]%list_elem_of_lookup. rewrite lookup_loc_set_category in Hi.
  case_decide.
  - destruct (df !! i) as [r0|] eqn:Hr0; [|done]. injection Hi as <-.
    exists r0. split; [by eapply list_elem_of_lookup_2|by right].
  - exists r. split; [by eapply list_elem_of_lookup_2|by left].
Qed.

Lemma for_each_invariant {A S} (P : S → Prop) (body : A → S → result S)
  (xs : list A) (st st' : S) :
  (∀ x s s', x ∈ xs → body x s = inr s' → P s → P s') →
  P st → for_each body xs st = inr st' → P st'.
Proof.
  revert st. induction xs as [|x xs IH]; intros st Hstep HP; simpl.
  - by intros [= <-].
  - destruct (body x st) as [|s1] eqn:Hx; [done|]. simpl. apply IH.
    + intros y s s' Hy. apply Hstep. by apply list_elem_of_further.
    + eapply Hstep; [apply list_elem_of_here|done..].
Qed.

Lemma for_each_loop_counter (side_square : nat) (xs : list nat)
  (df df' : list (@row Geometry)) (k k' : nat) :
  for_each (loop_body distance side_square) xs (df, k) = inr (df', k') →
  (k' ≤ k + length xs)%nat.
Proof.
  revert df k. induction xs as [|x xs IH]; intros df k; cbn [for_each].
  - intros [= <- <-]. simpl. lia.
  - destruct (loop_body distance side_square x (df, k)) as [|[df1 k1]] eqn:Hx;
      [done|]. cbn [mbind result_bind length]. intros Hrun. apply IH in Hrun.
    apply loop_body_outcome in Hx as [Hk _]. lia.
Qed.

(** X5: the loop of [coarse_dataframe] writes the [category] column only:
    when it ends, the table has as many rows as before, with the dates and
    geometries they had, in the same order. *)
Theorem loop_writes_only_category (data_df df : list (@row Geometry))
  (side_square : nat) :
  assign_categories distance data_df side_square = inr df →
  length df = length data_df ∧
  date <$> df = date <$> data_df ∧
  geometry <$> df = geometry <$> data_df.
Proof.
  unfold assign_categories.
  destruct (for_each _ _ _) as [|[df' k]] eqn:Hrun; [done|].
  simpl. intros [= <-].
  assert (date <$> df' = date <$> init_categories data_df ∧
          geometry <$> df' = geometry <$> init_categories data_df) as [Hd Hg].
  { apply (for_each_invariant
             (λ st, date <$> st.1 = date <$> init_categories data_df ∧
                    geometry <$> st.1 = geometry <$> init_categories data_df)
             _ _ _ (df', k) ) in Hrun; [done| |done].
    intros x [d c] [d' c'] _ Hx. simpl.
    apply loop_body_outcome in Hx as (_ & idx & -> & _).
    by rewrite !loc_set_category_fmap. }
  unfold init_categories in *. rewrite <- !list_fmap_compose in Hd, Hg.
  split; [|done].
  rewrite <- (length_fmap date df'), Hd. by rewrite length_fmap.
Qed.

(** X2: after the loop has visited the first [n] rows, the counter is at
    most [n], every category in the table is still [-1] or the decimal string
    of a number below the counter, and no row holds the string of the counter
    itself: the label the next step writes is new. *)
Theorem labels_below_counter (data_df df : list (@row Geometry))
  (side_square n k : nat) :
  for_each (loop_body distance side_square) (seq 0 n)
    (init_categories data_df, 0%nat) = inr (df, k) →
  (k ≤ n)%nat ∧
  (∀ r, r ∈ df →
     category r = Unassigned ∨ ∃ j, (j < k)%nat ∧ category r = Label (str j)) ∧
  (∀ r, r ∈ df → category r ≠ Label (str k)).
Proof.
  intros Hrun.
  assert (∀ r, r ∈ df →
            category r = Unassigned ∨ ∃ j, (j < k)%nat ∧ category r = Label (str j))
    as Hlab.
  { apply (for_each_invariant
             (λ st, ∀ r, r ∈ st.1 →
                category r = Unassigned ∨
                ∃ j, (j < st.2)%nat ∧ category r = Label (str j))
             (loop_body distance side_square) (seq 0 n)
             (init_categories data_df, 0%nat) (df, k)); [| |exact Hrun].
    - intros x [d c] [d' c'] _ Hx HP r Hr. simpl in *.
      apply loop_body_outcome in Hx as ([->| ->] & idx & -> & Hidx).
      + rewrite Hidx in Hr by done. by apply HP.
      + apply elem_of_loc_set_category in Hr as (r0 & Hr0 & [->| ->]).
        * destruct (HP r0 Hr0) as [?|(j & ? & ?)]; [by left|].
          right. exists j. split; [lia|done].
        * right. exists c. split; [lia|done].
    - simpl. intros r (r0 & -> & _)%list_elem_of_fmap. by left. }
  split; [|split; [done|]].
  - apply for_each_loop_counter in Hrun. rewrite length_seq in Hrun. lia.
  - intros r Hr Hk. destruct (Hlab r Hr) as [Hu|(j & Hj & Hl)]; [congruence|].
    rewrite Hl in Hk. injection Hk as Hk%str_inj. lia.
Qed.

Lemma loop_skips_labelled (side_square : nat) (xs : list nat)
  (df : list (@row Geometry)) (k : nat) :
  (∀ r, r ∈ df → category r ≠ Unassigned) →
  (∀ x, x ∈ xs → (x < length df)%nat) →
  for_each (loop_body distance side_square) xs (df, k) = inr (df, k).
Proof.
  intros Hlab. induction xs as [|x xs IH]; intros Hxs; [done|].
  destruct (lookup_lt_is_Some_2 df x) as [rx Hrx]; [apply Hxs, list_elem_of_here|].
  simpl. unfold loop_body at 1. rewrite Hrx.
  rewrite bool_decide_eq_false_2 by (by eapply Hlab, list_elem_of_lookup_2).
  simpl. apply IH. intros y Hy. by apply Hxs, list_elem_of_further.
Qed.

(** X3: a table with at least one row and at most [2 * side_square] rows is
    labelled in a single step: every row gets the category ["0"], and
    [coarse_dataframe] returns the blocks of the table grouped by date, each
    keyed ["0_<date>"]. *)
Theorem small_table_one_category (data_df : list (@row Geometry))
  (side_square : nat) :
  data_df ≠ [] → (length data_df ≤ 2 * side_square)%nat →
  assign_categories distance data_df side_square
  = inr (set_category (Label "0") <$> data_df) ∧
  coarse_dataframe distance data_df side_square
  = inr (dissolve ((λ r, set_category (Label ("0_" +:+ date r)) r) <$> data_df)).
Proof.
  intros Hne Hlen.
  assert (assign_categories distance data_df side_square
          = inr (set_category (Label "0") <$> data_df)) as Hrun.
  { unfold assign_categories. destruct data_df as [|r0 rest]; [done|].
    set (df0 := init_categories (r0 :: rest)).
    set (rn := set_category Unassigned r0).
    set (u := np_unique ((λ r, distance (geometry r) (geometry rn)) <$> df0)).
    assert (length df0 = S (length rest)) as Hlen0.
    { unfold df0, init_categories. by rewrite length_fmap. }
    assert (df0 !! 0%nat = Some rn) as Hrn by done.
    assert (take (2 * side_square) u = u) as Htake.
    { apply take_ge. unfold u. etransitivity; [apply length_np_unique|].
      rewrite length_fmap, Hlen0. simpl in Hlen. lia. }
    destruct (np_max_is_inr u) as [m Hm].
    { intros Hu. assert (distance (geometry rn) (geometry rn) ∈ u) as Hin.
      { apply np_unique_elements, list_elem_of_fmap. exists rn.
        split; [done|]. by eapply list_elem_of_lookup_2. }
      rewrite Hu in Hin. by apply elem_of_nil in Hin. }
    rewrite Hlen0. cbn [seq for_each].
    rewrite (loop_body_unassigned side_square 0 0 df0 rn m);
      [|done|done|by fold u; rewrite Htake].
    cbn [mbind result_bind].
    assert ((λ r, if bool_decide (distance (geometry r) (geometry rn) ≤ m)
                  then set_category (Label (str 0)) r else r) <$> df0
            = set_category (Label "0") <$> (r0 :: rest)) as ->.
    { unfold df0 at 1, init_categories.
      rewrite <- list_fmap_compose. apply list_fmap_ext. intros i r Hr. simpl.
      rewrite bool_decide_eq_true_2; [done|].
      apply (np_max_ge u); [done|]. apply np_unique_elements.
      apply list_elem_of_fmap. exists (set_category Unassigned r). split; [done|].
      apply (list_elem_of_fmap_2 (set_category Unassigned)).
      by eapply list_elem_of_lookup_2. }
    rewrite loop_skips_labelled; [done| |].
    - by intros r (r' & -> & _)%list_elem_of_fmap.
    - intros x Hx%elem_of_seq. rewrite length_fmap. simpl. lia. }
  split; [done|]. unfold coarse_dataframe. rewrite Hrun. cbn [mbind result_bind].
  unfold str_cat_date.
  assert (forallb has_label (set_category (Label "0") <$> data_df) = true) as ->.
  { apply forallb_forall. intros r Hr%list_elem_of_In.
    by apply list_elem_of_fmap in Hr as (r' & -> & _). }
  assert (existsb has_label (set_category (Label "0") <$> data_df) = true) as ->.
  { destruct data_df; done. }
  simpl. by rewrite <- list_fmap_compose.
Qed.

End coarse_loop.

Lemma loop_body_relabels_witness :
  let df := init_categories three_points in
  let rn := Row "2020-01-01" 0 Unassigned in
  df !! 0%nat = Some rn ∧
  loop_body line_distance 1 0 (df, 0%nat)
  = inr ((λ r, if bool_decide (line_distance (geometry r) (geometry rn) ≤ 1)
               then set_category (Label (str 0)) r else r) <$> df, 1%nat).
Proof.
  split; [reflexivity|].
  refine (proj2 (loop_body_relabels line_distance 1 0 0
                   (init_categories three_points)
                   (Row "2020-01-01" 0 Unassigned) _) _ 1 _); reflexivity.
Defined.

Lemma loop_writes_only_category_witness :
  ∃ df, assign_categories line_distance three_points 1 = inr df ∧
    length df = length three_points ∧
    date <$> df = date <$> three_points ∧
    geometry <$> df = geometry <$> three_points.
Proof.
  eexists. split; [vm_compute; reflexivity|].
  apply (loop_writes_only_category line_distance three_points _ 1).
  vm_compute. reflexivity.
Defined.

Lemma labels_below_counter_witness :
  ∃ df k,
    for_each (loop_body line_distance 1) (seq 0 2)
      (init_categories three_points, 0%nat) = inr (df, k) ∧
    (k ≤ 2)%nat ∧
    (∀ r, r ∈ df →
       category r = Unassigned ∨ ∃ j, (j < k)%nat ∧ category r = Label (str j)) ∧
    (∀ r, r ∈ df → category r ≠ Label (str k)).
Proof.
  eexists _, _. split; [vm_compute; reflexivity|].
  apply (labels_below_counter line_distance three_points _ 1 2 _).
  vm_compute. reflexivity.
Defined.

Lemma small_table_one_category_witness :
  three_points ≠ [] ∧ (length three_points ≤ 2 * 2)%nat ∧
  assign_categories line_distance three_points 2
  = inr (set_category (Label "0") <$> three_points) ∧
  coarse_dataframe line_distance three_points 2
  = inr (dissolve ((λ r, set_category (Label ("0_" +:+ date r)) r) <$> three_points)).
Proof.
  assert (three_points ≠ []) as H1 by discriminate.
  assert (length three_points ≤ 2 * 2)%nat as H2 by (vm_compute; lia).
  split; [exact H1|]. split; [exact H2|].
  exact (small_table_one_category line_distance three_points 2 H1 H2).
Defined.

(** ** The blocks of [coarse_dataframe] *)

Lemma elem_of_concat {A} (x : A) (ls : list (list A)) :
  x ∈ concat ls ↔ ∃ l, x ∈ l ∧ l ∈ ls.
Proof.
  induction ls as [|l ls IH]; simpl.
  - split; [by intros ?%elem_of_nil|]. by intros (l & _ & ?%elem_of_nil).
  - rewrite elem_of_app, IH. split.
    + intros [Hx|(l' & Hx & Hl')].
      * exists l. split; [done|apply list_elem_of_here].
      * exists l'. split; [done|by apply list_elem_of_further].
    + intros (l' & Hx & [->|Hl']%elem_of_cons); [by left|]. right. eauto.
Qed.

Lemma dissolve_same_block {Geometry} (df : list (@row Geometry)) (i j : nat)
  (ri rj : @row Geometry) :
  df !! i = Some ri → df !! j = Some rj →
  (∃ b, b ∈ dissolve df ∧ i ∈ members b ∧ j ∈ members b) ↔
  (category ri = category rj ∧ date ri = date rj).
Proof.
  intros Hi Hj. destruct (dissolve_partition df) as (Hnd & Hperm & Hkey).
  assert (∀ n r, df !! n = Some r → ∃ b, b ∈ dissolve df ∧ n ∈ members b) as Hcov.
  { intros n r Hn.
    assert (n ∈ concat (members <$> dissolve df)) as Hin.
    { rewrite Hperm. apply elem_of_seq. apply lookup_lt_Some in Hn. lia. }
    apply elem_of_concat in Hin as (l & Hnl & Hl).
    apply list_elem_of_fmap in Hl as (b & -> & Hb). eauto. }
  split.
  - intros (b & Hb & Hbi & Hbj).
    destruct (Hkey b i Hb Hbi) as (r1 & Hr1 & Hk1).
    destruct (Hkey b j Hb Hbj) as (r2 & Hr2 & Hk2).
    rewrite Hi in Hr1. rewrite Hj in Hr2. injection Hr1 as <-. injection Hr2 as <-.
    rewrite Hk1 in Hk2. by injection Hk2.
  - intros [Hc Hd].
    destruct (Hcov i ri Hi) as (bi & Hbi & Hibi).
    destruct (Hcov j rj Hj) as (bj & Hbj & Hjbj).
    destruct (Hkey bi i Hbi Hibi) as (r1 & Hr1 & Hk1).
    destruct (Hkey bj j Hbj Hjbj) as (r2 & Hr2 & Hk2).
    rewrite Hi in Hr1. rewrite Hj in Hr2. injection Hr1 as <-. injection Hr2 as <-.
    assert (bi = bj) as ->.
    { apply (NoDup_fmap_eq block_key (dissolve df)); [done..|].
      by rewrite Hk1, Hk2, Hc, Hd. }
    eauto.
Qed.

Lemma cat_date_key {Geometry} (ri rj : @row Geometry) :
  has_label ri = true → has_label rj = true →
  (category (cat_date ri) = category (cat_date rj) ∧
   date (cat_date ri) = date (cat_date rj)) ↔
  (category ri = category rj ∧ date ri = date rj).
Proof.
  unfold has_label, cat_date.
  destruct ri as [di gi [|si]], rj as [dj gj [|sj]]; simpl; try done.
  intros _ _. split.
  - intros [[= Hs] ->]. split; [|done]. f_equal.
    by apply (append_inj_l si sj ("_" +:+ dj)).
  - by intros [[= ->] ->].
Qed.

Section coarse_blocks.
Context {Geometry : Type}.
Variable distance : Geometry → Geometry → Z.

(** X4: when [coarse_dataframe] returns, two rows of the table are
    aggregated into the same block exactly when the loop gave them the same
    category and they carry the same date. *)
Theorem same_block_iff (data_df df : list (@row Geometry)) (side_square : nat)
  (blocks : list block) (i j : nat) (ri rj : @row Geometry) :
  assign_categories distance data_df side_square = inr df →
  coarse_dataframe distance data_df side_square = inr blocks →
  df !! i = Some ri → df !! j = Some rj →
  (∃ b, b ∈ blocks ∧ i ∈ members b ∧ j ∈ members b) ↔
  (category ri = category rj ∧ date ri = date rj).
Proof.
  intros Hrun Hco Hi Hj. unfold coarse_dataframe in Hco. rewrite Hrun in Hco.
  cbn [mbind result_bind] in Hco. unfold str_cat_date in Hco.
  destruct (existsb has_label df); [|done].
  destruct (forallb has_label df) eqn:Hall; [|done].
  simpl in Hco. injection Hco as <-.
  rewrite forallb_forall in Hall.
  rewrite (dissolve_same_block (cat_date <$> df) i j (cat_date ri) (cat_date rj));
    [|by rewrite list_lookup_fmap, ?Hi, ?Hj..].
  apply cat_date_key; apply Hall, list_elem_of_In; by eapply list_elem_of_lookup_2.
Qed.

End coarse_blocks.

Lemma same_block_iff_witness :
  ∃ df blocks,
    assign_categories line_distance three_points 1 = inr df ∧
    coarse_dataframe line_distance three_points 1 = inr blocks ∧
    ((∃ b, b ∈ blocks ∧ 1%nat ∈ members b ∧ 2%nat ∈ members b) ↔
     (category (Row "2020-01-01" 1 (Label "1"))
      = category (Row "2020-01-01" 2 (Label "1")) ∧
      date (Row "2020-01-01" 1 (Label "1"))
      = date (Row "2020-01-01" 2 (Label "1")))).
Proof.
  eexists _, _. split; [vm_compute; reflexivity|].
  split; [vm_compute; reflexivity|].
  eapply (same_block_iff line_distance three_points _ 1 _ 1 2
            (Row "2020-01-01" 1 (Label "1")) (Row "2020-01-01" 2 (Label "1")));
    vm_compute; reflexivity.
Defined.

(** ** The dict of tables of [variable_read_json_to_dataframe] *)

Lemma dict_set_fresh {V} (k : string) (v : V) (d : list (string * V)) :
  k ∉ d.*1 → VarIngest.dict_set k v d = d ++ [(k, v)].
Proof.
  induction d as [|[k' v'] d IH]; simpl; [done|].
  rewrite not_elem_of_cons. intros [Hne Hk].
  rewrite bool_decide_eq_false_2 by done. by rewrite IH.
Qed.

Lemma add_time_point_raises (tp : string * VarIngest.json)
  (rows_list : list VarIngest.json) :
  VarIngest.is_entry tp.2 = false →
  VarIngest.add_time_point tp rows_list = inl AttributeError.
Proof. by destruct tp as [date [| | | | |]]. Qed.

Lemma for_each_add_time_point_inl (tsd : list (string * VarIngest.json))
  (rows_list : list VarIngest.json) (e : exn) :
  for_each VarIngest.add_time_point tsd rows_list = inl e ↔
  e = AttributeError ∧ Exists (λ tp, VarIngest.is_entry tp.2 = false) tsd.
Proof.
  revert rows_list. induction tsd as [|tp tsd IH]; intros rows_list.
  - simpl. split; [done|]. by intros [_ ?%Exists_nil].
  - cbn [for_each]. rewrite Exists_cons.
    destruct (VarIngest.is_entry tp.2) eqn:Htp.
    + rewrite add_time_point_rows by done. cbn [mbind result_bind].
      rewrite IH. split; [intros [-> ?]; eauto|]. by intros [-> [?|?]].
    + rewrite add_time_point_raises by done. cbn [mbind result_bind].
      split; [intros [= <-]; eauto|]. by intros [-> _].
Qed.

Lemma not_entry_not_well_formed (v : VarIngest.json) :
  VarIngest.is_entry v = false → VarIngest.well_formed_entry v = false.
Proof. by destruct v. Qed.

Lemma add_collection_inl (c : string * list (string * VarIngest.json))
  (dfs : list (string * list VarIngest.json)) (e : exn) :
  VarIngest.add_collection c dfs = inl e ↔
  e = AttributeError ∧ Exists (λ tp, VarIngest.well_formed_entry tp.2 = false) c.2.
Proof.
  destruct (forallb (λ tp, VarIngest.is_entry tp.2) c.2) eqn:Hentries.
  - apply forallb_Forall in Hentries. rewrite add_collection_outcome by done.
    destruct (forallb (λ tp, VarIngest.well_formed_entry tp.2) c.2) eqn:Hwf.
    + split; [done|]. intros [_ Hex%forallb_Exists]. congruence.
    + apply forallb_Exists in Hwf. split; [by intros [= <-]|by intros [-> _]].
  - apply forallb_Exists in Hentries.
    assert (for_each VarIngest.add_time_point c.2 [] = inl AttributeError) as Hrun
      by (by apply for_each_add_time_point_inl).
    unfold VarIngest.add_collection. rewrite Hrun. cbn [mbind result_bind].
    split; [|by intros [-> _]]. intros [= <-]. split; [done|].
    eapply Exists_impl; [exact Hentries|]. intros tp. apply not_entry_not_well_formed.
Qed.

Lemma well_formed_is_entry (v : VarIngest.json) :
  VarIngest.well_formed_entry v = true → VarIngest.is_entry v = true.
Proof. by destruct v. Qed.

Lemma for_each_add_collection (data : VarIngest.summary)
  (dfs : list (string * list VarIngest.json)) :
  NoDup (dfs.*1 ++ data.*1) →
  Forall (λ c, Forall (λ tp, VarIngest.well_formed_entry tp.2 = true) c.2) data →
  for_each VarIngest.add_collection data dfs
  = inr (dfs ++ ((λ c, (c.1, c.2 ≫= VarIngest.rows_of_entry)) <$> data)).
Proof.
  revert dfs. induction data as [|c data IH]; intros dfs Hnd Hall.
  - simpl. by rewrite (right_id_L [] (++)).
  - apply Forall_cons in Hall as [Hc Hall]. cbn [for_each].
    rewrite add_collection_outcome
      by (eapply Forall_impl; [exact Hc|]; intros tp; apply well_formed_is_entry).
    rewrite (proj2 (forallb_Forall _ _) Hc). cbn [mbind result_bind].
    rewrite fmap_cons in Hnd.
    rewrite dict_set_fresh.
    + rewrite IH; [by rewrite <- (assoc_L (++))| |done].
      rewrite fmap_app. cbn [fmap list_fmap fst]. by rewrite <- (assoc_L (++)).
    + apply NoDup_app in Hnd as (_ & Hdis & _). intros Hin.
      apply (Hdis _ Hin), list_elem_of_here.
Qed.

(** X6: on a file of collections with a [time-series-data] object, whose
    collections have distinct names and whose date entries are all [null] or
    objects whose values are all mappings when the first one is,
    [variable_read_json_to_dataframe] returns a dict with
    exactly one table per collection, in the order of the file, and the table
    of a collection holds the rows of its date entries in order. *)
Theorem one_table_per_collection (fs : gmap string VarIngest.summary)
  (filename : string) (data : VarIngest.summary) :
  fs !! filename = Some data → NoDup data.*1 →
  Forall (λ c, Forall (λ tp, VarIngest.well_formed_entry tp.2 = true) c.2) data →
  VarIngest.variable_read_json_to_dataframe fs filename
  = inr ((λ c, (c.1, c.2 ≫= VarIngest.rows_of_entry)) <$> data).
Proof.
  intros Hfile Hnd Hall.
  unfold VarIngest.variable_read_json_to_dataframe, VarIngest.summary in *.
  rewrite Hfile. by rewrite for_each_add_collection.
Qed.

(** X7: on an existing file of collections with a [time-series-data]
    object, [variable_read_json_to_dataframe] fails exactly when some date
    entry of some collection is neither [null] nor an object,
    or is an object whose first value is a mapping and one of whose other
    values is not; the exception is then an [AttributeError]: that of calling
    [values] on the entry, or that of building the table from a row that is
    not a dict. *)
Theorem entry_error_iff (fs : gmap string VarIngest.summary)
  (filename : string) (data : VarIngest.summary) (e : exn) :
  fs !! filename = Some data →
  VarIngest.variable_read_json_to_dataframe fs filename = inl e ↔
  e = AttributeError ∧
  ∃ c tp, c ∈ data ∧ tp ∈ c.2 ∧ VarIngest.well_formed_entry tp.2 = false.
Proof.
  intros Hfile.
  unfold VarIngest.variable_read_json_to_dataframe, VarIngest.summary in *.
  rewrite Hfile. rewrite for_each_inl. split.
  - intros (l1 & c & l2 & dfs & -> & _ & [-> Hex]%add_collection_inl).
    split; [done|]. apply Exists_exists in Hex as (tp & Htp & Hbad).
    exists c, tp. split; [|done]. apply elem_of_app. right. apply list_elem_of_here.
  - intros (-> & c & tp & Hc & Htp & Hbad).
    assert (Exists (λ c : string * list (string * VarIngest.json),
                      Exists (λ tp, VarIngest.well_formed_entry tp.2 = false) c.2)
              data) as Hex.
    { apply Exists_exists. exists c. split; [done|].
      apply Exists_exists. eauto. }
    clear c tp Hc Htp Hbad Hfile.
    assert (∀ dfs, ∃ l1 c l2 dfs',
              data = l1 ++ c :: l2 ∧
              for_each VarIngest.add_collection l1 dfs = inr dfs' ∧
              VarIngest.add_collection c dfs' = inl AttributeError) as Hsplit;
      [|apply Hsplit].
    induction Hex as [c data Hc|c data _ IH]; intros dfs.
    + exists [], c, data, dfs. split; [done|]. split; [done|].
      by apply add_collection_inl.
    + destruct (VarIngest.add_collection c dfs) as [e|dfs1] eqn:Hrun.
      * apply add_collection_inl in Hrun as Hrun'. destruct Hrun' as [-> _].
        by exists [], c, data, dfs.
      * destruct (IH dfs1) as (l1 & c' & l2 & dfs' & -> & Hpre & Hstep).
        exists (c :: l1), c', l2, dfs'. split; [done|]. split; [|done].
        simpl. by rewrite Hrun.
Qed.

Lemma one_table_per_collection_witness :
  VarIngest.variable_read_json_to_dataframe
    {[ "results_summary.json" := VarIngest.small_summary ]} "results_summary.json"
  = inr ((λ c, (c.1, c.2 ≫= VarIngest.rows_of_entry)) <$> VarIngest.small_summary).
Proof.
  apply (one_table_per_collection _ _ VarIngest.small_summary).
  - reflexivity.
  - vm_compute. repeat constructor; intros H;
      repeat (apply elem_of_cons in H as [H|H]; [discriminate H|]);
      by apply elem_of_nil in H.
  - vm_compute. repeat constructor.
Defined.

Lemma entry_error_iff_witness :
  VarIngest.variable_read_json_to_dataframe
    {[ "results_summary.json" := [("COPERNICUS/S2", [VarIngest.mixed_entry])] ]}
    "results_summary.json" = inl AttributeError ↔
  AttributeError = AttributeError ∧
  ∃ c tp, c ∈ [("COPERNICUS/S2", [VarIngest.mixed_entry])] ∧
          tp ∈ c.2 ∧ VarIngest.well_formed_entry tp.2 = false.
Proof.
  apply (entry_error_iff _ _ [("COPERNICUS/S2", [VarIngest.mixed_entry])]).
  reflexivity.
Defined.

(** ** The outcome of [make_time_series] *)

Lemma time_series_inl (df : table) (e : exn) :
  "offset50_std" ∉ num_columns df →
  time_series df = inl e ↔ e = KeyError "offset50_std" ∧ "offset50" ∉ num_columns df.
Proof.
  intros Hnew. unfold time_series, select_column.
  case_bool_decide as Hin; cbn [mbind result_bind].
  - split; [done|]. intros [_ Hno]. destruct Hno.
    apply list_elem_of_fmap in Hin as (c & Hc & Hin).
    case_bool_decide; congruence.
  - split; [|by intros [-> _]].
    intros [= <-]. split; [done|]. intros Hcol. apply Hin.
    apply list_elem_of_fmap. exists "offset50". by rewrite bool_decide_eq_true_2.
Qed.

(** X8: on tables that have no [offset50_std] column yet, [make_time_series]
    fails exactly when some table with a vegetation name has no [offset50]
    column, and the exception is then a [KeyError]; when it returns, the dict
    has the names it was given, in the same order. *)
Theorem make_time_series_outcome (dfs : list (string * table)) :
  Forall (λ kv, "offset50_std" ∉ num_columns kv.2) dfs →
  ((∃ e, make_time_series dfs = inl e) ↔
   Exists (λ kv, is_vegetation_name kv.1 = true ∧ "offset50" ∉ num_columns kv.2) dfs) ∧
  (∀ e, make_time_series dfs = inl e → ∃ k, e = KeyError k) ∧
  (∀ res, make_time_series dfs = inr res → res.*1 = dfs.*1).
Proof.
  unfold make_time_series. induction 1 as [|[name df] dfs Hnew _ IH].
  - simpl. split; [|split].
    + split; [by intros [e ?]|by intros ?%Exists_nil].
    + done.
    + by intros res [= <-].
  - destruct IH as (IHerr & IHkey & IHnames). simpl in Hnew.
    cbn [map_result fst snd]. rewrite Exists_cons. cbn [fst snd].
    destruct (is_vegetation_name name) eqn:Hname.
    + destruct (time_series df) as [e|rs] eqn:Hts; cbn [mbind result_bind].
      * apply time_series_inl in Hts as [-> Hcol]; [|done].
        split; [|split]; [|intros e [= <-]; eauto|done].
        split; [by left|eauto].
      * assert ("offset50" ∈ num_columns df) as Hcol.
        { destruct (decide ("offset50" ∈ num_columns df)) as [|Hno]; [done|].
          assert (time_series df = inl (KeyError "offset50_std")) as Habs
            by (by apply time_series_inl).
          congruence. }
        destruct (map_result _ dfs) as [e|res] eqn:Hrest; cbn [mbind result_bind].
        -- split; [|split]; [|intros e' [= <-]; by apply IHkey|done].
           split; [intros _; right; apply IHerr; eauto|eauto].
        -- split; [|split]; [|done|].
           ++ split; [by intros [e ?]|]. intros [[_ Hno]|Hex]; [done|].
              by apply IHerr in Hex as [e ?].
           ++ intros res' [= <-]. rewrite !fmap_cons. cbn [fst]. f_equal. by apply IHnames.
    + cbn [mbind result_bind].
      destruct (map_result _ dfs) as [e|res] eqn:Hrest; cbn [mbind result_bind].
      * split; [|split]; [|intros e' [= <-]; by apply IHkey|done].
        split; [intros _; right; apply IHerr; eauto|eauto].
      * split; [|split]; [|done|].
        -- split; [by intros [e ?]|]. intros [[? _]|Hex]; [done|].
           by apply IHerr in Hex as [e ?].
        -- intros res' [= <-]. rewrite !fmap_cons. cbn [fst]. f_equal. by apply IHnames.
Qed.

Lemma make_time_series_outcome_witness :
  let dfs := [("ECMWF/ERA5/MONTHLY", two_rows); ("COPERNICUS/S2", two_rows)] in
  ((∃ e, make_time_series dfs = inl e) ↔
   Exists (λ kv, is_vegetation_name kv.1 = true ∧ "offset50" ∉ num_columns kv.2) dfs) ∧
  (∀ e, make_time_series dfs = inl e → ∃ k, e = KeyError k) ∧
  (∀ res, make_time_series dfs = inr res → res.*1 = dfs.*1).
Proof.
  apply (make_time_series_outcome
           [("ECMWF/ERA5/MONTHLY", two_rows); ("COPERNICUS/S2", two_rows)]).
  repeat (apply Forall_cons; split;
            [vm_compute; intros H;
             repeat (apply elem_of_cons in H as [H|H]; [discriminate H|]);
             by apply elem_of_nil in H|]).
  apply Forall_nil_2.
Defined.

(** ** The weather table of [read_json_to_dataframe] *)

Import WeatherSpec.

Lemma rows_loc_set_present (index : nat) (values : list (string * value))
  (df : DataFrame) :
  index ∈ (rows df).*1 →
  rows (foldl (λ df mv, loc_set index mv.1 mv.2 df) df values)
  = (λ lr, if decide (lr.1 = index)
           then (lr.1, foldl (λ r mv, <[mv.1 := mv.2]> r) lr.2 values)
           else lr) <$> rows df.
Proof.
  revert df. induction values as [|[m v] values IH]; intros df Hin.
  - cbn [foldl]. rewrite <- (list_fmap_id (rows df)) at 1.
    apply list_fmap_ext. intros j [l r] _. simpl. by case_decide.
  - cbn [foldl fst snd].
    assert (rows (loc_set index m v df)
            = (λ lr, if decide (lr.1 = index) then (lr.1, <[m := v]> lr.2) else lr)
                <$> rows df) as Hstep.
    { unfold loc_set. cbn [rows]. by rewrite set_cell_present. }
    rewrite IH.
    + rewrite Hstep, <- list_fmap_compose. apply list_fmap_ext.
      intros j [l r] _. unfold compose. cbn [fst snd].
      destruct (decide (l = index)) as [->|Hne]; cbn [fst snd].
      * by rewrite decide_True.
      * by rewrite decide_False.
    + rewrite Hstep, <- list_fmap_compose.
      erewrite list_fmap_ext; [exact Hin|]. intros j [l r] _. simpl.
      by case_decide.
Qed.

Lemma rows_loc_set_last (i : nat) (d : string) (values : list (string * value))
  (rs : list (nat * gmap string value)) (df : DataFrame) (r : gmap string value) :
  i ∉ rs.*1 → rows df = rs ++ [(i, r)] →
  rows (foldl (λ df mv, loc_set i mv.1 mv.2 (loc_set i "date" (Str d) df)) df values)
  = rs ++ [(i, foldl (λ r mv, <[mv.1 := mv.2]> (<["date" := Str d]> r)) r values)].
Proof.
  intros Hi. revert df r. induction values as [|[m v] values IH]; intros df r Hdf.
  - done.
  - cbn [foldl fst snd]. apply IH. unfold loc_set. cbn [rows].
    by rewrite Hdf, !set_cell_last.
Qed.

Lemma rows_loc_set_fresh (i : nat) (d : string) (mv : string * value)
  (values : list (string * value)) (df : DataFrame) :
  i ∉ (rows df).*1 →
  rows (foldl (λ df mv, loc_set i mv.1 mv.2 (loc_set i "date" (Str d) df)) df
          (mv :: values))
  = rows df ++ [(i, foldl (λ r mv, <[mv.1 := mv.2]> (<["date" := Str d]> r))
                      (∅ : gmap string value) (mv :: values))].
Proof.
  intros Hi. cbn [foldl]. apply rows_loc_set_last; [done|].
  unfold loc_set. cbn [rows].
  rewrite (set_cell_fresh i "date") by done. rewrite set_cell_last by done.
  by rewrite insert_empty.
Qed.

Lemma lookup_write_metrics (values : list (string * value))
  (r : gmap string value) (m : string) :
  foldl (λ r mv, <[mv.1 := mv.2]> r) r values !! m
  = match last (filter (λ mv, mv.1 = m) values) with
    | Some mv => Some mv.2
    | None => r !! m
    end.
Proof.
  revert r. induction values as [|[k v] values IH]; intros r; [done|].
  cbn [foldl fst snd]. rewrite IH, filter_cons. cbn [fst].
  case_decide as Hk.
  - rewrite last_cons. destruct (last (filter _ values)); [done|].
    subst. by rewrite lookup_insert_eq.
  - destruct (last (filter _ values)); [done|]. by rewrite lookup_insert_ne.
Qed.

Lemma write_metrics_dated (d : string) (values : list (string * value))
  (r : gmap string value) :
  r !! "date" = Some (Str d) → "date" ∉ values.*1 →
  foldl (λ r mv, <[mv.1 := mv.2]> (<["date" := Str d]> r)) r values
  = foldl (λ r mv, <[mv.1 := mv.2]> r) r values.
Proof.
  revert r. induction values as [|[k v] values IH]; intros r Hr Hno; [done|].
  rewrite fmap_cons, not_elem_of_cons in Hno. destruct Hno as [Hk Hno].
  cbn [foldl fst snd]. rewrite (insert_id r "date") by done.
  apply IH; [|done]. rewrite lookup_insert_ne; [done|]. cbn [fst] in Hk. congruence.
Qed.

Lemma new_weather_row (d : string) (mv : string * value)
  (values : list (string * value)) (m : string) :
  "date" ∉ (mv :: values).*1 →
  let r : gmap string value :=
    foldl (λ r mv, <[mv.1 := mv.2]> (<["date" := Str d]> r)) ∅ (mv :: values) in
  r !! "date" = Some (Str d) ∧
  (m ≠ "date" →
   r !! m = snd <$> last (filter (λ mv, mv.1 = m) (mv :: values))).
Proof.
  intros Hno r.
  assert (r = foldl (λ r mv, <[mv.1 := mv.2]> r) (<["date" := Str d]> ∅)
                (mv :: values)) as ->.
  { unfold r. cbn [foldl]. apply write_metrics_dated.
    - rewrite fmap_cons, not_elem_of_cons in Hno.
      rewrite lookup_insert_ne by (destruct Hno; congruence).
      by rewrite lookup_insert_eq.
    - rewrite fmap_cons, not_elem_of_cons in Hno. by destruct Hno. }
  rewrite !lookup_write_metrics. split.
  - rewrite filter_none; [by rewrite lookup_insert_eq|].
    intros x Hx Hd. apply Hno. rewrite <- Hd. by apply list_elem_of_fmap_2.
  - intros Hm. destruct (last _); [done|].
    rewrite lookup_insert_ne by done. by rewrite lookup_empty.
Qed.

Lemma dated_snoc (pts : list (string * option (list (string * value))))
  (tp : string * option (list (string * value))) :
  dated (pts ++ [tp]) = dated pts ++ (if has_values tp then [tp.1] else []).
Proof.
  unfold dated. rewrite filter_app, fmap_app. f_equal.
  rewrite filter_cons, filter_nil. destruct (has_values tp); by case_decide.
Qed.

Lemma last_value_snoc (m d : string)
  (pts : list (string * option (list (string * value))))
  (tp : string * option (list (string * value))) :
  last_value m d (pts ++ [tp])
  = match (if decide (tp.1 = d)
           then last (filter (λ mv, mv.1 = m) (default [] tp.2)) else None) with
    | Some mv => Some mv.2
    | None => last_value m d pts
    end.
Proof.
  unfold last_value, metrics_on. rewrite bind_app, filter_app, last_app.
  rewrite bind_cons. change ([] ≫= ?f) with (@nil (string * value)).
  rewrite (right_id_L [] (++)).
  case_decide; [|done]. by destruct (last (filter _ (default [] tp.2))).
Qed.

Lemma metrics_on_undated (d : string)
  (pts : list (string * option (list (string * value)))) :
  d ∉ dated pts → metrics_on d pts = [].
Proof.
  induction pts as [|[d0 vs] pts IH]; [done|].
  unfold dated, metrics_on in *. rewrite filter_cons, bind_cons. cbn [fst snd].
  unfold has_values at 1. cbn [snd].
  destruct vs as [[|mv vs]|]; cbn [default].
  - rewrite decide_False by done. intros Hd. rewrite IH by done. by case_decide.
  - rewrite decide_True by done. rewrite fmap_cons, not_elem_of_cons. cbn [fst].
    intros [Hne Hd]. rewrite decide_False by done. by apply IH.
  - rewrite decide_False by done. intros Hd. rewrite IH by done. by case_decide.
Qed.

Lemma add_weather_point_inv (tp : string * option (list (string * value)))
  (pts : list (string * option (list (string * value)))) (st : DataFrame * nat) :
  (∀ values, tp.2 = Some values → "date" ∉ values.*1) →
  weather_inv pts st →
  ∃ st', add_weather_point tp st = inr st' ∧ weather_inv (pts ++ [tp]) st'.
Proof.
  destruct tp as [d vs], st as [df i]. cbn [fst snd].
  intros Hno (Hlab & Hlt & Hnd & Hdates & Hcells). cbn [fst snd] in *.
  unfold add_weather_point. cbn [fst snd].
  destruct vs as [values|].
  2:{ eexists. split; [done|]. unfold weather_inv. cbn [fst snd].
      split; [done|]. split; [done|]. split; [done|]. split.
      - intros dv. rewrite dated_snoc. unfold has_values. cbn [snd].
        by rewrite (right_id_L [] (++)).
      - intros lr d1 m Hlr Hd1 Hm. rewrite last_value_snoc. cbn [fst snd default].
        rewrite filter_nil. cbn [last]. case_decide; by apply Hcells. }
  specialize (Hno values eq_refl). unfold matched_indices.
  destruct (filter (λ lr : nat * gmap string value, lr.2 !! "date" = Some (Str d))
              (rows df)) as [|[index r0] more] eqn:Hf.
  - (* no row of this date yet *)
    assert (∀ lr, lr ∈ rows df → lr.2 !! "date" ≠ Some (Str d)) as Hnone.
    { intros lr Hlr Hd.
      eapply filter_nil_not_elem_of; [exact Hf|exact Hd|exact Hlr]. }
    assert (d ∉ dated pts) as Hund.
    { intros Hd. assert (Some (Str d) ∈ dates_of df) as Hin by (apply Hdates; eauto).
      apply list_elem_of_fmap in Hin as (lr & Hlr & Hin). by eapply Hnone. }
    assert (i ∉ (rows df).*1) as Hi.
    { intros Hin. apply Hlt in Hin. lia. }
    assert (∀ lr d1 m, lr ∈ rows df → lr.2 !! "date" = Some (Str d1) → m ≠ "date" →
              lr.2 !! m = last_value m d1 (pts ++ [(d, Some values)])) as Hold.
    { intros lr d1 m Hlr Hd1 Hm. rewrite last_value_snoc. cbn [fst snd default].
      rewrite decide_False; [by apply Hcells|].
      intros ->. by eapply Hnone. }
    cbn [fmap list_fmap]. eexists. split; [done|].
    unfold weather_inv. cbn [fst snd].
    destruct values as [|mv values].
    + cbn [foldl]. split; [done|]. split; [intros l Hl; apply Hlt in Hl; lia|].
      split; [done|]. split; [|done].
      intros dv. rewrite dated_snoc. unfold has_values. cbn [snd].
      by rewrite (right_id_L [] (++)).
    + destruct (new_weather_row d mv values "date" Hno) as [Hdate _].
      unfold dates_of. rewrite rows_loc_set_fresh by done.
      split; [|split; [|split; [|split]]].
      * rewrite fmap_app. apply NoDup_app. split; [done|].
        split; [|apply NoDup_singleton].
        by intros l Hl ->%list_elem_of_singleton.
      * rewrite fmap_app. intros l [Hl| ->%list_elem_of_singleton]%elem_of_app.
        -- apply Hlt in Hl. lia.
        -- cbn [fst]. lia.
      * rewrite fmap_app. apply NoDup_app. split; [done|].
        split; [|apply NoDup_singleton].
        intros dv (lr & -> & Hlr)%list_elem_of_fmap Heq%list_elem_of_singleton.
        cbn [snd] in Heq. rewrite Hdate in Heq. by eapply Hnone.
      * intros dv. rewrite dated_snoc, fmap_app, !elem_of_app. unfold has_values.
        cbn [fst snd fmap list_fmap]. rewrite Hdate, !list_elem_of_singleton.
        fold (dates_of df). rewrite Hdates. split.
        -- intros [(d1 & -> & Hd1)| ->].
           ++ exists d1. split; [done|]. apply elem_of_app. by left.
           ++ exists d. split; [done|]. apply elem_of_app. right.
              apply list_elem_of_here.
        -- intros (d1 & -> & [Hd1| ->%list_elem_of_singleton]%elem_of_app);
             [left; eauto|by right].
      * intros lr d1 m [Hlr| ->%list_elem_of_singleton]%elem_of_app Hd1 Hm.
        -- by apply Hold.
        -- cbn [snd] in *. rewrite Hdate in Hd1. injection Hd1 as <-.
           destruct (new_weather_row d mv values m Hno) as [_ Hcell].
           rewrite Hcell by done. rewrite last_value_snoc. cbn [fst snd default].
           rewrite decide_True by done.
           destruct (last _) as [x|]; [done|].
           unfold last_value. by rewrite metrics_on_undated.
  - destruct more as [|lr2 more].
    + (* one row of this date *)
      assert ((index, r0) ∈ rows df ∧ r0 !! "date" = Some (Str d)) as [Hrow Hr0].
      { assert ((index, r0) ∈ filter (λ lr : nat * gmap string value,
                                        lr.2 !! "date" = Some (Str d)) (rows df))
          as [Hd Hin]%list_elem_of_filter by (rewrite Hf; apply list_elem_of_here).
        done. }
      assert (index ∈ (rows df).*1) as Hidx.
      { by apply (list_elem_of_fmap_2 fst _ (index, r0)). }
      assert (∀ lr, lr ∈ rows df → lr.2 !! "date" = Some (Str d) → lr = (index, r0))
        as Honly.
      { intros lr Hlr Hd.
        assert (lr ∈ [(index, r0)]) as Hin; [|by apply list_elem_of_singleton in Hin].
        rewrite <- Hf. by apply list_elem_of_filter. }
      assert (∀ (r : gmap string value),
                foldl (λ r mv, <[mv.1 := mv.2]> r) r values !! "date" = r !! "date")
        as Hkeep.
      { intros r. rewrite lookup_write_metrics, filter_none; [done|].
        intros x Hx Hd. apply Hno. rewrite <- Hd. by apply list_elem_of_fmap_2. }
      cbn [fmap list_fmap]. eexists. split; [done|].
      unfold weather_inv, dates_of. cbn [fst snd].
      rewrite rows_loc_set_present by done.
      assert (∀ f : nat * gmap string value → option value,
                (∀ l r, f (l, foldl (λ r mv, <[mv.1 := mv.2]> r) r values) = f (l, r)) →
                f <$> ((λ lr, if decide (lr.1 = index)
                              then (lr.1, foldl (λ r mv, <[mv.1 := mv.2]> r) lr.2 values)
                              else lr) <$> rows df) = f <$> rows df) as Hsame.
      { intros f Hf'. rewrite <- list_fmap_compose. apply list_fmap_ext.
        intros j [l r] _. unfold compose. cbn [fst snd]. by case_decide. }
      assert (((λ lr : nat * gmap string value,
                  if decide (lr.1 = index)
                  then (lr.1, foldl (λ r mv, <[mv.1 := mv.2]> r) lr.2 values)
                  else lr) <$> rows df).*1 = (rows df).*1) as Hlabels.
      { rewrite <- list_fmap_compose. apply list_fmap_ext.
        intros j [l r] _. unfold compose. cbn [fst snd]. by case_decide. }
      rewrite Hlabels, (Hsame (λ lr, lr.2 !! "date")) by (intros; apply Hkeep).
      split; [done|]. split; [done|]. split; [done|]. split.
      * intros dv. fold (dates_of df). rewrite Hdates, dated_snoc. split.
        -- intros (d1 & -> & Hd1). exists d1. split; [done|]. apply elem_of_app. by left.
        -- intros (d1 & -> & [Hd1|Hd1]%elem_of_app); [by eauto|].
           destruct (has_values (d, Some values)); [|by apply elem_of_nil in Hd1].
           apply list_elem_of_singleton in Hd1 as ->. cbn [fst].
           apply Hdates. apply list_elem_of_fmap. by exists (index, r0).
      * intros lr d1 m (lr0 & -> & Hlr0)%list_elem_of_fmap Hd1 Hm.
        rewrite last_value_snoc. cbn [fst snd default].
        destruct lr0 as [l r]. cbn [fst snd] in *.
        destruct (decide (l = index)) as [->|Hl]; cbn [fst snd] in *.
        -- rewrite Hkeep in Hd1.
           assert (d1 = d) as ->.
           { assert (NoDup_labels := Hlab).
             assert ((index, r) = (index, r0)) as [= ->].
             { apply (NoDup_fmap_eq fst (rows df)); done. }
             congruence. }
           rewrite decide_True by done. rewrite lookup_write_metrics.
           destruct (last _) as [x|]; [done|]. by apply (Hcells (index, r)).
        -- rewrite decide_False.
           ++ by apply (Hcells (l, r)).
           ++ intros ->. apply Hl.
              by specialize (Honly (l, r) Hlr0 Hd1) as [= -> _].
    + (* two rows of this date: excluded by the invariant *)
      exfalso.
      assert (length (filter (λ lr : nat * gmap string value,
                                lr.2 !! "date" = Some (Str d)) (rows df)) = 1%nat)
        as Hone.
      { apply (filter_key_length (λ lr : nat * gmap string value, lr.2 !! "date"));
          [done|].
        apply list_elem_of_fmap. exists (index, r0). 
        assert ((index, r0) ∈ filter (λ lr : nat * gmap string value,
                                        lr.2 !! "date" = Some (Str d)) (rows df))
          as [Hd Hin]%list_elem_of_filter by (rewrite Hf; apply list_elem_of_here).
        done. }
      rewrite Hf in Hone. simpl in Hone. lia.
Qed.

Lemma columns_loc_set (l : nat) (col : string) (v : value) (df : DataFrame)
  (c : string) :
  c ∈ columns (loc_set l col v df) ↔ c ∈ columns df ∨ c = col.
Proof.
  unfold loc_set. cbn [columns]. case_decide as Hcol.
  - split; [by left|]. by intros [?| ->].
  - by rewrite elem_of_app, list_elem_of_singleton.
Qed.

Lemma add_weather_point_columns (tp : string * option (list (string * value)))
  (st st' : DataFrame * nat) (c : string) :
  add_weather_point tp st = inr st' → c ∈ columns st'.1 →
  c ∈ columns st.1 ∨ c = "date" ∨ ∃ values, tp.2 = Some values ∧ c ∈ values.*1.
Proof.
  destruct tp as [d vs], st as [df i]. unfold add_weather_point. cbn [fst snd].
  destruct vs as [values|]; [|intros [= <-]; by left].
  assert (∀ (step : DataFrame → string * value → DataFrame) df0,
            (∀ df1 mv c, c ∈ columns (step df1 mv) →
                         c ∈ columns df1 ∨ c = "date" ∨ c = mv.1) →
            c ∈ columns (foldl step df0 values) →
            c ∈ columns df0 ∨ c = "date" ∨ c ∈ values.*1) as Hfold.
  { intros step df0 Hstep. revert df0.
    induction values as [|mv values IH]; intros df0; [by left|].
    cbn [foldl]. intros Hc. destruct (IH _ Hc) as [Hc'|[->|Hc']].
    - destruct (Hstep _ _ _ Hc') as [?|[->| ->]]; [by left|by right; left|].
      right; right. rewrite fmap_cons. apply list_elem_of_here.
    - by right; left.
    - right; right. rewrite fmap_cons. by apply list_elem_of_further. }
  destruct (matched_indices _ df) as [|index [|index' more]]; [| |done].
  - intros [= <-] Hc. cbn [fst] in Hc.
    apply Hfold in Hc as [?|[?|?]]; [by left|by right; left|by right; right; eauto|].
    intros df1 mv c'. rewrite !columns_loc_set. tauto.
  - intros [= <-] Hc. cbn [fst] in Hc.
    apply Hfold in Hc as [?|[?|?]]; [by left|by right; left|by right; right; eauto|].
    intros df1 mv c'. rewrite !columns_loc_set. tauto.
Qed.

Lemma weather_loop_columns (pts : list (string * option (list (string * value))))
  (st st' : DataFrame * nat) (c : string) :
  for_each add_weather_point pts st = inr st' → c ∈ columns st'.1 →
  c ∈ columns st.1 ∨ c = "date" ∨
  ∃ tp values, tp ∈ pts ∧ tp.2 = Some values ∧ c ∈ values.*1.
Proof.
  revert st. induction pts as [|tp pts IH]; intros st.
  - intros [= <-]. by left.
  - cbn [for_each]. destruct (add_weather_point tp st) as [|st1] eqn:Hstep; [done|].
    cbn [mbind result_bind]. intros Hrun Hc.
    destruct (IH _ Hrun Hc) as [Hc1|[->|(tp' & values & Htp' & Hv & Hin)]].
    + destruct (add_weather_point_columns tp st st1 c Hstep Hc1)
        as [?|[?|(values & Hv & Hin)]]; [by left|by right; left|].
      right; right. exists tp, values. split; [apply list_elem_of_here|done].
    + by right; left.
    + right; right. exists tp', values. split; [by apply list_elem_of_further|done].
Qed.

Lemma plain_metrics_columns (data : Ingest.summary) (weather : DataFrame * nat) :
  plain_metrics data →
  for_each add_weather data (empty_weather_df, 0%nat) = inr weather →
  "lat" ∉ columns weather.1 ∧ "long" ∉ columns weather.1.
Proof.
  intros Hplain Hrun. rewrite add_weather_flat in Hrun.
  split; intros Hc;
    destruct (weather_loop_columns _ _ _ _ Hrun Hc)
      as [Hc'|[?|(tp & values & Htp & Hv & Hin)]]; try done.
  - cbn in Hc'. by apply list_elem_of_singleton in Hc'.
  - by destruct (Hplain tp values "lat" Htp Hv Hin) as (_ & ? & _).
  - cbn in Hc'. by apply list_elem_of_singleton in Hc'.
  - by destruct (Hplain tp values "long" Htp Hv Hin) as (_ & _ & ?).
Qed.

Lemma weather_inv_empty : weather_inv [] (empty_weather_df, 0%nat).
Proof.
  unfold weather_inv, dates_of. cbn [fst snd rows empty_weather_df fmap list_fmap].
  split; [constructor|]. split; [by intros l ?%elem_of_nil|].
  split; [constructor|]. split.
  - intros dv. split; [by intros ?%elem_of_nil|].
    by intros (d & _ & ?%elem_of_nil).
  - by intros lr d m ?%elem_of_nil.
Qed.

Lemma for_each_add_weather_point
  (pts0 pts : list (string * option (list (string * value))))
  (st : DataFrame * nat) :
  (∀ tp values, tp ∈ pts → tp.2 = Some values → "date" ∉ values.*1) →
  weather_inv pts0 st →
  ∃ st', for_each add_weather_point pts st = inr st' ∧
         weather_inv (pts0 ++ pts) st'.
Proof.
  revert pts0 st. induction pts as [|tp pts IH]; intros pts0 st Hno Hinv.
  - exists st. by rewrite (right_id_L [] (++)).
  - destruct (add_weather_point_inv tp pts0 st) as (st1 & Hst1 & Hinv1); [|done|].
    { intros values. apply Hno, list_elem_of_here. }
    destruct (IH _ _ (λ tp' values Htp, Hno tp' values (list_elem_of_further _ _ _ Htp))
                Hinv1) as (st' & Hst' & Hinv').
    exists st'. cbn [for_each]. rewrite Hst1. cbn [mbind result_bind].
    split; [done|]. by rewrite <- (assoc_L (++)) in Hinv'.
Qed.

Lemma weather_loop_inv (data : Ingest.summary) :
  (∀ tp values, tp ∈ weather_points data → tp.2 = Some values →
     "date" ∉ values.*1) →
  ∃ st, for_each add_weather data (empty_weather_df, 0%nat) = inr st ∧
        weather_inv (weather_points data) st.
Proof.
  intros Hno. rewrite add_weather_flat.
  by apply (for_each_add_weather_point [] (weather_points data));
    [|apply weather_inv_empty].
Qed.

Lemma plain_metrics_no_date (data : Ingest.summary) :
  plain_metrics data →
  ∀ tp values, tp ∈ weather_points data → tp.2 = Some values → "date" ∉ values.*1.
Proof.
  intros Hplain tp values Htp Hv Hin.
  by destruct (Hplain tp values "date" Htp Hv Hin).
Qed.

(** X9: when no weather metric is named [date], the weather loop of
    [read_json_to_dataframe] raises nothing and leaves a table with distinct
    labels that holds exactly one row for every date on which some time point
    gives a metric, and no other row; the row of a date holds, for every
    metric, the value given last for that date (NaN when none is). *)
Theorem weather_table_rows (data : Ingest.summary) :
  (∀ tp values, tp ∈ weather_points data → tp.2 = Some values →
     "date" ∉ values.*1) →
  ∃ weather_df i,
    for_each add_weather data (empty_weather_df, 0%nat) = inr (weather_df, i) ∧
    NoDup (rows weather_df).*1 ∧
    (∀ d, rows_on (Some (Str d)) weather_df
          = if decide (d ∈ dated (weather_points data)) then 1%nat else 0%nat) ∧
    (∀ lr, lr ∈ rows weather_df →
       ∃ d, lr.2 !! "date" = Some (Str d) ∧
            ∀ m, m ≠ "date" → lr.2 !! m = last_value m d (weather_points data)).
Proof.
  intros Hplain.
  destruct (weather_loop_inv data Hplain)
    as ([weather_df i] & Hrun & Hlab & _ & Hnd & Hdates & Hcells).
  cbn [fst snd] in *. exists weather_df, i. split; [done|]. split; [done|]. split.
  - intros d. unfold rows_on. case_decide as Hd.
    + apply (filter_key_length (λ lr : nat * gmap string value, lr.2 !! "date"));
        [done|].
      apply Hdates. eauto.
    + apply length_filter_zero. intros lr Hlr Hdate. apply Hd.
      assert (Some (Str d) ∈ dates_of weather_df) as Hin.
      { apply list_elem_of_fmap. by exists lr. }
      by apply Hdates in Hin as (d' & [= ->] & Hin).
  - intros lr Hlr.
    assert (lr.2 !! "date" ∈ dates_of weather_df) as Hin.
    { apply list_elem_of_fmap. by exists lr. }
    apply Hdates in Hin as (d & Hd & _). exists d. split; [done|].
    intros m Hm. by apply Hcells.
Qed.

(** X10: on a well-typed summary in which no weather metric is named [date],
    [lat] or [long], [read_json_to_dataframe] returns a table.  A row of it
    that has a vegetation side carries the triple of a vegetation record and
    the point of that record's latitude and longitude as geometry; any other
    row is a weather row, and its geometry is the point with NaN
    coordinates. *)
Theorem read_json_geometry (fs : gmap string Ingest.summary) (filename : string)
  (data : Ingest.summary) :
  fs !! filename = Some data → well_typed data → plain_metrics data →
  ∃ out,
    read_json_to_dataframe fs filename = inr out ∧
    ∀ m g, (m, g) ∈ out →
      match from_veg m with
      | Some r =>
          ∃ rec, rec ∈ veg_records data ∧ row_key r = Some (sp_key rec.2) ∧
                 g = Point (Some (latitude rec.2)) (Some (longitude rec.2))
      | None => is_Some (from_weather m) ∧ g = Point None None
      end.
Proof.
  intros Hfile Hwt Hplain.
  destruct (for_each_add_space_point [] (veg_records data) _ veg_inv_empty)
    as (veg & Hveg & _ & _ & Hrows & _).
  rewrite <- add_vegetation_flat in Hveg by done.
  destruct (weather_loop_inv data (plain_metrics_no_date data Hplain))
    as (weather & Hweather & _).
  destruct (plain_metrics_columns data weather Hplain Hweather) as [Hlat Hlong].
  cbn [app] in *. eexists.
  split; [by apply (read_json_returns fs filename data veg weather)|].
  intros m g (m0 & [= -> ->] & Hm0)%list_elem_of_fmap.
  unfold pd_merge_outer in Hm0. apply elem_of_app in Hm0 as [Hm0|Hm0].
  - apply list_elem_of_bind in Hm0 as (lr & Hm0 & Hlr).
    apply merge_left_elem in Hm0 as (Hv & _). rewrite Hv.
    destruct (Hrows lr Hlr) as (rec & Hrec & Hkey). exists rec.
    split; [done|]. split; [done|].
    unfold Ingest.coordinate. cbn [mbind option_bind].
    unfold row_key, sp_key in Hkey.
    destruct (lr.2 !! "date") as [d|]; [|done].
    destruct (lr.2 !! "lat") as [la|]; [|done].
    destruct (lr.2 !! "long") as [lo|]; [|done].
    cbn [mbind option_bind] in Hkey. by injection Hkey as -> -> ->.
  - apply list_elem_of_fmap in Hm0 as (rr & -> & _). cbn [from_veg from_weather].
    split; [by eexists|done].
Qed.

Lemma two_points_plain : plain_metrics two_points.
Proof.
  intros tp values m Htp Hv Hm.
  change (weather_points two_points) with
    [("2020-01-01", Some [("total_precipitation", Num 5)]);
     ("2020-02-01", Some [("total_precipitation", Num 7)])] in Htp.
  apply elem_of_cons in Htp as [->|Htp]; [|apply list_elem_of_singleton in Htp as ->];
    injection Hv as <-; apply list_elem_of_singleton in Hm as ->; done.
Qed.

Lemma weather_table_rows_witness :
  ∃ weather_df i,
    for_each add_weather two_points (empty_weather_df, 0%nat) = inr (weather_df, i) ∧
    NoDup (rows weather_df).*1 ∧
    (∀ d, rows_on (Some (Str d)) weather_df
          = if decide (d ∈ dated (weather_points two_points)) then 1%nat else 0%nat) ∧
    (∀ lr, lr ∈ rows weather_df →
       ∃ d, lr.2 !! "date" = Some (Str d) ∧
            ∀ m, m ≠ "date" → lr.2 !! m = last_value m d (weather_points two_points)).
Proof.
  apply (weather_table_rows two_points).
  intros tp values Htp Hv Hin.
  by destruct (two_points_plain tp values "date" Htp Hv Hin).
Defined.

Lemma read_json_geometry_witness :
  ∃ out,
    read_json_to_dataframe {["results_summary.json" := two_points]}
      "results_summary.json" = inr out ∧
    ∀ m g, (m, g) ∈ out →
      match from_veg m with
      | Some r =>
          ∃ rec, rec ∈ veg_records two_points ∧ row_key r = Some (sp_key rec.2) ∧
                 g = Point (Some (latitude rec.2)) (Some (longitude rec.2))
      | None => is_Some (from_weather m) ∧ g = Point None None
      end.
Proof.
  apply (read_json_geometry {["results_summary.json" := two_points]}
           "results_summary.json" two_points).
  - vm_compute. reflexivity.
  - apply two_points_well_typed.
  - apply two_points_plain.
Defined.

(** ** The figures of [create_lat_long_metric_figures] *)

Lemma compare_lt_trans (x y z : string) :
  String.compare x y = Lt → String.compare y z = Lt → String.compare x z = Lt.
Proof.
  intros Hxy Hyz. apply OrderedTypeEx.String_as_OT.cmp_lt.
  eapply OrderedTypeEx.String_as_OT.lt_trans;
    by apply OrderedTypeEx.String_as_OT.cmp_lt.
Qed.

Lemma compare_refl (x : string) : String.compare x x = Eq.
Proof. by apply OrderedTypeEx.String_as_OT.cmp_eq. Qed.

Lemma compare_gt_lt (x y : string) :
  String.compare x y = Gt → String.compare y x = Lt.
Proof. intros H. rewrite String.compare_antisym, H. done. Qed.

Lemma insert_unique_str_elements (x y : string) (l : list string) :
  y ∈ Figures.insert_unique_str x l ↔ y = x ∨ y ∈ l.
Proof.
  induction l as [|z l IH]; simpl.
  - rewrite list_elem_of_singleton, elem_of_nil. tauto.
  - destruct (String.compare x z) eqn:Hc.
    + apply String.compare_eq_iff in Hc as ->. rewrite elem_of_cons. tauto.
    + rewrite !elem_of_cons. tauto.
    + rewrite !elem_of_cons, IH. tauto.
Qed.

Lemma np_unique_str_elements (y : string) (l : list string) :
  y ∈ Figures.np_unique_str l ↔ y ∈ l.
Proof.
  induction l as [|x l IH]; [done|].
  unfold Figures.np_unique_str in *. simpl.
  by rewrite insert_unique_str_elements, IH, elem_of_cons.
Qed.

Lemma insert_unique_str_sorted (x : string) (l : list string) :
  StronglySorted (λ a b, String.compare a b = Lt) l →
  StronglySorted (λ a b, String.compare a b = Lt) (Figures.insert_unique_str x l).
Proof.
  induction 1 as [|z l Hl IH Hz]; simpl.
  - repeat constructor.
  - destruct (String.compare x z) eqn:Hc.
    + by constructor.
    + constructor; [by constructor|]. constructor; [done|].
      eapply Forall_impl; [exact Hz|]. intros w Hw. by eapply compare_lt_trans.
    + constructor; [done|]. apply Forall_forall. intros w Hw.
      apply insert_unique_str_elements in Hw as [->|Hw].
      * by apply compare_gt_lt.
      * by eapply (proj1 (Forall_forall _ _) Hz).
Qed.

Lemma np_unique_str_sorted (l : list string) :
  StronglySorted (λ a b, String.compare a b = Lt) (Figures.np_unique_str l).
Proof.
  induction l as [|x l IH]; [constructor|].
  by apply insert_unique_str_sorted.
Qed.

Lemma sorted_compare_NoDup (l : list string) :
  StronglySorted (λ a b, String.compare a b = Lt) l → NoDup l.
Proof.
  induction 1 as [|x l _ IH Hx]; constructor; [|done].
  intros Hin. rewrite Forall_forall in Hx. specialize (Hx x Hin).
  by rewrite compare_refl in Hx.
Qed.

Lemma np_unique_str_least (l : list string) (d : string) (ds : list string) :
  Figures.np_unique_str l = d :: ds →
  d ∈ l ∧ ∀ d', d' ∈ l → String.compare d d' ≠ Gt.
Proof.
  intros Hl. split.
  - apply np_unique_str_elements. rewrite Hl. apply list_elem_of_here.
  - intros d' Hd'. apply np_unique_str_elements in Hd'.
    pose proof (np_unique_str_sorted l) as Hs. rewrite Hl in Hs, Hd'.
    apply StronglySorted_inv in Hs as [_ Hall].
    apply elem_of_cons in Hd' as [->|Hd'].
    + by rewrite compare_refl.
    + rewrite Forall_forall in Hall. by rewrite (Hall d' Hd').
Qed.

Lemma least_is_first (l : list string) (d : string) :
  d ∈ l → (∀ d', d' ∈ l → String.compare d d' ≠ Gt) →
  ∃ ds, Figures.np_unique_str l = d :: ds.
Proof.
  intros Hd Hleast.
  destruct (Figures.np_unique_str l) as [|h ds] eqn:Hl.
  - apply np_unique_str_elements in Hd. rewrite Hl in Hd. by apply elem_of_nil in Hd.
  - destruct (np_unique_str_least l h ds Hl) as [Hh Hhleast].
    exists ds. f_equal. specialize (Hleast h Hh). specialize (Hhleast d Hd).
    rewrite String.compare_antisym in Hhleast.
    destruct (String.compare d h) eqn:Hc; [|done..].
    symmetry. by apply String.compare_eq_iff.
Qed.

Lemma sorted_filter {A} (R : A → A → Prop) (P : A → Prop)
  `{!∀ x, Decision (P x)} (l : list A) :
  StronglySorted R l → StronglySorted R (filter P l).
Proof.
  induction 1 as [|x l _ IH Hx]; [constructor|].
  rewrite filter_cons. case_decide; [|done].
  constructor; [done|]. apply Forall_forall.
  intros y [_ Hy]%list_elem_of_filter. by eapply (proj1 (Forall_forall _ _) Hx).
Qed.

Section figure_facts.
Variable parses : string → bool.
Variable strftime : string → string.

Lemma figure_loop_bound (df : Figures.table) (metric output_dir : string)
  (dates : list string) (st : Figures.state) (s : string)
  (all : list Figures.event) :
  Figures.date_str st = Some s →
  Figures.figure_loop parses strftime df metric output_dir dates st = (all, None) →
  ∃ evs,
    all = Figures.log st ++ evs ∧
    Figures.saved_paths evs
    = (λ d, Figures.filepath output_dir metric (strftime d))
        <$> filter (λ d, Figures.has_null df metric d = false) dates ∧
    Figures.made_dirs evs
    = (if Figures.dir_exists st then []
       else match filter (λ d, Figures.has_null df metric d = false) dates with
            | [] => []
            | _ :: _ => [output_dir]
            end) ∧
    length (Figures.printed_lines evs)
    = length (filter (λ d, Figures.has_null df metric d = true) dates) ∧
    (∀ line, line ∈ Figures.printed_lines evs →
       line = Figures.problem_line s ∨
       ∃ d, d ∈ dates ∧ Figures.has_null df metric d = false ∧
            line = Figures.problem_line (strftime d)).
Proof.
  revert st s. induction dates as [|d dates IH]; intros st s Hs.
  - cbn [Figures.figure_loop]. intros [= <-]. exists [].
    rewrite (right_id_L [] (++)).
    split; [done|]. split; [done|]. split; [by destruct (Figures.dir_exists st)|].
    split; [done|]. by intros line ?%elem_of_nil.
  - cbn [Figures.figure_loop]. unfold Figures.figure_body. rewrite !filter_cons.
    destruct (Figures.has_null df metric d) eqn:Hnull.
    + rewrite Hs. intros Hrun.
      apply (IH _ s) in Hrun; [|reflexivity].
      destruct Hrun as (evs & -> & Hsaved & Hmade & Hlen & Hlines).
      cbn [Figures.log Figures.dir_exists] in *.
      exists (Figures.Print (Figures.problem_line s) :: evs).
      rewrite <- (assoc_L (++)).
      rewrite decide_False by done. rewrite decide_True by done.
      split; [done|]. split; [done|]. split; [done|].
      unfold Figures.printed_lines in *. cbn [omap list_omap length].
      split; [by rewrite Hlen|].
      intros line [->|Hline]%elem_of_cons; [by left|].
      destruct (Hlines line Hline) as [?|(d' & ? & ? & ?)]; [by left|].
      right. exists d'. split; [by apply list_elem_of_further|done].
    + destruct (parses d); [|done]. intros Hrun.
      apply (IH _ (strftime d)) in Hrun; [|reflexivity].
      destruct Hrun as (evs & -> & Hsaved & Hmade & Hlen & Hlines).
      cbn [Figures.log Figures.dir_exists] in *.
      exists ((if Figures.dir_exists st then [] else [Figures.Makedirs output_dir])
              ++ [Figures.Savefig (Figures.filepath output_dir metric (strftime d))]
              ++ evs).
      rewrite <- !(assoc_L (++)).
      rewrite decide_True by done. rewrite decide_False by done.
      split; [done|].
      unfold Figures.saved_paths, Figures.made_dirs, Figures.printed_lines in *.
      rewrite !omap_app. cbn [omap list_omap app].
      destruct (Figures.dir_exists st); cbn [omap list_omap app].
      * split; [by rewrite Hsaved|]. split; [done|]. split; [done|].
        intros line Hline.
        destruct (Hlines line Hline) as [->|(d' & ? & ? & ?)].
        -- right. exists d. split; [apply list_elem_of_here|done].
        -- right. exists d'. split; [by apply list_elem_of_further|done].
      * split; [by rewrite Hsaved|]. split; [by rewrite Hmade|]. split; [done|].
        intros line Hline.
        destruct (Hlines line Hline) as [->|(d' & ? & ? & ?)].
        -- right. exists d. split; [apply list_elem_of_here|done].
        -- right. exists d'. split; [by apply list_elem_of_further|done].
Qed.

Lemma figure_loop_bound_name (df : Figures.table) (metric output_dir : string)
  (dates : list string) (st : Figures.state) (s : string) :
  Figures.date_str st = Some s →
  ∀ name, (Figures.figure_loop parses strftime df metric output_dir dates st).2
          ≠ Some (Figures.UnboundLocalError name).
Proof.
  revert st s. induction dates as [|d dates IH]; intros st s Hs name; [done|].
  cbn [Figures.figure_loop]. unfold Figures.figure_body.
  destruct (Figures.has_null df metric d).
  - rewrite Hs. by apply (IH _ s).
  - destruct (parses d); [|done]. by apply (IH _ (strftime d)).
Qed.

Lemma figure_loop_start (df : Figures.table) (metric output_dir : string)
  (d : string) (ds : list string) (output_dir_exists : bool) :
  let st := {| Figures.date_str := None;
               Figures.dir_exists := output_dir_exists;
               Figures.log := [] |} in
  (Figures.has_null df metric d = true →
   Figures.figure_loop parses strftime df metric output_dir (d :: ds) st
   = ([], Some (Figures.UnboundLocalError "date_str"))) ∧
  (Figures.has_null df metric d = false →
   ∀ name,
     (Figures.figure_loop parses strftime df metric output_dir (d :: ds) st).2
     ≠ Some (Figures.UnboundLocalError name)) ∧
  (Figures.has_null df metric d = false →
   ∀ evs,
     Figures.figure_loop parses strftime df metric output_dir (d :: ds) st
     = (evs, None) →
     Figures.saved_paths evs
     = (λ d, Figures.filepath output_dir metric (strftime d))
         <$> filter (λ d, Figures.has_null df metric d = false) (d :: ds) ∧
     Figures.made_dirs evs = (if output_dir_exists then [] else [output_dir]) ∧
     length (Figures.printed_lines evs)
     = length (filter (λ d, Figures.has_null df metric d = true) (d :: ds)) ∧
     (∀ line, line ∈ Figures.printed_lines evs →
        ∃ d', d' ∈ d :: ds ∧ Figures.has_null df metric d' = false ∧
              line = Figures.problem_line (strftime d'))).
Proof.
  intros st. split; [|split]; intros Hnull.
  - cbn [Figures.figure_loop]. unfold Figures.figure_body. by rewrite Hnull.
  - intros name. cbn [Figures.figure_loop]. unfold Figures.figure_body.
    rewrite Hnull. destruct (parses d); [|done].
    by apply (figure_loop_bound_name _ _ _ _ _ (strftime d)).
  - intros all. cbn [Figures.figure_loop]. unfold Figures.figure_body.
    rewrite Hnull. destruct (parses d); [|done].
    cbn [Figures.date_str Figures.dir_exists Figures.log st app]. intros Hrun.
    apply (figure_loop_bound _ _ _ _ _ (strftime d)) in Hrun; [|reflexivity].
    destruct Hrun as (evs & -> & Hsaved & Hmade & Hlen & Hlines).
    cbn [Figures.log Figures.dir_exists] in *.
    rewrite !filter_cons. rewrite decide_True by done.
    rewrite decide_False by (by rewrite Hnull).
    unfold Figures.saved_paths, Figures.made_dirs, Figures.printed_lines in *.
    rewrite !omap_app, Hsaved, Hmade.
    destruct output_dir_exists; cbn [omap list_omap app].
    + split; [done|]. split; [done|]. split; [done|].
      intros line Hline.
      destruct (Hlines line Hline) as [->|(d' & ? & ? & ?)].
      * exists d. split; [apply list_elem_of_here|done].
      * exists d'. split; [by apply list_elem_of_further|done].
    + split; [done|]. split; [done|]. split; [done|].
      intros line Hline.
      destruct (Hlines line Hline) as [->|(d' & ? & ? & ?)].
      * exists d. split; [apply list_elem_of_here|done].
      * exists d'. split; [by apply list_elem_of_further|done].
Qed.

Lemma create_figures_run (df : Figures.table) (metric output_dir : string)
  (output_dir_exists : bool) :
  "date" ∈ Figures.fig_columns df → metric ∈ Figures.fig_columns df →
  Figures.fig_rows df ≠ [] →
  ∃ d ds,
    Figures.np_unique_str (Figures.fig_rows df).*1 = d :: ds ∧
    Figures.create_lat_long_metric_figures parses strftime df metric output_dir
      output_dir_exists
    = Figures.figure_loop parses strftime df metric output_dir (d :: ds)
        {| Figures.date_str := None;
           Figures.dir_exists := output_dir_exists;
           Figures.log := [] |}.
Proof.
  intros Hdate Hmetric Hrows. unfold Figures.create_lat_long_metric_figures.
  rewrite bool_decide_eq_true_2 by done.
  destruct (Figures.fig_rows df) as [|r rs] eqn:Hr; [done|].
  destruct (Figures.np_unique_str ((r :: rs).*1)) as [|d ds] eqn:Hu.
  - assert (r.1 ∈ Figures.np_unique_str ((r :: rs).*1)) as Hin.
    { apply np_unique_str_elements. rewrite fmap_cons. apply list_elem_of_here. }
    rewrite Hu in Hin. by apply elem_of_nil in Hin.
  - by exists d, ds.
Qed.

Lemma create_figures_returns (df : Figures.table) (metric output_dir : string)
  (output_dir_exists : bool) (evs : list Figures.event) :
  Figures.create_lat_long_metric_figures parses strftime df metric output_dir
    output_dir_exists = (evs, None) →
  ∃ d ds,
    Figures.np_unique_str (Figures.fig_rows df).*1 = d :: ds ∧
    Figures.has_null df metric d = false ∧
    Figures.figure_loop parses strftime df metric output_dir (d :: ds)
      {| Figures.date_str := None;
         Figures.dir_exists := output_dir_exists;
         Figures.log := [] |} = (evs, None).
Proof.
  intros Hrun.
  destruct (decide ("date" ∈ Figures.fig_columns df ∧ metric ∈ Figures.fig_columns df))
    as [[Hdate Hmetric]|Hno].
  - destruct (decide (Figures.fig_rows df = [])) as [Hnil|Hrows].
    + unfold Figures.create_lat_long_metric_figures in Hrun.
      rewrite bool_decide_eq_true_2, Hnil in Hrun by done. done.
    + destruct (create_figures_run df metric output_dir output_dir_exists
                  Hdate Hmetric Hrows) as (d & ds & Hu & Heq).
      exists d, ds. split; [done|]. rewrite <- Heq. split; [|done].
      destruct (Figures.has_null df metric d) eqn:Hnull; [|done].
      rewrite Heq in Hrun.
      destruct (figure_loop_start df metric output_dir d ds output_dir_exists)
        as [Herr _].
      rewrite (Herr Hnull) in Hrun. done.
  - unfold Figures.create_lat_long_metric_figures in Hrun.
    rewrite bool_decide_eq_false_2 in Hrun by done. done.
Qed.

(** X12: on a table with the [date] and the metric column, the function
    ends with the [UnboundLocalError] of [date_str] exactly when a row of the
    earliest date has no value of the metric, and then it has printed, made
    and saved nothing: the message of the first date to be skipped reads
    [date_str] before any figure has assigned it. *)
Theorem earliest_date_decides (df : Figures.table) (metric output_dir : string)
  (output_dir_exists : bool) (d : string) :
  "date" ∈ Figures.fig_columns df → metric ∈ Figures.fig_columns df →
  d ∈ (Figures.fig_rows df).*1 →
  (∀ d', d' ∈ (Figures.fig_rows df).*1 → String.compare d d' ≠ Gt) →
  (Figures.has_null df metric d = true →
   Figures.create_lat_long_metric_figures parses strftime df metric output_dir
     output_dir_exists = ([], Some (Figures.UnboundLocalError "date_str"))) ∧
  (Figures.has_null df metric d = false →
   ∀ name,
     (Figures.create_lat_long_metric_figures parses strftime df metric output_dir
        output_dir_exists).2 ≠ Some (Figures.UnboundLocalError name)).
Proof.
  intros Hdate Hmetric Hd Hleast.
  assert (Figures.fig_rows df ≠ []) as Hrows.
  { intros Hnil. rewrite Hnil in Hd. by apply elem_of_nil in Hd. }
  destruct (create_figures_run df metric output_dir output_dir_exists
              Hdate Hmetric Hrows) as (d0 & ds & Hu & ->).
  destruct (least_is_first _ d Hd Hleast) as [ds' Hu'].
  rewrite Hu in Hu'. injection Hu' as -> ->.
  destruct (figure_loop_start df metric output_dir d ds' output_dir_exists)
    as (Herr & Hname & _).
  split; done.
Qed.

(** X13: when the function returns, it has saved exactly one file for every
    date of the table none of whose rows lacks the metric, in ascending
    order of the dates, under the name built from the metric (with [/]
    replaced) and the formatted date, and it has made [output_dir] once if it
    did not exist, and not otherwise. *)
Theorem one_figure_per_date (df : Figures.table) (metric output_dir : string)
  (output_dir_exists : bool) (evs : list Figures.event) :
  Figures.create_lat_long_metric_figures parses strftime df metric output_dir
    output_dir_exists = (evs, None) →
  Figures.saved_paths evs
  = (λ d, path_join output_dir
            (Figures.replace_slash metric +:+ "_network_2D_grid_" +:+
             strftime d +:+ ".png"))
      <$> Figures.drawn_dates df metric ∧
  NoDup (Figures.drawn_dates df metric) ∧
  StronglySorted (λ a b, String.compare a b = Lt) (Figures.drawn_dates df metric) ∧
  (∀ d, d ∈ Figures.drawn_dates df metric ↔
        d ∈ (Figures.fig_rows df).*1 ∧ Figures.has_null df metric d = false) ∧
  Figures.made_dirs evs = (if output_dir_exists then [] else [output_dir]).
Proof.
  intros Hrun.
  destruct (create_figures_returns df metric output_dir output_dir_exists evs Hrun)
    as (d & ds & Hu & Hnull & Hloop).
  destruct (figure_loop_start df metric output_dir d ds output_dir_exists)
    as (_ & _ & Hok).
  destruct (Hok Hnull evs Hloop) as (Hsaved & Hmade & _).
  unfold Figures.drawn_dates. rewrite Hu. split; [exact Hsaved|].
  rewrite <- Hu.
  pose proof (np_unique_str_sorted (Figures.fig_rows df).*1) as Hsorted.
  split; [|split; [|split; [|done]]].
  - by apply NoDup_filter, sorted_compare_NoDup.
  - by apply sorted_filter.
  - intros d'. by rewrite list_elem_of_filter, np_unique_str_elements, (comm and).
Qed.

(** X14: when the function returns, every line it has printed is the line
    ["Problem with date <s> nan entries found."] for the formatted form [s]
    of some date of the table none of whose rows lacks the metric, and it has
    printed one line for every date that has a null entry. *)
Theorem problem_line_names_drawn_date (df : Figures.table)
  (metric output_dir : string) (output_dir_exists : bool)
  (evs : list Figures.event) :
  Figures.create_lat_long_metric_figures parses strftime df metric output_dir
    output_dir_exists = (evs, None) →
  (∀ line, line ∈ Figures.printed_lines evs →
     ∃ d, d ∈ (Figures.fig_rows df).*1 ∧ Figures.has_null df metric d = false ∧
          line = "Problem with date " +:+ strftime d +:+ " nan entries found.") ∧
  length (Figures.printed_lines evs)
  = length (filter (λ d, Figures.has_null df metric d = true)
              (Figures.np_unique_str (Figures.fig_rows df).*1)).
Proof.
  intros Hrun.
  destruct (create_figures_returns df metric output_dir output_dir_exists evs Hrun)
    as (d & ds & Hu & Hnull & Hloop).
  destruct (figure_loop_start df metric output_dir d ds output_dir_exists)
    as (_ & _ & Hok).
  destruct (Hok Hnull evs Hloop) as (_ & _ & Hlen & Hlines).
  rewrite Hu. split; [|done].
  intros line Hline. destruct (Hlines line Hline) as (d' & Hd' & Hok' & ->).
  exists d'. split; [|done]. apply np_unique_str_elements. by rewrite Hu.
Qed.

End figure_facts.

Lemma earliest_date_decides_witness :
  (Figures.has_null Figures.null_first "offset50" "2020-01-01" = true →
   Figures.create_lat_long_metric_figures (λ _, true) id Figures.null_first
     "offset50" "output" false
   = ([], Some (Figures.UnboundLocalError "date_str"))) ∧
  (Figures.has_null Figures.null_first "offset50" "2020-01-01" = false →
   ∀ name,
     (Figures.create_lat_long_metric_figures (λ _, true) id Figures.null_first
        "offset50" "output" false).2 ≠ Some (Figures.UnboundLocalError name)).
Proof.
  apply (earliest_date_decides (λ _, true) id Figures.null_first "offset50"
           "output" false "2020-01-01").
  - vm_compute. apply list_elem_of_here.
  - vm_compute. apply list_elem_of_further, list_elem_of_here.
  - vm_compute. apply list_elem_of_further, list_elem_of_here.
  - intros d' Hd'. vm_compute in Hd'.
    repeat (apply elem_of_cons in Hd' as [->|Hd']; [by vm_compute|]).
    by apply elem_of_nil in Hd'.
Defined.

Lemma one_figure_per_date_witness :
  ∃ evs,
    Figures.create_lat_long_metric_figures (λ _, true) id Figures.null_last
      "offset50" "output" false = (evs, None) ∧
    Figures.saved_paths evs
    = (λ d, path_join "output"
              (Figures.replace_slash "offset50" +:+ "_network_2D_grid_" +:+
               id d +:+ ".png"))
        <$> Figures.drawn_dates Figures.null_last "offset50" ∧
    NoDup (Figures.drawn_dates Figures.null_last "offset50") ∧
    StronglySorted (λ a b, String.compare a b = Lt)
      (Figures.drawn_dates Figures.null_last "offset50") ∧
    (∀ d, d ∈ Figures.drawn_dates Figures.null_last "offset50" ↔
          d ∈ (Figures.fig_rows Figures.null_last).*1 ∧
          Figures.has_null Figures.null_last "offset50" d = false) ∧
    Figures.made_dirs evs = [ "output" ].
Proof.
  eexists. split; [vm_compute; reflexivity|].
  apply (one_figure_per_date (λ _, true) id Figures.null_last "offset50" "output"
           false).
  vm_compute. reflexivity.
Defined.

Lemma problem_line_names_drawn_date_witness :
  ∃ evs,
    Figures.create_lat_long_metric_figures (λ _, true) id Figures.null_last
      "offset50" "output" false = (evs, None) ∧
    (∀ line, line ∈ Figures.printed_lines evs →
       ∃ d, d ∈ (Figures.fig_rows Figures.null_last).*1 ∧
            Figures.has_null Figures.null_last "offset50" d = false ∧
            line = "Problem with date " +:+ id d +:+ " nan entries found.") ∧
    length (Figures.printed_lines evs)
    = length (filter (λ d, Figures.has_null Figures.null_last "offset50" d = true)
                (Figures.np_unique_str (Figures.fig_rows Figures.null_last).*1)).
Proof.
  eexists. split; [vm_compute; reflexivity|].
  apply (problem_line_names_drawn_date (λ _, true) id Figures.null_last "offset50"
           "output" false).
  vm_compute. reflexivity.
Defined.

(** ** The spatial step of [main] *)

(** X15: [coarse_dataframe] applied to the value [convert_to_geopandas]
    returns, as the spatial branch of [main] and [test_coarse_dataframe] do,
    never yields a table: when [convert_to_geopandas] raises, that exception
    ends the step, and when it returns, [coarse_dataframe] is given [None]
    and raises [TypeError]. *)
Theorem spatial_step_fails {Geometry : Type} (distance : Geometry → Geometry → Z)
  (geo_rows : DataFrame → list (@Coarse.row Geometry)) (df : DataFrame)
  (side_square : nat) :
  ∃ e, Spatial.spatial_step distance geo_rows df side_square = inl e ∧
       (Geo.convert_to_geopandas df = inl e ∨
        (∃ out, Geo.convert_to_geopandas df = inr out) ∧ e = TypeError).
Proof.
  unfold Spatial.spatial_step.
  destruct (Geo.convert_to_geopandas df) as [e|[df' ret]] eqn:Hconv;
    cbn [mbind result_bind].
  - exists e. split; [done|]. by left.
  - assert (ret = None) as ->.
    { unfold Geo.convert_to_geopandas in Hconv.
      destruct (Geo.get_column df "lat"); [done|].
      destruct (Geo.get_column df "long"); [done|].
      cbn [mbind result_bind] in Hconv.
      destruct (map_result _ _); [done|].
      cbn [mbind result_bind] in Hconv. by injection Hconv as _ <-. }
    exists TypeError. split; [done|]. right. split; [by eexists|done].
Qed.

(** ** The vegetation rows of the returned table *)

Import ReturnedSpec.

Lemma row_key_date (r : gmap string value) (k : value * value * value) :
  row_key r = Some k → r !! "date" = Some k.1.1.
Proof.
  unfold row_key. destruct (r !! "date") as [d|]; [|done].
  destruct (r !! "lat") as [la|]; [|done].
  destruct (r !! "long") as [lo|]; [|done].
  cbn [mbind option_bind]. by intros [= <-].
Qed.

Lemma rows_of_triple_left (k : value * value * value) (weather_df : DataFrame)
  (l : list (nat * gmap string value)) :
  NoDup ((λ lr, row_key lr.2) <$> l) →
  length (filter (λ m, from_veg m ≫= row_key = Some k)
            (l ≫= merge_left weather_df))
  = if decide (Some k ∈ (λ lr, row_key lr.2) <$> l)
    then Nat.max 1 (rows_on (Some k.1.1) weather_df) else 0%nat.
Proof.
  induction l as [|lr l IH]; [done|].
  rewrite fmap_cons, NoDup_cons. intros [Hlr Hnd].
  rewrite bind_cons, filter_app, length_app, (IH Hnd).
  destruct (decide (row_key lr.2 = Some k)) as [Hk|Hk].
  - rewrite filter_all.
    + rewrite length_merge_left, (row_key_date _ _ Hk).
      rewrite decide_False by (by rewrite <- Hk).
      rewrite decide_True by (rewrite Hk; apply list_elem_of_here). lia.
    + apply Forall_forall. intros m Hm.
      apply merge_left_elem in Hm as (-> & _). done.
  - rewrite filter_none.
    + cbn [length]. case_decide as Hin.
      * rewrite decide_True by (by apply list_elem_of_further). done.
      * rewrite decide_False; [done|].
        intros [?|?]%elem_of_cons; [congruence|done].
    + intros m Hm. apply merge_left_elem in Hm as (-> & _). done.
Qed.

Lemma rows_of_triple_merged (k : value * value * value)
  (veg_df weather_df : DataFrame) :
  NoDup ((λ lr, row_key lr.2) <$> rows veg_df) →
  length (rows_of_triple k (with_geometry <$> pd_merge_outer veg_df weather_df))
  = if decide (Some k ∈ (λ lr, row_key lr.2) <$> rows veg_df)
    then Nat.max 1 (rows_on (Some k.1.1) weather_df) else 0%nat.
Proof.
  intros Hnd. unfold rows_of_triple. rewrite length_filter_fmap.
  unfold pd_merge_outer. rewrite filter_app, length_app.
  cbn [with_geometry fst].
  rewrite (rows_of_triple_left k weather_df (rows veg_df) Hnd).
  rewrite filter_none; [cbn [length]; lia|].
  by intros m (rr & -> & _)%list_elem_of_fmap.
Qed.

Lemma rows_on_NoDup (d : option value) (df : DataFrame) :
  NoDup (dates_of df) → (rows_on d df ≤ 1)%nat.
Proof.
  intros Hnd. unfold rows_on.
  destruct (decide (d ∈ dates_of df)) as [Hin|Hin].
  - rewrite (filter_key_length (λ lr : nat * gmap string value, lr.2 !! "date"));
      done.
  - rewrite (proj2 (length_filter_zero _ _)); [lia|].
    intros lr Hlr Hd. apply Hin. apply list_elem_of_fmap. by exists lr.
Qed.

Lemma merged_veg_side (veg_df weather_df : DataFrame)
  (mg : merged_row * value) (r : gmap string value) :
  mg ∈ with_geometry <$> pd_merge_outer veg_df weather_df →
  from_veg mg.1 = Some r → ∃ lr, lr ∈ rows veg_df ∧ lr.2 = r.
Proof.
  intros (m & -> & Hm)%list_elem_of_fmap. cbn [with_geometry fst].
  unfold pd_merge_outer in Hm. apply elem_of_app in Hm as [Hm|Hm].
  - apply list_elem_of_bind in Hm as (lr & Hm & Hlr).
    apply merge_left_elem in Hm as (-> & _). intros [= <-]. eauto.
  - by apply list_elem_of_fmap in Hm as (rr & -> & _).
Qed.

(** C2, as the code has it: when [read_json_to_dataframe] returns a table
    for a well-typed summary, the triple of every vegetation record is
    carried by the rows of one vegetation row only, which the outer join
    repeats once for each weather row of its date (once when there is none);
    every row with a vegetation side carries the triple of some record and,
    in the metric column of each collection, the [offset50] of the last
    record of that collection with that triple (NaN when the collection has
    none): the union of the metric columns of its records, a later record
    overwriting an earlier one.  When no weather metric is named [date] the
    weather table has at most one row per date, and every triple is carried
    by exactly one row of the returned table. *)
Theorem vegetation_row_identity (fs : gmap string Ingest.summary)
  (filename : string) (data : Ingest.summary)
  (out : list (merged_row * value)) :
  fs !! filename = Some data → well_typed data →
  read_json_to_dataframe fs filename = inr out →
  ∃ weather_df j,
    for_each add_weather data (empty_weather_df, 0%nat) = inr (weather_df, j) ∧
    (∀ rec, rec ∈ veg_records data →
       length (rows_of_triple (sp_key rec.2) out)
       = Nat.max 1 (rows_on (Some (Str (sp_date rec.2))) weather_df)) ∧
    (∀ mg r, mg ∈ out → from_veg mg.1 = Some r →
       (∃ rec, rec ∈ veg_records data ∧ row_key r = Some (sp_key rec.2)) ∧
       ∀ name, r !! (name +:+ "_offset50")
               = Num <$> last_offset name (row_key r) (veg_records data)) ∧
    ((∀ tp values, tp ∈ weather_points data → tp.2 = Some values →
        "date" ∉ values.*1) →
     ∀ rec, rec ∈ veg_records data →
       length (rows_of_triple (sp_key rec.2) out) = 1%nat).
Proof.
  intros Hfile Hwt Hrun.
  apply read_json_returned in Hrun
    as (data' & veg & [weather_df j] & Hfile' & Hveg & Hweather & _ & _ & ->).
  unfold Ingest.summary in *. rewrite Hfile in Hfile'. injection Hfile' as <-.
  rewrite add_vegetation_flat in Hveg by done.
  destruct (for_each_add_space_point [] (veg_records data) _ veg_inv_empty)
    as (veg' & Hveg' & _ & Hnd & Hrows & Hrecs & Hcols).
  rewrite Hveg in Hveg'. injection Hveg' as <-. cbn [app fst snd] in *.
  assert (∀ rec, rec ∈ veg_records data →
            length (rows_of_triple (sp_key rec.2)
                      (with_geometry <$> pd_merge_outer veg.1 weather_df))
            = Nat.max 1 (rows_on (Some (Str (sp_date rec.2))) weather_df)) as Hcount.
  { intros rec Hrec. rewrite rows_of_triple_merged by done.
    rewrite decide_True; [done|].
    destruct (Hrecs rec Hrec) as (lr & Hlr & <-).
    by apply (list_elem_of_fmap_2 (λ lr : nat * gmap string value, row_key lr.2)). }
  exists weather_df, j. split; [done|]. split; [done|]. split.
  - intros mg r Hmg Hr.
    destruct (merged_veg_side _ _ mg r Hmg Hr) as (lr & Hlr & <-).
    split; [by apply Hrows|]. intros name. by apply Hcols.
  - intros Hno rec Hrec. rewrite Hcount by done.
    destruct (weather_loop_inv data Hno) as (st & Hst & _ & _ & Hdates & _).
    rewrite Hweather in Hst. injection Hst as <-. cbn [fst] in Hdates.
    pose proof (rows_on_NoDup (Some (Str (sp_date rec.2))) weather_df Hdates).
    lia.
Qed.

Lemma vegetation_row_identity_witness :
  ∃ out,
    read_json_to_dataframe {["results_summary.json" := two_points]}
      "results_summary.json" = inr out ∧
    ∃ weather_df j,
      for_each add_weather two_points (empty_weather_df, 0%nat)
      = inr (weather_df, j) ∧
      (∀ rec, rec ∈ veg_records two_points →
         length (rows_of_triple (sp_key rec.2) out)
         = Nat.max 1 (rows_on (Some (Str (sp_date rec.2))) weather_df)) ∧
      (∀ mg r, mg ∈ out → from_veg mg.1 = Some r →
         (∃ rec, rec ∈ veg_records two_points ∧ row_key r = Some (sp_key rec.2)) ∧
         ∀ name, r !! (name +:+ "_offset50")
                 = Num <$> last_offset name (row_key r) (veg_records two_points)) ∧
      ((∀ tp values, tp ∈ weather_points two_points → tp.2 = Some values →
          "date" ∉ values.*1) →
       ∀ rec, rec ∈ veg_records two_points →
         length (rows_of_triple (sp_key rec.2) out) = 1%nat).
Proof.
  eexists. split.
  - vm_compute. reflexivity.
  - apply (vegetation_row_identity {["results_summary.json" := two_points]}
             "results_summary.json" two_points).
    + vm_compute. reflexivity.
    + apply two_points_well_typed.
    + vm_compute. reflexivity.
Defined.

(** With a weather metric named [date] two weather rows can hold one date,
    and the vegetation row of that date occurs twice in the returned
    table. *)
Lemma triple_in_two_rows :
  ¬ one_row_per_triple {["results_summary.json" := dup_date]}
      "results_summary.json" dup_date.
Proof.
  intros H.
  specialize (H _ eq_refl ("COPERNICUS/S2", Ingest.SpacePoint "2020-03-01" 0 0 1)).
  assert (2 = 1)%nat as Habs; [|discriminate Habs].
  etransitivity; [|apply H].
  - vm_compute. reflexivity.
  - vm_compute. apply list_elem_of_here.
Qed.
